(** * Graceful shutdown coordinator: a shallow embedding and its properties

    The development follows the module [ShutdownCoordinator] of the
    repository: one class, extending Node's [EventEmitter], that tracks the
    connections of an HTTP server, reacts to termination triggers, drains
    the connections within a grace period, releases tracked resources and
    exits the process.

    The class is stateful, its methods throw, several of them are [async],
    and the host (Node) delivers events between them.  The embedding is
    therefore layered:

    - the fields of [this] are a record, [Coordinator];
    - the host process (clock, pending timers, queue of promise jobs,
      installed listeners, what has been done to sockets, the exit status)
      is a second record, [World], that holds [this];
    - a method is a function in a state-and-exception monad over [World];
    - an [async] method is cut at its [await]s: what runs before the first
      [await] is the method itself, what runs after an [await] is a [Job]
      of the promise-job queue;
    - the host loop [run] delivers timestamped events, fires due timers and
      empties the job queue after each of them. *)

From Stdlib Require Import ZArith String List Bool Arith Lia.
Import ListNotations.
Local Open Scope string_scope.
Local Open Scope list_scope.
Local Open Scope Z_scope.

Local Notation "a +++ b" := (String.append a b) (at level 60, right associativity).

Set Implicit Arguments.

(** ** JavaScript containers *)

(** A JS [Map] keeps its entries in insertion order; [set] on a present key
    replaces the value in place, [delete] removes the entry. *)
Module JsMap.
Section Ops.
Variables K V : Type.
Variable eqb : K -> K -> bool.

Definition t := list (K * V).

Fixpoint get (k : K) (m : t) : option V :=
  match m with
  | [] => None
  | (k', v) :: r => if eqb k k' then Some v else get k r
  end.

Definition has (k : K) (m : t) : bool :=
  match get k m with Some _ => true | None => false end.

Fixpoint set (k : K) (v : V) (m : t) : t :=
  match m with
  | [] => [(k, v)]
  | (k', v') :: r => if eqb k k' then (k, v) :: r else (k', v') :: set k v r
  end.

Definition delete (k : K) (m : t) : t :=
  filter (fun kv => negb (eqb k (fst kv))) m.

Definition size (m : t) : nat := List.length m.

Definition values (m : t) : list V := map snd m.

Definition clear (m : t) : t := [].
End Ops.
End JsMap.

(** A JS [Set] of timer handles, in insertion order. *)
Module JsSet.
Definition t := list nat.
Definition add (x : nat) (s : t) : t :=
  if existsb (Nat.eqb x) s then s else s ++ [x].
Definition delete (x : nat) (s : t) : t :=
  filter (fun y => negb (Nat.eqb x y)) s.
Definition size (s : t) : nat := List.length s.
End JsSet.

(** ** Values of the program *)

(** Thrown values are [Error] objects: every [catch] block of the module
    reads [error.message], and [completeShutdown] reads [err.name]. *)
Record JsError := { err_name : string; err_message : string }.

Definition mkError (message : string) : JsError :=
  {| err_name := "Error"; err_message := message |}.

(** [EXIT_CODES] *)
Module EXIT_CODES.
Definition GRACEFUL : Z := 0.
Definition TIMEOUT : Z := 1.
Definition RESOURCE_CLEANUP_FAILED : Z := 2.
Definition SIGNAL_ERROR : Z := 3.
End EXIT_CODES.

(** [SHUTDOWN_STATES] *)
Inductive ShutdownState :=
| ACTIVE | SHUTDOWN_PENDING | DRAINING | CLEANUP | TERMINATION.

Definition state_eqb (a b : ShutdownState) : bool :=
  match a, b with
  | ACTIVE, ACTIVE | SHUTDOWN_PENDING, SHUTDOWN_PENDING
  | DRAINING, DRAINING | CLEANUP, CLEANUP | TERMINATION, TERMINATION => true
  | _, _ => false
  end.

Record Config := {
  gracePeriodMs : Z;
  forceTimeoutMs : Z;
  connectionTimeoutMs : Z;
  maxConnections : Z;
  logLevel : string
}.

Definition DEFAULT_CONFIG : Config :=
  {| gracePeriodMs := 30000; forceTimeoutMs := 5000;
     connectionTimeoutMs := 30000; maxConnections := 1000;
     logLevel := "info" |}.

(** The [options] argument of the constructor: any subset of the keys. *)
Record Options := {
  opt_gracePeriodMs : option Z;
  opt_forceTimeoutMs : option Z;
  opt_connectionTimeoutMs : option Z;
  opt_maxConnections : option Z;
  opt_logLevel : option string
}.

Definition no_options : Options :=
  {| opt_gracePeriodMs := None; opt_forceTimeoutMs := None;
     opt_connectionTimeoutMs := None; opt_maxConnections := None;
     opt_logLevel := None |}.

Definition or_default {A} (o : option A) (d : A) : A :=
  match o with Some v => v | None => d end.

(** [{ ...DEFAULT_CONFIG, ...options }] *)
Definition merge_config (o : Options) : Config :=
  {| gracePeriodMs := or_default (opt_gracePeriodMs o) (gracePeriodMs DEFAULT_CONFIG);
     forceTimeoutMs := or_default (opt_forceTimeoutMs o) (forceTimeoutMs DEFAULT_CONFIG);
     connectionTimeoutMs :=
       or_default (opt_connectionTimeoutMs o) (connectionTimeoutMs DEFAULT_CONFIG);
     maxConnections := or_default (opt_maxConnections o) (maxConnections DEFAULT_CONFIG);
     logLevel := or_default (opt_logLevel o) (logLevel DEFAULT_CONFIG) |}.

(** A transport handle.  [sock_destroy_fault] says whether [destroy()] of
    this socket throws. *)
Record Socket := {
  sock_handle : nat;
  sock_remoteAddress : string;
  sock_remotePort : Z;
  sock_destroy_fault : option JsError
}.

Definition TimerId := nat.

(** [`conn-${Date.now()}-${++this.connectionCounter}`]: the string is
    determined by, and determines, the pair of the two numbers. *)
Definition ConnId := (Z * nat)%type.

Definition connid_eqb (a b : ConnId) : bool :=
  Z.eqb (fst a) (fst b) && Nat.eqb (snd a) (snd b).

Record ConnectionInfo := {
  ci_id : ConnId;
  ci_socket : Socket;
  ci_startTime : Z;
  ci_remoteAddress : string;
  ci_remotePort : Z;
  ci_requestCount : nat;
  ci_lastActivity : Z;
  ci_timeout : option TimerId
}.

(** An event target handed to [trackEventListener]; [tgt_remove_fault]
    says whether its [removeListener] throws. *)
Record Target := { tgt_id : nat; tgt_remove_fault : option JsError }.

Record Registration := { reg_event : string; reg_handler : nat }.

(** A callback given to [onShutdown] or [onResourceCleanup], described by
    the way its call ends: it returns (a value, or a promise fulfilled by
    then), it throws, or it returns a promise rejected by then (an [async]
    function that throws). *)
Inductive CallbackBehaviour :=
| CbReturns
| CbThrows (e : JsError)
| CbRejects (e : JsError).

Record Callback := { cb_id : nat; cb_behaviour : CallbackBehaviour }.

(** A truthy argument of [registerServer]. *)
Record ServerObj := {
  srv_id : nat;
  srv_close_is_function : bool;      (* typeof server.close === 'function' *)
  srv_constructor_name : string;
  srv_close_fault : option JsError   (* server.close(cb) throws *)
}.

Inductive ServerArg :=
| ArgFalsy                           (* undefined, null, 0, ... *)
| ArgObject (o : ServerObj).

(** The arguments [(signal, error)] of the running [handleSignal]. *)
Record Ctx := { ctx_signal : string; ctx_error : option JsError }.

(** The two promise chains that run the phases after draining:
    [executeShutdownSequence], awaited inside the [try] of [handleSignal],
    and the [.then] chain built by [transitionToCleanup]. *)
Inductive Chain :=
| Main (ctx : Ctx)
| Transition.

(** Promise jobs: the code after an [await], or a [.then]/[.catch]
    reaction. *)
Inductive Job :=
| JAfterStop (ctx : Ctx)
    (* executeShutdownSequence after [await this.stopAcceptingConnections()] *)
| JAfterDrain (ctx : Ctx)
    (* executeShutdownSequence after [await this.drainConnections()] *)
| JWrapperCatch (ch : Chain) (message : string) (e : JsError)
    (* the wrapper [async (callback) => { try { await callback(); } catch ... }]
       of a callback whose promise rejected, after its [await]: the [catch] *)
| JCleanupResume (ch : Chain)
    (* performResourceCleanup after [await Promise.all(...)] *)
| JAfterCleanup (ch : Chain)
    (* Main: after [await this.performResourceCleanup()];
       Transition: [.then(() => this.executeShutdownCallbacks())] *)
| JCallbacksResume (ch : Chain)
    (* executeShutdownCallbacks after [await Promise.allSettled(...)] *)
| JAfterCallbacks (ch : Chain)
    (* Main: [this.completeShutdown(signal, error)];
       Transition: [.then(() => this.completeShutdown())] *)
| JCatch (ch : Chain) (e : JsError)
    (* Main: the [catch] of handleSignal; Transition: the [.catch] *)
| JTick (n : nat) (j : Job).
    (* a job that only passes a settled promise on: [j] runs after [n]
       more jobs of this kind *)

Record ShutdownSummary := {
  sum_signal : string;
  sum_duration : Z;
  sum_errorsEncountered : nat;
  sum_finalConnectionCount : nat
}.

(** What is passed to the listeners of an emitted event. *)
Inductive Payload :=
| PNone
| PServer (srv : nat)
| PTrigger (signal : string) (error : option JsError)
| PConnection (info : ConnectionInfo)
| PCount (count : nat)
| PCallbacks (total failed : nat)
| PSummary (s : ShutdownSummary) (exitCode : Z)
| PExitCode (exitCode : Z).

(** What the coordinator does to the outside, in the order it does it.
    A log entry carries [this.state], as [logEntry] does. *)
Inductive Effect :=
| ELog (level message : string) (st : ShutdownState)
| EEmit (event : string) (p : Payload)
| EDestroy (s : Socket)
| EServerOn (srv : nat)
| EServerClose (srv : nat)
| ESetTimeout (t : TimerId) (ms : Z)
| EClearTimeout (t : TimerId)
| EClearInterval (t : TimerId)
| ETargetOn (target : nat) (event : string) (handler : nat)
| ERemoveListener (target : nat) (event : string) (handler : nat)
| EProcessOn (event : string)
| EProcessRemoveListener (event : string)
| ECallback (cb : nat)
| EThrown (e : JsError)
| EProcessExit (code : Z).

(** What a timer set by the coordinator does when it fires. *)
Inductive TimerAction :=
| TConnectionTimeout (id : ConnId)   (* this.handleConnectionTimeout(id) *)
| TGrace (d : nat)                   (* the grace timer of drain promise d *)
| TForceExit (code : Z).             (* process.exit(exitCode) *)

Record PendingTimer := {
  pt_id : TimerId;
  pt_deadline : Z;
  pt_action : TimerAction
}.

(** The promise made by [stopAcceptingConnections], with the callback it
    gave to [server.close]. *)
Record StopPromise := {
  sp_server : nat;
  sp_ctx : Ctx;
  sp_called : bool;      (* the close callback has run *)
  sp_settled : bool
}.

(** The promise made by [drainConnections], with its grace timer; its
    [checkConnections] listens to 'connection-removed' from then on. *)
Record DrainPromise := {
  dp_timer : TimerId;
  dp_ctx : Ctx;
  dp_resolved : bool
}.

Inductive Termination :=
| Exited (code : Z)          (* process.exit(code) *)
| Crashed (e : JsError).     (* a fault nobody handles *)

(** ** The state *)

(** The fields of [this]. *)
Record Coordinator := {
  config : Config;
  state : ShutdownState;
  shutdownInitiated : bool;
  shutdownStartTime : option Z;
  activeConnections : JsMap.t ConnId ConnectionInfo;
  connectionCounter : nat;
  maxConnectionsReached : bool;
  timers : JsSet.t;
  intervals : JsSet.t;
  eventListeners : JsMap.t nat (Target * list Registration);
  server : option ServerObj;
  shutdownCallbacks : list Callback;
  resourceCleanupCallbacks : list Callback;
  signalHandlers : JsMap.t string string;
  shutdownErrors : list JsError
}.

(** The host process around it. *)
Record World := {
  this : Coordinator;
  now : Z;                                  (* Date.now() *)
  nextTimer : TimerId;
  pendingTimers : list PendingTimer;
  jobs : list Job;                          (* promise jobs, first in first out *)
  rejections : list JsError;                (* rejected promises nobody awaits *)
  trace : list Effect;                      (* oldest first *)
  halted : option Termination;
  stops : list StopPromise;
  drains : list DrainPromise;
  socketHandlers : list (nat * ConnId);     (* socket.on('close'|'error'|'data') *)
  connectionListeners : list nat;           (* server.on('connection') *)
  processListeners : list string;           (* process.on(event) *)
  userListeners : string -> option JsError  (* listeners the host attached to
                                               the coordinator: the fault they
                                               raise on an event, if any *)
}.

(** Field updates. *)
Definition set_config (v : Config) (c : Coordinator) : Coordinator :=
  Build_Coordinator (v) (state c) (shutdownInitiated c) (shutdownStartTime c) (activeConnections c) (connectionCounter c) (maxConnectionsReached c) (timers c) (intervals c) (eventListeners c) (server c) (shutdownCallbacks c) (resourceCleanupCallbacks c) (signalHandlers c) (shutdownErrors c).
Definition set_state (v : ShutdownState) (c : Coordinator) : Coordinator :=
  Build_Coordinator (config c) (v) (shutdownInitiated c) (shutdownStartTime c) (activeConnections c) (connectionCounter c) (maxConnectionsReached c) (timers c) (intervals c) (eventListeners c) (server c) (shutdownCallbacks c) (resourceCleanupCallbacks c) (signalHandlers c) (shutdownErrors c).
Definition set_shutdownInitiated (v : bool) (c : Coordinator) : Coordinator :=
  Build_Coordinator (config c) (state c) (v) (shutdownStartTime c) (activeConnections c) (connectionCounter c) (maxConnectionsReached c) (timers c) (intervals c) (eventListeners c) (server c) (shutdownCallbacks c) (resourceCleanupCallbacks c) (signalHandlers c) (shutdownErrors c).
Definition set_shutdownStartTime (v : option Z) (c : Coordinator) : Coordinator :=
  Build_Coordinator (config c) (state c) (shutdownInitiated c) (v) (activeConnections c) (connectionCounter c) (maxConnectionsReached c) (timers c) (intervals c) (eventListeners c) (server c) (shutdownCallbacks c) (resourceCleanupCallbacks c) (signalHandlers c) (shutdownErrors c).
Definition set_activeConnections (v : JsMap.t ConnId ConnectionInfo) (c : Coordinator) : Coordinator :=
  Build_Coordinator (config c) (state c) (shutdownInitiated c) (shutdownStartTime c) (v) (connectionCounter c) (maxConnectionsReached c) (timers c) (intervals c) (eventListeners c) (server c) (shutdownCallbacks c) (resourceCleanupCallbacks c) (signalHandlers c) (shutdownErrors c).
Definition set_connectionCounter (v : nat) (c : Coordinator) : Coordinator :=
  Build_Coordinator (config c) (state c) (shutdownInitiated c) (shutdownStartTime c) (activeConnections c) (v) (maxConnectionsReached c) (timers c) (intervals c) (eventListeners c) (server c) (shutdownCallbacks c) (resourceCleanupCallbacks c) (signalHandlers c) (shutdownErrors c).
Definition set_maxConnectionsReached (v : bool) (c : Coordinator) : Coordinator :=
  Build_Coordinator (config c) (state c) (shutdownInitiated c) (shutdownStartTime c) (activeConnections c) (connectionCounter c) (v) (timers c) (intervals c) (eventListeners c) (server c) (shutdownCallbacks c) (resourceCleanupCallbacks c) (signalHandlers c) (shutdownErrors c).
Definition set_timers (v : JsSet.t) (c : Coordinator) : Coordinator :=
  Build_Coordinator (config c) (state c) (shutdownInitiated c) (shutdownStartTime c) (activeConnections c) (connectionCounter c) (maxConnectionsReached c) (v) (intervals c) (eventListeners c) (server c) (shutdownCallbacks c) (resourceCleanupCallbacks c) (signalHandlers c) (shutdownErrors c).
Definition set_intervals (v : JsSet.t) (c : Coordinator) : Coordinator :=
  Build_Coordinator (config c) (state c) (shutdownInitiated c) (shutdownStartTime c) (activeConnections c) (connectionCounter c) (maxConnectionsReached c) (timers c) (v) (eventListeners c) (server c) (shutdownCallbacks c) (resourceCleanupCallbacks c) (signalHandlers c) (shutdownErrors c).
Definition set_eventListeners (v : JsMap.t nat (Target * list Registration)) (c : Coordinator) : Coordinator :=
  Build_Coordinator (config c) (state c) (shutdownInitiated c) (shutdownStartTime c) (activeConnections c) (connectionCounter c) (maxConnectionsReached c) (timers c) (intervals c) (v) (server c) (shutdownCallbacks c) (resourceCleanupCallbacks c) (signalHandlers c) (shutdownErrors c).
Definition set_server (v : option ServerObj) (c : Coordinator) : Coordinator :=
  Build_Coordinator (config c) (state c) (shutdownInitiated c) (shutdownStartTime c) (activeConnections c) (connectionCounter c) (maxConnectionsReached c) (timers c) (intervals c) (eventListeners c) (v) (shutdownCallbacks c) (resourceCleanupCallbacks c) (signalHandlers c) (shutdownErrors c).
Definition set_shutdownCallbacks (v : list Callback) (c : Coordinator) : Coordinator :=
  Build_Coordinator (config c) (state c) (shutdownInitiated c) (shutdownStartTime c) (activeConnections c) (connectionCounter c) (maxConnectionsReached c) (timers c) (intervals c) (eventListeners c) (server c) (v) (resourceCleanupCallbacks c) (signalHandlers c) (shutdownErrors c).
Definition set_resourceCleanupCallbacks (v : list Callback) (c : Coordinator) : Coordinator :=
  Build_Coordinator (config c) (state c) (shutdownInitiated c) (shutdownStartTime c) (activeConnections c) (connectionCounter c) (maxConnectionsReached c) (timers c) (intervals c) (eventListeners c) (server c) (shutdownCallbacks c) (v) (signalHandlers c) (shutdownErrors c).
Definition set_signalHandlers (v : JsMap.t string string) (c : Coordinator) : Coordinator :=
  Build_Coordinator (config c) (state c) (shutdownInitiated c) (shutdownStartTime c) (activeConnections c) (connectionCounter c) (maxConnectionsReached c) (timers c) (intervals c) (eventListeners c) (server c) (shutdownCallbacks c) (resourceCleanupCallbacks c) (v) (shutdownErrors c).
Definition set_shutdownErrors (v : list JsError) (c : Coordinator) : Coordinator :=
  Build_Coordinator (config c) (state c) (shutdownInitiated c) (shutdownStartTime c) (activeConnections c) (connectionCounter c) (maxConnectionsReached c) (timers c) (intervals c) (eventListeners c) (server c) (shutdownCallbacks c) (resourceCleanupCallbacks c) (signalHandlers c) (v).

Definition set_this (v : Coordinator) (w : World) : World :=
  Build_World (v) (now w) (nextTimer w) (pendingTimers w) (jobs w) (rejections w) (trace w) (halted w) (stops w) (drains w) (socketHandlers w) (connectionListeners w) (processListeners w) (userListeners w).
Definition set_now (v : Z) (w : World) : World :=
  Build_World (this w) (v) (nextTimer w) (pendingTimers w) (jobs w) (rejections w) (trace w) (halted w) (stops w) (drains w) (socketHandlers w) (connectionListeners w) (processListeners w) (userListeners w).
Definition set_nextTimer (v : TimerId) (w : World) : World :=
  Build_World (this w) (now w) (v) (pendingTimers w) (jobs w) (rejections w) (trace w) (halted w) (stops w) (drains w) (socketHandlers w) (connectionListeners w) (processListeners w) (userListeners w).
Definition set_pendingTimers (v : list PendingTimer) (w : World) : World :=
  Build_World (this w) (now w) (nextTimer w) (v) (jobs w) (rejections w) (trace w) (halted w) (stops w) (drains w) (socketHandlers w) (connectionListeners w) (processListeners w) (userListeners w).
Definition set_jobs (v : list Job) (w : World) : World :=
  Build_World (this w) (now w) (nextTimer w) (pendingTimers w) (v) (rejections w) (trace w) (halted w) (stops w) (drains w) (socketHandlers w) (connectionListeners w) (processListeners w) (userListeners w).
Definition set_rejections (v : list JsError) (w : World) : World :=
  Build_World (this w) (now w) (nextTimer w) (pendingTimers w) (jobs w) (v) (trace w) (halted w) (stops w) (drains w) (socketHandlers w) (connectionListeners w) (processListeners w) (userListeners w).
Definition set_trace (v : list Effect) (w : World) : World :=
  Build_World (this w) (now w) (nextTimer w) (pendingTimers w) (jobs w) (rejections w) (v) (halted w) (stops w) (drains w) (socketHandlers w) (connectionListeners w) (processListeners w) (userListeners w).
Definition set_halted (v : option Termination) (w : World) : World :=
  Build_World (this w) (now w) (nextTimer w) (pendingTimers w) (jobs w) (rejections w) (trace w) (v) (stops w) (drains w) (socketHandlers w) (connectionListeners w) (processListeners w) (userListeners w).
Definition set_stops (v : list StopPromise) (w : World) : World :=
  Build_World (this w) (now w) (nextTimer w) (pendingTimers w) (jobs w) (rejections w) (trace w) (halted w) (v) (drains w) (socketHandlers w) (connectionListeners w) (processListeners w) (userListeners w).
Definition set_drains (v : list DrainPromise) (w : World) : World :=
  Build_World (this w) (now w) (nextTimer w) (pendingTimers w) (jobs w) (rejections w) (trace w) (halted w) (stops w) (v) (socketHandlers w) (connectionListeners w) (processListeners w) (userListeners w).
Definition set_socketHandlers (v : list (nat * ConnId)) (w : World) : World :=
  Build_World (this w) (now w) (nextTimer w) (pendingTimers w) (jobs w) (rejections w) (trace w) (halted w) (stops w) (drains w) (v) (connectionListeners w) (processListeners w) (userListeners w).
Definition set_connectionListeners (v : list nat) (w : World) : World :=
  Build_World (this w) (now w) (nextTimer w) (pendingTimers w) (jobs w) (rejections w) (trace w) (halted w) (stops w) (drains w) (socketHandlers w) (v) (processListeners w) (userListeners w).
Definition set_processListeners (v : list string) (w : World) : World :=
  Build_World (this w) (now w) (nextTimer w) (pendingTimers w) (jobs w) (rejections w) (trace w) (halted w) (stops w) (drains w) (socketHandlers w) (connectionListeners w) (v) (userListeners w).
Definition set_userListeners (v : string -> option JsError) (w : World) : World :=
  Build_World (this w) (now w) (nextTimer w) (pendingTimers w) (jobs w) (rejections w) (trace w) (halted w) (stops w) (drains w) (socketHandlers w) (connectionListeners w) (processListeners w) (v).

(** ** The monad of methods

    A method takes the world to a new world and a completion: it returns,
    it throws, or the process has exited under it ([process.exit] does not
    return, and no [catch] sees it).  The changes a method made before it
    threw stay made. *)

Inductive Completion (A : Type) :=
| Normal (a : A)
| Throw (e : JsError)
| Halt.

Arguments Normal {A} a.
Arguments Throw {A} e.
Arguments Halt {A}.

Definition M (A : Type) := World -> World * Completion A.

Definition ret {A} (a : A) : M A := fun w => (w, Normal a).

Definition bind {A B} (m : M A) (f : A -> M B) : M B :=
  fun w =>
    match m w with
    | (w', Normal a) => f a w'
    | (w', Throw e) => (w', Throw e)
    | (w', Halt) => (w', Halt)
    end.

Definition throw {A} (e : JsError) : M A := fun w => (w, Throw e).

Definition halt {A} : M A := fun w => (w, Halt).

(** [try { m } catch (e) { h e }] *)
Definition try_catch {A} (m : M A) (h : JsError -> M A) : M A :=
  fun w =>
    match m w with
    | (w', Throw e) => h e w'
    | r => r
    end.

Definition gets {A} (f : World -> A) : M A := fun w => (w, Normal (f w)).

Definition modify (f : World -> World) : M unit := fun w => (f w, Normal tt).

Declare Scope js_scope.
Delimit Scope js_scope with js.
Notation "x <- m ;; k" := (bind m (fun x => k))
  (at level 61, m at next level, right associativity) : js_scope.
Notation "m ;; k" := (bind m (fun _ => k))
  (at level 61, right associativity) : js_scope.
Local Open Scope js_scope.

Definition when (b : bool) (m : M unit) : M unit := if b then m else ret tt.

(** [l.forEach(f)]: a throw of [f] ends the iteration. *)
Fixpoint forEach {A} (f : A -> M unit) (l : list A) : M unit :=
  match l with
  | [] => ret tt
  | x :: r => f x ;; forEach f r
  end.

(** An update of [this]. *)
Definition upd (f : Coordinator -> Coordinator) : M unit :=
  modify (fun w => set_this (f (this w)) w).

Definition effect (e : Effect) : M unit :=
  modify (fun w => set_trace (trace w ++ [e]) w).

Definition streq : string -> string -> bool := String.eqb.

Definition connectionCount (w : World) : nat :=
  JsMap.size (activeConnections (this w)).

(** ** Host primitives *)

(** [setTimeout(action, ms)]: the host hands out a new handle. *)
Definition setTimeout (a : TimerAction) (ms : Z) : M TimerId :=
  t <- gets nextTimer ;;
  t0 <- gets now ;;
  modify (fun w => set_nextTimer (S t) w) ;;
  modify (fun w =>
            set_pendingTimers
              (pendingTimers w ++
               [{| pt_id := t; pt_deadline := t0 + ms; pt_action := a |}]) w) ;;
  effect (ESetTimeout t ms) ;;
  ret t.

Definition cancel (t : TimerId) (l : list PendingTimer) : list PendingTimer :=
  filter (fun p => negb (Nat.eqb (pt_id p) t)) l.

(** [clearTimeout(t)] does not throw, whatever [t] is. *)
Definition clearTimeout (t : TimerId) : M unit :=
  modify (fun w => set_pendingTimers (cancel t (pendingTimers w)) w) ;;
  effect (EClearTimeout t).

Definition clearInterval (t : TimerId) : M unit := effect (EClearInterval t).

(** [socket.destroy()] *)
Definition destroy (s : Socket) : M unit :=
  effect (EDestroy s) ;;
  match sock_destroy_fault s with
  | Some e => throw e
  | None => ret tt
  end.

(** [target.removeListener(event, handler)] *)
Definition removeListener (target : Target) (r : Registration) : M unit :=
  effect (ERemoveListener (tgt_id target) (reg_event r) (reg_handler r)) ;;
  match tgt_remove_fault target with
  | Some e => throw e
  | None => ret tt
  end.

Fixpoint remove_first (s : string) (l : list string) : list string :=
  match l with
  | [] => []
  | x :: r => if streq s x then r else x :: remove_first s r
  end.

(** [process.on(event, handler)], [process.removeListener(event, handler)] *)
Definition process_on (event : string) : M unit :=
  modify (fun w => set_processListeners (processListeners w ++ [event]) w) ;;
  effect (EProcessOn event).

Definition process_removeListener (event : string) : M unit :=
  modify (fun w => set_processListeners (remove_first event (processListeners w)) w) ;;
  effect (EProcessRemoveListener event).

(** [process.exit(code)] *)
Definition process_exit {A} (code : Z) : M A :=
  effect (EProcessExit code) ;;
  modify (set_halted (Some (Exited code))) ;;
  halt.

(** A promise job is queued. *)
Definition enqueue (j : Job) : M unit :=
  modify (fun w => set_jobs (jobs w ++ [j]) w).

(** A promise that nobody awaits has rejected. *)
Definition reject_unhandled (e : JsError) : M unit :=
  modify (fun w => set_rejections (rejections w ++ [e]) w).

(** [j] runs after [n] jobs that pass a promise on.  A promise that
    settles is seen by the code that awaits it one job later; every
    promise in between (the promise of an [async] function that returned a
    promise, the promise made by [.then]) adds a job.  The counts written
    at the uses of [later] are those of the ECMAScript promise jobs. *)
Definition later (n : nat) (j : Job) : M unit :=
  enqueue (match n with O => j | S k => JTick k j end).

(** An [async] function called without [await]. *)
Definition detached (m : M unit) : M unit :=
  try_catch m reject_unhandled.

(** ** Logging *)

(** [log(level, message, metadata)]; the metadata is not kept. *)
Definition log (level message : string) : M unit :=
  minimum <- gets (fun w => logLevel (config (this w))) ;;
  if streq level "debug" && negb (streq minimum "debug") then ret tt
  else
    st <- gets (fun w => state (this w)) ;;
    effect (ELog level message st).

Definition push_error (e : JsError) : M unit :=
  upd (fun c => set_shutdownErrors (shutdownErrors c ++ [e]) c).

(** ** Draining: the promise of [drainConnections] *)

Fixpoint update_nth {A} (n : nat) (f : A -> A) (l : list A) : list A :=
  match l, n with
  | [], _ => []
  | x :: r, O => f x :: r
  | x :: r, S n' => x :: update_nth n' f r
  end.

Definition mark_resolved (p : DrainPromise) : DrainPromise :=
  {| dp_timer := dp_timer p; dp_ctx := dp_ctx p; dp_resolved := true |}.

(** [resolve()] of drain promise [d]: the first call lets
    [executeShutdownSequence] go on, later calls do nothing. *)
Definition resolve_drain (d : nat) : M unit :=
  p <- gets (fun w => nth_error (drains w) d) ;;
  match p with
  | Some p =>
      if dp_resolved p then ret tt
      else modify (fun w => set_drains (update_nth d mark_resolved (drains w)) w) ;;
           later 1 (JAfterDrain (dp_ctx p))
  | None => ret tt
  end.

(** [checkConnections] of drain promise [d] *)
Definition checkConnections (d : nat) : M unit :=
  sz <- gets connectionCount ;;
  p <- gets (fun w => nth_error (drains w) d) ;;
  match p with
  | Some p =>
      when (Nat.eqb sz 0)
        (clearTimeout (dp_timer p) ;;
         upd (fun c => set_timers (JsSet.delete (dp_timer p) (timers c)) c) ;;
         log "info" "All connections drained naturally" ;;
         resolve_drain d)
  | None => ret tt
  end.

(** ** [EventEmitter.emit]

    The listeners run synchronously, in the order they were attached, and
    a throw of one of them leaves [emit].  The listeners of the host were
    attached before the shutdown began, so they run before the
    [checkConnections] that [drainConnections] attaches. *)
Definition emit (event : string) (p : Payload) : M unit :=
  effect (EEmit event p) ;;
  fault <- gets (fun w => userListeners w event) ;;
  match fault with
  | Some e => throw e
  | None => ret tt
  end ;;
  if streq event "connection-removed" then
    n <- gets (fun w => List.length (drains w)) ;;
    forEach checkConnections (seq 0 n)
  else ret tt.

(** ** Callbacks of the host

    [async (callback) => { try { await callback(); } catch (error) { ... } }]:
    the call is made at once, in the [map] over the callbacks.  A throw is
    caught at once.  A rejection is caught when the wrapper goes on after
    its [await], which for a promise rejected already is the next promise
    job: the [catch] is queued at the call. *)
Definition callback_failed (message : string) (e : JsError) : M unit :=
  log "warn" message ;;
  push_error e.

Definition call_callback (ch : Chain) (message : string) (cb : Callback) : M unit :=
  effect (ECallback (cb_id cb)) ;;
  match cb_behaviour cb with
  | CbReturns => ret tt
  | CbThrows e => callback_failed message e
  | CbRejects e => enqueue (JWrapperCatch ch message e)
  end.

Fixpoint rejected_of (cbs : list Callback) : list JsError :=
  match cbs with
  | [] => []
  | cb :: r =>
      match cb_behaviour cb with
      | CbRejects e => e :: rejected_of r
      | _ => rejected_of r
      end
  end.

(** The jobs that pass before the code that awaits [Promise.all] (or
    [Promise.allSettled]) of the wrappers goes on: none for no wrapper;
    else one for the reaction of [Promise.all] to the last wrapper, and one
    more for that wrapper to go on after its own [await], unless every
    callback threw at once. *)
Definition all_settled_after (cbs : list Callback) : nat :=
  match cbs with
  | [] => 0%nat
  | _ =>
      if forallb
           (fun cb => match cb_behaviour cb with CbThrows _ => true | _ => false end)
           cbs
      then 1%nat else 2%nat
  end.

(** ** Resource cleanup *)

Definition cleanup_failed {A} (e : JsError) : M A :=
  log "error" "Critical error during resource cleanup" ;;
  push_error e ;;
  throw e.

(** [performResourceCleanup()], up to its [await]. *)
Definition performResourceCleanup (ch : Chain) : M unit :=
    (log "info" "Starting resource cleanup" ;;
     try_catch
       (ts <- gets (fun w => timers (this w)) ;;
        forEach clearTimeout ts ;;
        upd (set_timers []) ;;
        ivs <- gets (fun w => intervals (this w)) ;;
        forEach clearInterval ivs ;;
        upd (set_intervals []) ;;
        ls <- gets (fun w => eventListeners (this w)) ;;
        forEach
          (fun entry : nat * (Target * list Registration) =>
             let (target, listeners) := snd entry in
             forEach
               (fun r =>
                  try_catch (removeListener target r)
                    (fun _ => log "warn" "Error removing event listener"))
               listeners)
          ls ;;
        upd (set_eventListeners []) ;;
        hs <- gets (fun w => signalHandlers (this w)) ;;
        forEach
          (fun entry : string * string =>
             try_catch (process_removeListener (fst entry))
               (fun _ => log "warn" "Error removing signal handler"))
          hs ;;
        upd (set_signalHandlers []) ;;
        cbs <- gets (fun w => resourceCleanupCallbacks (this w)) ;;
        forEach (call_callback ch "Error in resource cleanup callback") cbs ;;
        later (all_settled_after cbs) (JCleanupResume ch))
       cleanup_failed).

(** [performResourceCleanup()], after its [await]. *)
Definition performResourceCleanup_resume (ch : Chain) : M unit :=
  try_catch
    (log "info" "Resource cleanup completed" ;;
     emit "cleanup-completed" PNone)
    cleanup_failed ;;
  enqueue (JAfterCleanup ch).

(** ** Shutdown callbacks *)

(** [executeShutdownCallbacks()], up to its [await]. *)
Definition executeShutdownCallbacks (ch : Chain) : M unit :=
  cbs <- gets (fun w => shutdownCallbacks (this w)) ;;
  if Nat.eqb (List.length cbs) 0 then
    (* the promise is fulfilled on return; the [.then] of the Transition
       chain was handed it as a return value, which costs two more jobs *)
    later (match ch with Main _ => 0 | Transition => 2 end)%nat (JAfterCallbacks ch)
  else
    log "info" "Executing shutdown callbacks" ;;
    forEach (call_callback ch "Error in shutdown callback") cbs ;;
    later (all_settled_after cbs) (JCallbacksResume ch).

(** [executeShutdownCallbacks()], after its [await].  Every wrapper
    catches, so no result of [Promise.allSettled] is 'rejected'. *)
Definition executeShutdownCallbacks_resume (ch : Chain) : M unit :=
  total <- gets (fun w => List.length (shutdownCallbacks (this w))) ;;
  log "info" "Shutdown callbacks completed" ;;
  emit "shutdown-callbacks-completed" (PCallbacks total 0) ;;
  later (match ch with Main _ => 0 | Transition => 1 end)%nat (JAfterCallbacks ch).

(** ** Connections *)

(** [forceCloseConnections()] *)
Definition forceCloseConnections : M unit :=
  connectionsToClose <- gets (fun w => JsMap.values (activeConnections (this w))) ;;
  log "info" "Force closing connections" ;;
  forEach
    (fun connectionInfo =>
       try_catch
         (destroy (ci_socket connectionInfo) ;;
          log "debug" "Force closed connection")
         (fun e =>
            log "warn" "Error force closing connection" ;;
            push_error e))
    connectionsToClose ;;
  upd (set_activeConnections []) ;;
  emit "connections-force-closed" (PCount (List.length connectionsToClose)).

(** [transitionToCleanup()]: the promise chain it builds runs as the
    [Transition] chain. *)
Definition transitionToCleanup : M unit :=
  upd (set_state CLEANUP) ;;
  log "info" "Transitioning to cleanup phase" ;;
  emit "cleanup-started" PNone ;;
  try_catch (performResourceCleanup Transition)
    (fun e => later 2 (JCatch Transition e)).

(** [size < maxConnections * 0.8].  For an integer maximum below 2^53 the
    double [maxConnections * 0.8] is the exact four fifths when that is an
    integer and is off every integer otherwise, so the test is
    [5 * size < 4 * maxConnections]. *)
Definition below_threshold (size : nat) (maxc : Z) : bool :=
  5 * Z.of_nat size <? 4 * maxc.

(** [removeConnection(connectionId)] *)
Definition removeConnection (connectionId : ConnId) : M unit :=
  found <- gets (fun w => JsMap.get connid_eqb connectionId (activeConnections (this w))) ;;
  match found with
  | Some connectionInfo =>
      match ci_timeout connectionInfo with
      | Some t => clearTimeout t
      | None => ret tt
      end ;;
      upd (fun c =>
             set_activeConnections
               (JsMap.delete connid_eqb connectionId (activeConnections c)) c) ;;
      upd (fun c =>
             if below_threshold (JsMap.size (activeConnections c))
                  (maxConnections (config c))
             then set_maxConnectionsReached false c else c) ;;
      log "debug" "Connection removed" ;;
      emit "connection-removed" (PConnection connectionInfo) ;;
      st <- gets (fun w => state (this w)) ;;
      sz <- gets connectionCount ;;
      when (state_eqb st DRAINING && Nat.eqb sz 0)
        (log "info" "All connections drained successfully" ;;
         transitionToCleanup)
  | None => ret tt
  end.

(** [handleConnectionTimeout(connectionId)] *)
Definition handleConnectionTimeout (connectionId : ConnId) : M unit :=
  found <- gets (fun w => JsMap.get connid_eqb connectionId (activeConnections (this w))) ;;
  match found with
  | Some connectionInfo =>
      log "warn" "Connection timeout, forcing close" ;;
      destroy (ci_socket connectionInfo) ;;
      removeConnection connectionId ;;
      emit "connection-timeout" (PConnection connectionInfo)
  | None => ret tt
  end.

(** [generateConnectionId()] *)
Definition generateConnectionId : M ConnId :=
  upd (fun c => set_connectionCounter (S (connectionCounter c)) c) ;;
  gets (fun w => (now w, connectionCounter (this w))).

Definition with_timeout (t : TimerId) (i : ConnectionInfo) : ConnectionInfo :=
  {| ci_id := ci_id i; ci_socket := ci_socket i; ci_startTime := ci_startTime i;
     ci_remoteAddress := ci_remoteAddress i; ci_remotePort := ci_remotePort i;
     ci_requestCount := ci_requestCount i; ci_lastActivity := ci_lastActivity i;
     ci_timeout := Some t |}.

(** The listener that [setupConnectionTracking] puts on the 'connection'
    event of the server, in its two parts.

    "Check connection limits": the result is [true] when the socket was
    turned away (the [return] of the listener). *)
Definition checkConnectionLimits (socket : Socket) : M bool :=
  sz <- gets connectionCount ;;
  maxc <- gets (fun w => maxConnections (config (this w))) ;;
  if maxc <=? Z.of_nat sz then
    reached <- gets (fun w => maxConnectionsReached (this w)) ;;
    when (negb reached)
      (log "warn" "Maximum connections reached" ;;
       upd (set_maxConnectionsReached true)) ;;
    st <- gets (fun w => state (this w)) ;;
    if state_eqb st ACTIVE then destroy socket ;; ret true
    else ret false
  else ret false.

(** "Create connection metadata" to the end of the listener. *)
Definition trackConnection (connectionId : ConnId) (socket : Socket) : M unit :=
  t0 <- gets now ;;
  let connectionInfo :=
    {| ci_id := connectionId; ci_socket := socket; ci_startTime := t0;
       ci_remoteAddress := sock_remoteAddress socket;
       ci_remotePort := sock_remotePort socket;
       ci_requestCount := 0; ci_lastActivity := t0; ci_timeout := None |} in
  upd (fun c =>
         set_activeConnections
           (JsMap.set connid_eqb connectionId connectionInfo (activeConnections c)) c) ;;
  ms <- gets (fun w => connectionTimeoutMs (config (this w))) ;;
  connectionTimeout <- setTimeout (TConnectionTimeout connectionId) ms ;;
  (* [connectionInfo.timeout = connectionTimeout] changes the object that
     is in the map *)
  let connectionInfo := with_timeout connectionTimeout connectionInfo in
  upd (fun c =>
         set_activeConnections
           (JsMap.set connid_eqb connectionId connectionInfo (activeConnections c)) c) ;;
  modify (fun w =>
            set_socketHandlers
              (socketHandlers w ++ [(sock_handle socket, connectionId)]) w) ;;
  log "debug" "Connection registered" ;;
  emit "connection-registered" (PConnection connectionInfo).

Definition onConnection (socket : Socket) : M unit :=
  connectionId <- generateConnectionId ;;
  rejected <- checkConnectionLimits socket ;;
  if rejected : bool then ret tt
  else trackConnection connectionId socket.

Definition handlers_of (s : nat) (w : World) : list ConnId :=
  map snd (filter (fun h => Nat.eqb (fst h) s) (socketHandlers w)).

(** The listeners put on a tracked socket. *)
Definition onSocketClose (s : nat) : M unit :=
  ids <- gets (handlers_of s) ;;
  forEach removeConnection ids.

Definition onSocketError (s : nat) : M unit :=
  ids <- gets (handlers_of s) ;;
  forEach (fun id => log "warn" "Connection error" ;; removeConnection id) ids.

Definition touch (t : Z) (i : ConnectionInfo) : ConnectionInfo :=
  {| ci_id := ci_id i; ci_socket := ci_socket i; ci_startTime := ci_startTime i;
     ci_remoteAddress := ci_remoteAddress i; ci_remotePort := ci_remotePort i;
     ci_requestCount := S (ci_requestCount i); ci_lastActivity := t;
     ci_timeout := ci_timeout i |}.

Definition onSocketData (s : nat) : M unit :=
  ids <- gets (handlers_of s) ;;
  forEach
    (fun id =>
       found <- gets (fun w => JsMap.get connid_eqb id (activeConnections (this w))) ;;
       match found with
       | Some conn =>
           t <- gets now ;;
           upd (fun c =>
                  set_activeConnections
                    (JsMap.set connid_eqb id (touch t conn) (activeConnections c)) c)
       | None => ret tt
       end)
    ids.

(** ** The shutdown sequence *)

Definition settle_stop (p : StopPromise) : StopPromise :=
  {| sp_server := sp_server p; sp_ctx := sp_ctx p;
     sp_called := sp_called p; sp_settled := true |}.

Definition call_stop (p : StopPromise) : StopPromise :=
  {| sp_server := sp_server p; sp_ctx := sp_ctx p;
     sp_called := true; sp_settled := sp_settled p |}.

(** Stop promise [i] settles, if it has not yet: [j] is what then runs,
    after [n] jobs. *)
Definition settle_stop_with (i : nat) (n : nat) (j : Ctx -> Job) : M unit :=
  p <- gets (fun w => nth_error (stops w) i) ;;
  match p with
  | Some p =>
      if sp_settled p then ret tt
      else modify (fun w => set_stops (update_nth i settle_stop (stops w)) w) ;;
           later n (j (sp_ctx p))
  | None => ret tt
  end.

(** [server.close(callback)]: the callback is kept by the server. *)
Definition server_close (srv : ServerObj) : M unit :=
  effect (EServerClose (srv_id srv)) ;;
  match srv_close_fault srv with
  | Some e => throw e
  | None => ret tt
  end.

(** [stopAcceptingConnections()]: the executor of its promise runs at
    once; a throw inside the executor rejects the promise. *)
Definition stopAcceptingConnections (ctx : Ctx) : M unit :=
  srv <- gets (fun w => server (this w)) ;;
  match srv with
  | None => later 2 (JAfterStop ctx)
  | Some srv =>
      i <- gets (fun w => List.length (stops w)) ;;
      modify (fun w =>
                set_stops
                  (stops w ++ [{| sp_server := srv_id srv; sp_ctx := ctx;
                                  sp_called := false; sp_settled := false |}]) w) ;;
      try_catch
        (log "info" "Stopping server from accepting new connections" ;;
         server_close srv ;;
         emit "server-closed" PNone)
        (fun e => settle_stop_with i 3 (fun ctx => JCatch (Main ctx) e))
  end.

(** The callback given to [server.close], for stop promise [i]. *)
Definition serverCloseCallback (error : option JsError) (i : nat) : M unit :=
  p <- gets (fun w => nth_error (stops w) i) ;;
  match p with
  | Some p =>
      if sp_called p then ret tt
      else
        modify (fun w => set_stops (update_nth i call_stop (stops w)) w) ;;
        match error with
        | Some e => log "warn" "Error closing server" ;; push_error e
        | None => log "info" "Server stopped accepting new connections"
        end ;;
        settle_stop_with i 1 JAfterStop
  | None => ret tt
  end.

(** The server has closed (or failed to): it calls every callback it was
    given. *)
Definition onServerClosed (srv : nat) (error : option JsError) : M unit :=
  ps <- gets stops ;;
  forEach
    (fun i =>
       match nth_error ps i with
       | Some p => when (Nat.eqb (sp_server p) srv) (serverCloseCallback error i)
       | None => ret tt
       end)
    (seq 0 (List.length ps)).

(** [drainConnections()] *)
Definition drainConnections (ctx : Ctx) : M unit :=
  sz <- gets connectionCount ;;
  if Nat.eqb sz 0 then
    log "info" "No active connections to drain" ;;
    enqueue (JAfterDrain ctx)
  else
    log "info" "Starting connection draining" ;;
    upd (set_state DRAINING) ;;
    emit "draining-started" (PCount sz) ;;
    ms <- gets (fun w => gracePeriodMs (config (this w))) ;;
    d <- gets (fun w => List.length (drains w)) ;;
    graceTimeout <- setTimeout (TGrace d) ms ;;
    upd (fun c => set_timers (JsSet.add graceTimeout (timers c)) c) ;;
    modify (fun w =>
              set_drains
                (drains w ++ [{| dp_timer := graceTimeout; dp_ctx := ctx;
                                 dp_resolved := false |}]) w) ;;
    checkConnections d.

(** The grace timer of drain promise [d] fires. *)
Definition onGraceTimeout (d : nat) : M unit :=
  log "warn" "Grace period expired, forcing connection termination" ;;
  forceCloseConnections ;;
  resolve_drain d.

Definition is_some {A} (o : option A) : bool :=
  match o with Some _ => true | None => false end.

(** The exit code chosen by [completeShutdown]. *)
Definition exitCode_of (error : option JsError) (errors : list JsError) : Z :=
  if is_some error || Nat.ltb 0 (List.length errors) then
    if existsb (fun err => streq (err_name err) "TimeoutError") errors
    then EXIT_CODES.TIMEOUT
    else EXIT_CODES.RESOURCE_CLEANUP_FAILED
  else EXIT_CODES.GRACEFUL.

(** [this.shutdownStartTime ? Date.now() - this.shutdownStartTime : 0] *)
Definition duration_since (start : option Z) (t : Z) : Z :=
  match start with
  | Some t0 => if t0 =? 0 then 0 else t - t0
  | None => 0
  end.

(** [completeShutdown(signal = 'UNKNOWN', error = null)] *)
Definition completeShutdown (signal : string) (error : option JsError) : M unit :=
  upd (set_state TERMINATION) ;;
  start <- gets (fun w => shutdownStartTime (this w)) ;;
  t <- gets now ;;
  errors <- gets (fun w => shutdownErrors (this w)) ;;
  sz <- gets connectionCount ;;
  let shutdownSummary :=
    {| sum_signal := signal; sum_duration := duration_since start t;
       sum_errorsEncountered := List.length errors;
       sum_finalConnectionCount := sz |} in
  let exitCode := exitCode_of error errors in
  log "info" "Graceful shutdown completed" ;;
  emit "shutdown-completed" (PSummary shutdownSummary exitCode) ;;
  process_exit exitCode.

(** [forceShutdown(exitCode)] *)
Definition forceShutdown (exitCode : Z) : M unit :=
  log "warn" "Forcing immediate shutdown" ;;
  forceCloseConnections ;;
  ts <- gets (fun w => timers (this w)) ;;
  forEach clearTimeout ts ;;
  ivs <- gets (fun w => intervals (this w)) ;;
  forEach clearInterval ivs ;;
  emit "force-shutdown" (PExitCode exitCode) ;;
  _ <- setTimeout (TForceExit exitCode) 100 ;;
  ret tt.

(** [executeShutdownSequence(signal, error)], up to its first [await]. *)
Definition executeShutdownSequence (ctx : Ctx) : M unit :=
  stopAcceptingConnections ctx.

(** The [catch] block of [handleSignal]. *)
Definition handleSignal_catch (shutdownError : JsError) : M unit :=
  log "error" "Error during graceful shutdown" ;;
  push_error shutdownError ;;
  forceShutdown EXIT_CODES.SIGNAL_ERROR.

(** [handleSignal(signal, error = null)], up to its [await]. *)
Definition handleSignal (signal : string) (error : option JsError) : M unit :=
  initiated <- gets (fun w => shutdownInitiated (this w)) ;;
  if initiated : bool then
    log "warn" ("Received " +++ signal +++ " signal during shutdown, ignoring")
  else
    log "info" ("Received " +++ signal +++ " signal, initiating graceful shutdown") ;;
    upd (set_shutdownInitiated true) ;;
    t <- gets now ;;
    upd (set_shutdownStartTime (Some t)) ;;
    upd (set_state SHUTDOWN_PENDING) ;;
    try_catch
      (emit "shutdown-initiated" (PTrigger signal error) ;;
       executeShutdownSequence {| ctx_signal := signal; ctx_error := error |})
      handleSignal_catch.

(** The [.catch] of the chain built by [transitionToCleanup]. *)
Definition transition_catch (error : JsError) : M unit :=
  log "error" "Error during cleanup phase" ;;
  forceShutdown EXIT_CODES.RESOURCE_CLEANUP_FAILED.

(** ** Promise jobs *)

Fixpoint job_chain (j : Job) : Chain :=
  match j with
  | JAfterStop ctx | JAfterDrain ctx => Main ctx
  | JWrapperCatch ch _ _ | JCleanupResume ch | JAfterCleanup ch | JCallbacksResume ch
  | JAfterCallbacks ch | JCatch ch _ => ch
  | JTick _ j => job_chain j
  end.

Definition job_body (j : Job) : M unit :=
  match j with
  | JAfterStop ctx => drainConnections ctx
  | JAfterDrain ctx => performResourceCleanup (Main ctx)
  | JWrapperCatch _ message e => callback_failed message e
  | JCleanupResume ch => performResourceCleanup_resume ch
  | JAfterCleanup ch => executeShutdownCallbacks ch
  | JCallbacksResume ch => executeShutdownCallbacks_resume ch
  | JAfterCallbacks (Main ctx) => completeShutdown (ctx_signal ctx) (ctx_error ctx)
  | JAfterCallbacks Transition => completeShutdown "UNKNOWN" None
  | JCatch (Main _) e => handleSignal_catch e
  | JCatch Transition e => transition_catch e
  | JTick n j => later n j
  end.

(** The jobs between a throw in job [j] and the [catch] of its chain.  In
    the Main chain the rejection passes the [await] of
    [executeShutdownSequence] (unless the throw is in that function itself)
    and the [await] of [handleSignal]; in the Transition chain it passes
    the [.then]s that follow. *)
Definition catch_after (j : Job) : nat :=
  match j with
  | JAfterCallbacks _ => 0
  | JCleanupResume Transition | JCallbacksResume Transition => 2
  | JAfterCleanup Transition => 3
  | _ => 1
  end%nat.

(** A job runs.  A throw in the code of a chain rejects the promise the
    chain waits on and reaches its [catch]; a throw in the [catch] itself
    rejects a promise that nobody awaits.  The [catch] of a wrapper logs
    and records, and nothing in it throws. *)
Definition run_job (j : Job) : M unit :=
  match j with
  | JCatch _ _ => detached (job_body j)
  | JWrapperCatch _ _ _ => job_body j
  | _ => try_catch (job_body j) (fun e => later (catch_after j) (JCatch (job_chain j) e))
  end.

(** ** Registration of the server and of the triggers *)

(** [setupConnectionTracking(server)] *)
Definition setupConnectionTracking (srv : ServerObj) : M unit :=
  modify (fun w => set_connectionListeners (connectionListeners w ++ [srv_id srv]) w) ;;
  effect (EServerOn (srv_id srv)).

(** [setupSignalHandlers()]; a handler is named by its signal. *)
Definition setupSignalHandlers : M unit :=
  forEach
    (fun signal =>
       upd (fun c =>
              set_signalHandlers (JsMap.set streq signal signal (signalHandlers c)) c) ;;
       process_on signal ;;
       log "debug" ("Signal handler registered for " +++ signal))
    ["SIGTERM"; "SIGINT"; "SIGUSR2"] ;;
  process_on "uncaughtException" ;;
  process_on "unhandledRejection".

(** [registerServer(server)] *)
Definition registerServer (arg : ServerArg) : M unit :=
  match arg with
  | ArgFalsy => throw (mkError "Invalid server instance provided")
  | ArgObject srv =>
      if negb (srv_close_is_function srv)
      then throw (mkError "Invalid server instance provided")
      else
        registered <- gets (fun w => server (this w)) ;;
        match registered with
        | Some _ =>
            throw (mkError "Server already registered with shutdown coordinator")
        | None =>
            upd (set_server (Some srv)) ;;
            setupConnectionTracking srv ;;
            setupSignalHandlers ;;
            log "info" "Server registered for shutdown coordination" ;;
            emit "server-registered" (PServer (srv_id srv))
        end
  end.

(** The listeners that [setupSignalHandlers] puts on the process. *)
Definition onSignal (signal : string) : M unit :=
  detached (handleSignal signal None).

Definition onUncaughtException (error : JsError) : M unit :=
  log "error" "Uncaught exception, initiating emergency shutdown" ;;
  detached (handleSignal "UNCAUGHT_EXCEPTION" (Some error)).

Definition onUnhandledRejection (reason : JsError) : M unit :=
  log "error" "Unhandled promise rejection, initiating emergency shutdown" ;;
  detached (handleSignal "UNHANDLED_REJECTION" (Some reason)).

(** ** The rest of the public interface *)

(** [onShutdown(callback)]; [None] is an argument that is no function. *)
Definition onShutdown (callback : option Callback) : M unit :=
  match callback with
  | None => throw (mkError "Shutdown callback must be a function")
  | Some cb =>
      upd (fun c => set_shutdownCallbacks (shutdownCallbacks c ++ [cb]) c) ;;
      log "debug" "Shutdown callback registered"
  end.

(** [onResourceCleanup(callback)] *)
Definition onResourceCleanup (callback : option Callback) : M unit :=
  match callback with
  | None => throw (mkError "Resource cleanup callback must be a function")
  | Some cb =>
      upd (fun c =>
             set_resourceCleanupCallbacks (resourceCleanupCallbacks c ++ [cb]) c) ;;
      log "debug" "Resource cleanup callback registered"
  end.

(** [trackTimer(timer)], [trackInterval(interval)] *)
Definition trackTimer (timer : TimerId) : M TimerId :=
  upd (fun c => set_timers (JsSet.add timer (timers c)) c) ;;
  ret timer.

Definition trackInterval (interval : TimerId) : M TimerId :=
  upd (fun c => set_intervals (JsSet.add interval (intervals c)) c) ;;
  ret interval.

(** [trackEventListener(target, event, handler)] *)
Definition trackEventListener (target : Target) (event : string) (handler : nat)
  : M nat :=
  known <- gets (fun w => JsMap.has Nat.eqb (tgt_id target) (eventListeners (this w))) ;;
  when (negb known)
    (upd (fun c =>
            set_eventListeners
              (JsMap.set Nat.eqb (tgt_id target) (target, []) (eventListeners c)) c)) ;;
  upd (fun c =>
         match JsMap.get Nat.eqb (tgt_id target) (eventListeners c) with
         | Some (tg, listeners) =>
             set_eventListeners
               (JsMap.set Nat.eqb (tgt_id target)
                  (tg, listeners ++ [{| reg_event := event; reg_handler := handler |}])
                  (eventListeners c)) c
         | None => c
         end) ;;
  effect (ETargetOn (tgt_id target) event handler) ;;
  ret handler.

(** [shutdown(reason = 'PROGRAMMATIC')] *)
Definition shutdown (reason : option string) : M unit :=
  let reason := or_default reason "PROGRAMMATIC" in
  log "info" "Programmatic shutdown requested" ;;
  handleSignal reason None.

(** [getStatus()], without the two figures read from the host. *)
Record Status := {
  st_state : ShutdownState;
  st_shutdownInitiated : bool;
  st_activeConnections : nat;
  st_trackedTimers : nat;
  st_trackedIntervals : nat;
  st_trackedListeners : nat;
  st_shutdownCallbacks : nat;
  st_resourceCleanupCallbacks : nat;
  st_shutdownErrors : nat
}.

Definition getStatus (w : World) : Status :=
  let c := this w in
  {| st_state := state c;
     st_shutdownInitiated := shutdownInitiated c;
     st_activeConnections := JsMap.size (activeConnections c);
     st_trackedTimers := JsSet.size (timers c);
     st_trackedIntervals := JsSet.size (intervals c);
     st_trackedListeners := JsMap.size (eventListeners c);
     st_shutdownCallbacks := List.length (shutdownCallbacks c);
     st_resourceCleanupCallbacks := List.length (resourceCleanupCallbacks c);
     st_shutdownErrors := List.length (shutdownErrors c) |}.

(** [getConnectionDetails()].  [Date.now()] is read twice for every
    entry, first for [duration], then for [timeSinceLastActivity], and the
    clock may move between two readings: [clock k] is what the reading
    number [k] of the call returns. *)
Record ConnectionDetails := {
  cd_id : ConnId;
  cd_startTime : Z;
  cd_duration : Z;
  cd_remoteAddress : string;
  cd_remotePort : Z;
  cd_requestCount : nat;
  cd_lastActivity : Z;
  cd_timeSinceLastActivity : Z
}.

Fixpoint connection_details (clock : nat -> Z) (k : nat) (conns : list ConnectionInfo)
  : list ConnectionDetails :=
  match conns with
  | [] => []
  | conn :: rest =>
      {| cd_id := ci_id conn;
         cd_startTime := ci_startTime conn;
         cd_duration := clock k - ci_startTime conn;
         cd_remoteAddress := ci_remoteAddress conn;
         cd_remotePort := ci_remotePort conn;
         cd_requestCount := ci_requestCount conn;
         cd_lastActivity := ci_lastActivity conn;
         cd_timeSinceLastActivity := clock (S k) - ci_lastActivity conn |}
      :: connection_details clock (S (S k)) rest
  end.

Definition getConnectionDetails (clock : nat -> Z) (w : World)
  : list ConnectionDetails :=
  connection_details clock 0 (JsMap.values (activeConnections (this w))).

(** [new ShutdownCoordinator(options)], in a process whose clock shows
    [t0] and whose host will attach the listeners [listeners]. *)
Definition new_ShutdownCoordinator
    (t0 : Z) (listeners : string -> option JsError) (options : Options) : World :=
  let c :=
    {| config := merge_config options;
       state := ACTIVE;
       shutdownInitiated := false;
       shutdownStartTime := None;
       activeConnections := [];
       connectionCounter := 0;
       maxConnectionsReached := false;
       timers := [];
       intervals := [];
       eventListeners := [];
       server := None;
       shutdownCallbacks := [];
       resourceCleanupCallbacks := [];
       signalHandlers := [];
       shutdownErrors := [] |} in
  let w :=
    {| this := c; now := t0; nextTimer := 0%nat; pendingTimers := [];
       jobs := []; rejections := []; trace := []; halted := None;
       stops := []; drains := []; socketHandlers := [];
       connectionListeners := []; processListeners := [];
       userListeners := listeners |} in
  fst (log "info" "Shutdown coordinator initialized" w).

(** ** The host loop *)

(** What the host delivers to the coordinator. *)
Inductive Event :=
(* calls of the public interface, made by the host program *)
| CallRegisterServer (arg : ServerArg)
| CallOnShutdown (callback : option Callback)
| CallOnResourceCleanup (callback : option Callback)
| CallTrackTimer                      (* trackTimer(setTimeout(...)) *)
| CallTrackInterval                   (* trackInterval(setInterval(...)) *)
| CallTrackEventListener (target : Target) (event : string) (handler : nat)
| CallShutdown (reason : option string)
(* events of the server and of the sockets *)
| ServerConnection (srv : nat) (socket : Socket)
| ServerClosed (srv : nat) (error : option JsError)
| SocketClose (s : nat)
| SocketError (s : nat)
| SocketData (s : nat)
(* events of the process *)
| Signal (signal : string)
| UncaughtException (error : JsError)
| UnhandledRejection (reason : JsError)
(* nothing but the passing of time *)
| Idle.

(** A timer of the host program itself: it does nothing to the
    coordinator. *)
Definition host_timer : M TimerId :=
  t <- gets nextTimer ;;
  modify (set_nextTimer (S t)) ;;
  ret t.

Definition count_of (s : string) (l : list string) : nat :=
  List.length (filter (streq s) l).

(** A call of the host program: what it throws goes back to the caller. *)
Definition called (m : M unit) : M unit :=
  try_catch m (fun e => effect (EThrown e)).

Definition dispatch (ev : Event) : M unit :=
  match ev with
  | CallRegisterServer arg => called (registerServer arg)
  | CallOnShutdown cb => called (onShutdown cb)
  | CallOnResourceCleanup cb => called (onResourceCleanup cb)
  | CallTrackTimer => t <- host_timer ;; _ <- trackTimer t ;; ret tt
  | CallTrackInterval => t <- host_timer ;; _ <- trackInterval t ;; ret tt
  | CallTrackEventListener target event handler =>
      _ <- trackEventListener target event handler ;; ret tt
  | CallShutdown reason => detached (shutdown reason)
  | ServerConnection srv socket =>
      ls <- gets connectionListeners ;;
      forEach (fun _ => onConnection socket) (filter (Nat.eqb srv) ls)
  | ServerClosed srv error => onServerClosed srv error
  | SocketClose s => onSocketClose s
  | SocketError s => onSocketError s
  | SocketData s => onSocketData s
  | Signal signal =>
      ls <- gets processListeners ;;
      forEach (fun _ => onSignal signal) (filter (streq signal) ls)
  | UncaughtException error =>
      ls <- gets processListeners ;;
      forEach (fun _ => onUncaughtException error) (filter (streq "uncaughtException") ls)
  | UnhandledRejection reason =>
      ls <- gets processListeners ;;
      forEach (fun _ => onUnhandledRejection reason)
        (filter (streq "unhandledRejection") ls)
  | Idle => ret tt
  end.

Definition fire (a : TimerAction) : M unit :=
  match a with
  | TConnectionTimeout id => handleConnectionTimeout id
  | TGrace d => onGraceTimeout d
  | TForceExit code => process_exit code
  end.

Definition is_halted (w : World) : bool := is_some (halted w).

Definition crash (e : JsError) (w : World) : World :=
  set_halted (Some (Crashed e)) w.

(** A fault that left a listener or a timer callback. *)
Definition uncaught (e : JsError) (w : World) : World :=
  if Nat.eqb (count_of "uncaughtException" (processListeners w)) 0
  then crash e w
  else fst (onUncaughtException e w).

(** A rejection that nobody handled. *)
Definition unhandled (e : JsError) (w : World) : World :=
  if Nat.eqb (count_of "unhandledRejection" (processListeners w)) 0
  then crash e w
  else fst (onUnhandledRejection e w).

(** The promise jobs run until none is left, then the rejections that
    nobody handled are reported, which may queue jobs again. *)
Fixpoint settle (fuel : nat) (w : World) : World :=
  match fuel with
  | O => w
  | S fuel' =>
      if is_halted w then w
      else
        match jobs w with
        | j :: js => settle fuel' (fst (run_job j (set_jobs js w)))
        | [] =>
            match rejections w with
            | e :: es => settle fuel' (unhandled e (set_rejections es w))
            | [] => w
            end
        end
  end.

(** One turn of the event loop: a listener or a timer callback runs to its
    end, then the jobs. *)
Definition turn (fuel : nat) (m : M unit) (w : World) : World :=
  if is_halted w then w
  else
    match m w with
    | (w', Throw e) => settle fuel (uncaught e w')
    | (w', _) => settle fuel w'
    end.

(** The pending timer that is due first at time [t], if any. *)
Fixpoint next_due (t : Z) (l : list PendingTimer) : option PendingTimer :=
  match l with
  | [] => None
  | p :: r =>
      match next_due t r with
      | Some q =>
          if (pt_deadline p <=? t) && (pt_deadline p <=? pt_deadline q)
          then Some p else Some q
      | None => if pt_deadline p <=? t then Some p else None
      end
  end.

(** The clock moves to [t]; the timers due by then fire in order. *)
Fixpoint advance (fuel : nat) (t : Z) (w : World) : World :=
  match fuel with
  | O => w
  | S fuel' =>
      if is_halted w then w
      else
        match next_due t (pendingTimers w) with
        | Some p =>
            let w1 := set_pendingTimers (cancel (pt_id p) (pendingTimers w)) w in
            let w2 := set_now (Z.max (now w1) (pt_deadline p)) w1 in
            advance fuel' t (turn fuel (fire (pt_action p)) w2)
        | None => w
        end
  end.

(** The event [ev] arrives at time [t]. *)
Definition step (fuel : nat) (w : World) (tev : Z * Event) : World :=
  let w1 := advance fuel (fst tev) w in
  if is_halted w1 then w1
  else turn fuel (dispatch (snd tev)) (set_now (Z.max (now w1) (fst tev)) w1).

Definition run (fuel : nat) (evs : list (Z * Event)) (w : World) : World :=
  fold_left (step fuel) evs w.

(** * Properties *)

Unset Implicit Arguments.

(** ** Judgements on methods

    [preserves I m]: whatever [m] does, and however it ends, it takes a
    world in [I] to a world in [I].  [finishes P m Q]: from a world in [P],
    [m] returns normally, in a world in [Q].  [contained I m]: from a world
    in [I], [m] returns or throws, in a world in [I]; the process does not
    exit under it. *)

Definition preserves {A} (I : World -> Prop) (m : M A) : Prop :=
  forall w, I w -> I (fst (m w)).

Definition finishes {A} (P : World -> Prop) (m : M A) (Q : World -> Prop) : Prop :=
  forall w, P w -> (exists a, snd (m w) = Normal a) /\ Q (fst (m w)).

Definition contained {A} (I : World -> Prop) (m : M A) : Prop :=
  forall w, I w -> snd (m w) <> Halt /\ I (fst (m w)).

(** ** The part of the world the invariants speak about *)

Record Core := {
  c_config : Config;
  c_state : ShutdownState;
  c_initiated : bool;
  c_connections : JsMap.t ConnId ConnectionInfo;
  c_counter : nat;
  c_server : option ServerObj
}.

Definition core (w : World) : Core :=
  {| c_config := config (this w);
     c_state := state (this w);
     c_initiated := shutdownInitiated (this w);
     c_connections := activeConnections (this w);
     c_counter := connectionCounter (this w);
     c_server := server (this w) |}.

(** [frame m]: [m] leaves that part alone. *)
Definition frame {A} (m : M A) : Prop :=
  forall c, preserves (fun w => core w = c) m.

(** Every change the methods make to [config], [state],
    [shutdownInitiated], [activeConnections], [connectionCounter] and
    [server] is one of the steps of [core_step]; [reach] is any number of
    them. *)
Definition with_state (s : ShutdownState) (c : Core) : Core :=
  {| c_config := c_config c; c_state := s; c_initiated := c_initiated c;
     c_connections := c_connections c; c_counter := c_counter c;
     c_server := c_server c |}.

Definition with_initiated (b : bool) (c : Core) : Core :=
  {| c_config := c_config c; c_state := c_state c; c_initiated := b;
     c_connections := c_connections c; c_counter := c_counter c;
     c_server := c_server c |}.

Definition with_connections (m : JsMap.t ConnId ConnectionInfo) (c : Core) : Core :=
  {| c_config := c_config c; c_state := c_state c; c_initiated := c_initiated c;
     c_connections := m; c_counter := c_counter c; c_server := c_server c |}.

Definition with_counter (n : nat) (c : Core) : Core :=
  {| c_config := c_config c; c_state := c_state c; c_initiated := c_initiated c;
     c_connections := c_connections c; c_counter := n; c_server := c_server c |}.

Definition with_server (s : option ServerObj) (c : Core) : Core :=
  {| c_config := c_config c; c_state := c_state c; c_initiated := c_initiated c;
     c_connections := c_connections c; c_counter := c_counter c; c_server := s |}.

Inductive core_step : Core -> Core -> Prop :=
| cs_state c s :
    s <> ACTIVE -> core_step c (with_state s c)
| cs_initiated c :
    core_step c (with_initiated true c)
| cs_counter c :
    core_step c (with_counter (S (c_counter c)) c)
| cs_delete c id :
    core_step c (with_connections (JsMap.delete connid_eqb id (c_connections c)) c)
| cs_clear c :
    core_step c (with_connections [] c)
| cs_accept c id info :
    (* a connection is tracked: below the maximum, or not in ACTIVE *)
    (Z.of_nat (JsMap.size (c_connections c)) < maxConnections (c_config c)
     \/ c_state c <> ACTIVE) ->
    (snd id <= c_counter c)%nat ->
    core_step c (with_connections (JsMap.set connid_eqb id info (c_connections c)) c)
| cs_update c id info :
    (* the record of a tracked connection changes *)
    JsMap.get connid_eqb id (c_connections c) <> None ->
    core_step c (with_connections (JsMap.set connid_eqb id info (c_connections c)) c)
| cs_server c srv :
    c_server c = None -> core_step c (with_server (Some srv) c).

Inductive reach : Core -> Core -> Prop :=
| reach_refl c : reach c c
| reach_step c1 c2 c3 : reach c1 c2 -> core_step c2 c3 -> reach c1 c3.

(** [safe m]: [m] changes that part by such steps only. *)
Definition safe {A} (m : M A) : Prop :=
  forall c, preserves (fun w => reach c (core w)) m.

(** In [ACTIVE] the registry is within the maximum. *)
Definition within_limit (c : Core) : Prop :=
  c_state c = ACTIVE ->
  Z.of_nat (JsMap.size (c_connections c)) <= maxConnections (c_config c).

(** The identifiers in the registry were generated: their counter part
    is at most [connectionCounter]. *)
Definition ids_generated (c : Core) : Prop :=
  forall id info,
    JsMap.get connid_eqb id (c_connections c) = Some info ->
    (snd id <= c_counter c)%nat.

(** ** Observations on the trace and on the state *)

(** How often an event was emitted. *)
Definition is_emit (ev : string) (e : Effect) : bool :=
  match e with
  | EEmit ev' _ => streq ev' ev
  | _ => false
  end.

Definition emitted (ev : string) (tr : list Effect) : nat :=
  List.length (filter (is_emit ev) tr).

(** How often a message was logged. *)
Definition is_log (message : string) (e : Effect) : bool :=
  match e with
  | ELog _ m _ => streq m message
  | _ => false
  end.

Definition logged (message : string) (tr : list Effect) : nat :=
  List.length (filter (is_log message) tr).

(** How often a callback was called. *)
Definition is_call (cb : nat) (e : Effect) : bool :=
  match e with
  | ECallback c => Nat.eqb c cb
  | _ => false
  end.

Definition calls (cb : nat) (tr : list Effect) : nat :=
  List.length (filter (is_call cb) tr).

(** A log entry written in state [st]. *)
Definition logged_in (st : ShutdownState) (e : Effect) : bool :=
  match e with
  | ELog _ _ s => state_eqb s st
  | _ => false
  end.

(** No pending timer has the handle [t]. *)
Definition timer_gone (t : TimerId) (w : World) : Prop :=
  forall p, In p (pendingTimers w) -> pt_id p <> t.

(** The handle sets of the resource tracker are empty. *)
Definition released (w : World) : Prop :=
  timers (this w) = [] /\ intervals (this w) = [] /\ eventListeners (this w) = [].

Definition timers_released (w : World) : Prop := timers (this w) = [].

Definition intervals_released (w : World) : Prop :=
  timers (this w) = [] /\ intervals (this w) = [].

(** The listeners of the two events of the forced path do not throw. *)
Definition quiet_forced (w : World) : Prop :=
  userListeners w "connections-force-closed" = None
  /\ userListeners w "force-shutdown" = None.

(** What the forced path leaves as it is. *)
Definition steady (w0 w : World) : Prop :=
  userListeners w = userListeners w0
  /\ now w = now w0
  /\ timers (this w) = timers (this w0)
  /\ intervals (this w) = intervals (this w0).

(** What the [catch] of [handleSignal] does with a fault [e]. *)
Definition forced_by (e : JsError) (w w' : World) : Prop :=
  In e (shutdownErrors (this w'))
  /\ In (ELog "warn" "Forcing immediate shutdown" (state (this w))) (trace w')
  /\ activeConnections (this w') = []
  /\ (forall ci, In ci (JsMap.values (activeConnections (this w))) ->
                 In (EDestroy (ci_socket ci)) (trace w'))
  /\ (quiet_forced w ->
      (forall t, In t (timers (this w)) -> In (EClearTimeout t) (trace w'))
      /\ (forall t, In t (intervals (this w)) -> In (EClearInterval t) (trace w'))
      /\ In (EEmit "force-shutdown" (PExitCode EXIT_CODES.SIGNAL_ERROR)) (trace w')
      /\ exists t, In {| pt_id := t; pt_deadline := now w + 100;
                         pt_action := TForceExit EXIT_CODES.SIGNAL_ERROR |}
                     (pendingTimers w')).

(** [!server || typeof server.close !== 'function'] *)
Definition invalid_server (arg : ServerArg) : bool :=
  match arg with
  | ArgFalsy => true
  | ArgObject o => negb (srv_close_is_function o)
  end.

Definition is_catch (j : Job) : bool :=
  match j with JCatch _ _ => true | _ => false end.

(** ** Parts of methods that the proofs name *)

(** What [removeConnection] does after it has found the record, cleared
    its timer and deleted it. *)
Definition removeConnection_rest (connectionInfo : ConnectionInfo) : M unit :=
  log "debug" "Connection removed" ;;
  emit "connection-removed" (PConnection connectionInfo) ;;
  st <- gets (fun w => state (this w)) ;;
  sz <- gets connectionCount ;;
  when (state_eqb st DRAINING && Nat.eqb sz 0)
    (log "info" "All connections drained successfully" ;;
     transitionToCleanup).

(** The world in which it does so. *)
Definition after_delete (id : ConnId) (info : ConnectionInfo) (w : World) : World :=
  let w1 :=
    match ci_timeout info with
    | Some t =>
        set_trace (trace w ++ [EClearTimeout t])
          (set_pendingTimers (cancel t (pendingTimers w)) w)
    | None => w
    end in
  let c := set_activeConnections
             (JsMap.delete connid_eqb id (activeConnections (this w1))) (this w1) in
  set_this
    (if below_threshold (JsMap.size (activeConnections c)) (maxConnections (config c))
     then set_maxConnectionsReached false c else c) w1.

(** The record that [trackConnection] makes. *)
Definition new_connectionInfo (id : ConnId) (s : Socket) (t0 : Z) : ConnectionInfo :=
  {| ci_id := id; ci_socket := s; ci_startTime := t0;
     ci_remoteAddress := sock_remoteAddress s;
     ci_remotePort := sock_remotePort s;
     ci_requestCount := 0; ci_lastActivity := t0; ci_timeout := None |}.

(** The body of the loop of [forceCloseConnections]. *)
Definition forceClose_one (connectionInfo : ConnectionInfo) : M unit :=
  try_catch
    (destroy (ci_socket connectionInfo) ;;
     log "debug" "Force closed connection")
    (fun e =>
       log "warn" "Error force closing connection" ;;
       push_error e).

(** ** Hosts, servers, sockets and runs used as examples *)

Definition quiet : string -> option JsError := fun _ => None.

Definition http_server : ServerObj :=
  {| srv_id := 1; srv_close_is_function := true;
     srv_constructor_name := "Server"; srv_close_fault := None |}.

Definition other_server : ServerObj :=
  {| srv_id := 2; srv_close_is_function := true;
     srv_constructor_name := "Server"; srv_close_fault := None |}.

Definition socket (n : nat) : Socket :=
  {| sock_handle := n; sock_remoteAddress := "127.0.0.1";
     sock_remotePort := 50000 + Z.of_nat n; sock_destroy_fault := None |}.

Definition grace (ms : Z) : Options :=
  {| opt_gracePeriodMs := Some ms; opt_forceTimeoutMs := None;
     opt_connectionTimeoutMs := None; opt_maxConnections := None;
     opt_logLevel := None |}.

Definition at_most (n : Z) : Options :=
  {| opt_gracePeriodMs := None; opt_forceTimeoutMs := None;
     opt_connectionTimeoutMs := None; opt_maxConnections := Some n;
     opt_logLevel := None |}.

Definition one_connection : World :=
  run 64 [(1, CallRegisterServer (ArgObject http_server));
          (2, ServerConnection 1 (socket 1))]
    (new_ShutdownCoordinator 0 quiet no_options).

Definition first_connection : ConnectionInfo :=
  {| ci_id := (2, 1%nat); ci_socket := socket 1; ci_startTime := 2;
     ci_remoteAddress := "127.0.0.1"; ci_remotePort := 50001;
     ci_requestCount := 0; ci_lastActivity := 2; ci_timeout := Some 0%nat |}.


(** A host program one of whose listeners, that of [event], throws. *)
Definition fault_on (event : string) : string -> option JsError :=
  fun ev => if streq ev event then Some (mkError "listener failed") else None.

Definition sigterm : Ctx := {| ctx_signal := "SIGTERM"; ctx_error := None |}.

Definition cleanup_cb : Callback := {| cb_id := 1; cb_behaviour := CbReturns |}.

Definition shutdown_cb : Callback := {| cb_id := 2; cb_behaviour := CbReturns |}.

(** One connection is open when SIGTERM arrives; the server closes; the
    connection ends 10 ms later, well within the grace period. *)
Definition last_connection_closes : list (Z * Event) :=
  [(0, CallRegisterServer (ArgObject http_server));
   (0, CallOnResourceCleanup (Some cleanup_cb));
   (0, CallOnShutdown (Some shutdown_cb));
   (1, ServerConnection 1 (socket 1));
   (1000, Signal "SIGTERM");
   (1000, ServerClosed 1 None);
   (1010, SocketClose 1)].

(** Three connections are open when SIGTERM arrives at 1000; the grace
    period is 100 ms; the connections end 10, 20 and 150 ms later. *)
Definition grace_period_expires : list (Z * Event) :=
  [(0, CallRegisterServer (ArgObject http_server));
   (1, ServerConnection 1 (socket 1));
   (1, ServerConnection 1 (socket 2));
   (1, ServerConnection 1 (socket 3));
   (1000, Signal "SIGTERM");
   (1000, ServerClosed 1 None);
   (1010, SocketClose 1);
   (1020, SocketClose 2);
   (1150, SocketClose 3)].

(** One connection is open when SIGTERM arrives at 1000 and stays open;
    the grace period is 100 ms; nothing else happens until 100000. *)
Definition connection_stays_open : list (Z * Event) :=
  [(0, CallRegisterServer (ArgObject http_server));
   (1, ServerConnection 1 (socket 1));
   (1000, Signal "SIGTERM");
   (1000, ServerClosed 1 None);
   (100000, Idle)].

(** One connection is open when SIGTERM arrives at 1000; it ends 10 ms
    later; nothing else happens until 100000. *)
Definition connection_closes_in_time : list (Z * Event) :=
  [(0, CallRegisterServer (ArgObject http_server));
   (1, ServerConnection 1 (socket 1));
   (1000, Signal "SIGTERM");
   (1000, ServerClosed 1 None);
   (1010, SocketClose 1);
   (100000, Idle)].

(** No connection is open when SIGTERM arrives. *)
Definition nothing_to_drain : list (Z * Event) :=
  [(0, CallRegisterServer (ArgObject http_server));
   (1000, Signal "SIGTERM");
   (1000, ServerClosed 1 None)].

(** ** Invariants of runs

    What the host does to the world between two pieces of code of the
    coordinator: the clock moves on, a job or a rejection leaves its
    queue, a timer that fires is no longer pending, a fault nobody handles
    ends the process. *)
Inductive host_move : World -> World -> Prop :=
| hm_clock w t : host_move w (set_now (Z.max (now w) t) w)
| hm_jobs w js : host_move w (set_jobs js w)
| hm_rejections w es : host_move w (set_rejections es w)
| hm_timer w t : host_move w (set_pendingTimers (cancel t (pendingTimers w)) w)
| hm_crash w e : host_move w (crash e w).

Definition host_stable (I : World -> Prop) : Prop :=
  forall w w', host_move w w' -> I w -> I w'.

(** The world in which the pending timer [p] fires. *)
Definition due (p : PendingTimer) (w : World) : World :=
  let w1 := set_pendingTimers (cancel (pt_id p) (pendingTimers w)) w in
  set_now (Z.max (now w1) (pt_deadline p)) w1.

(** The code of the coordinator that the host enters: the listeners
    ([dispatch], and the two listeners of the process that the host calls
    on a fault) and the promise jobs; with the timer callbacks,
    [all_methods]. *)
Definition reactions (I : World -> Prop) : Prop :=
  (forall ev, preserves I (dispatch ev))
  /\ (forall j, preserves I (run_job j))
  /\ (forall e, preserves I (onUncaughtException e))
  /\ (forall e, preserves I (onUnhandledRejection e)).

Definition all_methods (I : World -> Prop) : Prop :=
  reactions I /\ (forall a, preserves I (fire a)).

(** No debug entry has been written, under the log level [L]. *)
Definition is_debug (e : Effect) : bool :=
  match e with
  | ELog l _ _ => streq l "debug"
  | _ => false
  end.

Definition quiet_log (L : string) (w : World) : Prop :=
  logLevel (config (this w)) = L /\ existsb is_debug (trace w) = false.

(** The times of a record are in order at time [t]. *)
Definition in_order (t : Z) (kv : ConnId * ConnectionInfo) : Prop :=
  ci_startTime (snd kv) <= ci_lastActivity (snd kv) <= t.

Definition timestamps_ordered (w : World) : Prop :=
  Forall (in_order (now w)) (activeConnections (this w)).

(** [err.name === 'TimeoutError'] for some recorded error. *)
Definition timeout_recorded (w : World) : bool :=
  existsb (fun err => streq (err_name err) "TimeoutError") (shutdownErrors (this w)).

(** The statuses the process has exited with, and those of the forced
    exits that are pending. *)
Definition exits_listed (w : World) : Prop :=
  (forall c, halted w = Some (Exited c) ->
             In c [EXIT_CODES.GRACEFUL; EXIT_CODES.TIMEOUT;
                   EXIT_CODES.RESOURCE_CLEANUP_FAILED; EXIT_CODES.SIGNAL_ERROR])
  /\ (halted w = Some (Exited EXIT_CODES.TIMEOUT) -> timeout_recorded w = true)
  /\ (forall p c, In p (pendingTimers w) -> pt_action p = TForceExit c ->
                  c = EXIT_CODES.RESOURCE_CLEANUP_FAILED \/ c = EXIT_CODES.SIGNAL_ERROR).

(** How often [server.close] was called. *)
Definition is_server_close (e : Effect) : bool :=
  match e with
  | EServerClose _ => true
  | _ => false
  end.

Definition closes (tr : list Effect) : nat :=
  List.length (filter is_server_close tr).

(** The shutdown sequence was started at most once, and not at all as
    long as [shutdownInitiated] is false. *)
Definition started_once (w : World) : Prop :=
  (emitted "shutdown-initiated" (trace w) <= 1)%nat
  /\ (closes (trace w) <= 1)%nat
  /\ (shutdownInitiated (this w) = false ->
      emitted "shutdown-initiated" (trace w) = 0%nat /\ closes (trace w) = 0%nat).

(** The sequence has been started: 'shutdown-initiated' has gone out, and
    [server.close] was called at most [n] times. *)
Definition started (n : nat) (w : World) : Prop :=
  shutdownInitiated (this w) = true
  /\ emitted "shutdown-initiated" (trace w) = 1%nat
  /\ (closes (trace w) <= n)%nat.

(** What [handleSignal] has done when it has passed its guard. *)
Definition triggered (signal : string) (error : option JsError) (t : Z) (w : World)
  : Prop :=
  shutdownInitiated (this w) = true
  /\ state (this w) = SHUTDOWN_PENDING
  /\ shutdownStartTime (this w) = Some t
  /\ In (EEmit "shutdown-initiated" (PTrigger signal error)) (trace w).

(** ** Further observations *)

(** The faults of [socket.destroy()] for a list of connections, in
    order. *)
Definition destroy_faults (l : list ConnectionInfo) : list JsError :=
  flat_map
    (fun ci => match sock_destroy_fault (ci_socket ci) with
               | Some e => [e]
               | None => []
               end) l.

(** The callbacks called, in the order of the calls. *)
Definition callbacks_called (tr : list Effect) : list nat :=
  flat_map (fun e => match e with ECallback cb => [cb] | _ => [] end) tr.

(** The errors of the callbacks that throw at once, in order. *)
Fixpoint thrown_of (cbs : list Callback) : list JsError :=
  match cbs with
  | [] => []
  | cb :: r =>
      match cb_behaviour cb with
      | CbThrows e => e :: thrown_of r
      | _ => thrown_of r
      end
  end.

(** The job that runs when the passing on before it is done. *)
Fixpoint job_target (j : Job) : Job :=
  match j with
  | JTick _ j' => job_target j'
  | _ => j
  end.

(** The timer [t] was cleared and is no longer pending. *)
Definition cleared (t : TimerId) (w : World) : Prop :=
  In (EClearTimeout t) (trace w) /\ timer_gone t w.

(** What the resource cleanup leaves alone until it calls the
    callbacks. *)
Definition callbacks_pending (w0 w : World) : Prop :=
  callbacks_called (trace w) = callbacks_called (trace w0)
  /\ shutdownErrors (this w) = shutdownErrors (this w0)
  /\ resourceCleanupCallbacks (this w) = resourceCleanupCallbacks (this w0)
  /\ jobs w = jobs w0.

(** The listeners on the process and the handlers the coordinator
    remembers. *)
Definition process_signals (pl : list string) (sh : JsMap.t string string) (w : World)
  : Prop :=
  processListeners w = pl /\ signalHandlers (this w) = sh.

(** What [forceCloseConnections] leaves alone. *)
Definition drain_frame (w0 w : World) : Prop :=
  jobs w = jobs w0 /\ drains w = drains w0 /\ timers (this w) = timers (this w0)
  /\ state (this w) = state (this w0) /\ userListeners w = userListeners w0.

(** What [setupSignalHandlers] leaves alone. *)
Definition registration_frame (w0 w : World) : Prop :=
  server (this w) = server (this w0)
  /\ connectionListeners w = connectionListeners w0
  /\ userListeners w = userListeners w0.

(** ** Further examples *)

(** SIGTERM has arrived and [server.close] was called; the server has not
    reported back yet. *)
Definition stopping : World :=
  run 64 [(0, CallRegisterServer (ArgObject http_server));
          (1000, Signal "SIGTERM")]
    (new_ShutdownCoordinator 0 quiet no_options).

Definition first_stop : StopPromise :=
  {| sp_server := 1; sp_ctx := sigterm; sp_called := false; sp_settled := false |}.

(** One connection is open, the server has closed, the drain waits. *)
Definition draining : World :=
  run 64 [(0, CallRegisterServer (ArgObject http_server));
          (1, ServerConnection 1 (socket 1));
          (1000, Signal "SIGTERM");
          (1000, ServerClosed 1 None)]
    (new_ShutdownCoordinator 0 quiet (grace 100)).

Definition first_drain : DrainPromise :=
  {| dp_timer := 1%nat; dp_ctx := sigterm; dp_resolved := false |}.

(** The same, the registry emptied. *)
Definition drained : World :=
  set_this (set_activeConnections [] (this draining)) draining.

(** A registry that is full when SIGTERM arrives. *)
Definition full_at_shutdown : list (Z * Event) :=
  [(1, CallRegisterServer (ArgObject http_server));
   (2, ServerConnection 1 (socket 1));
   (9, Signal "SIGTERM")].

Definition cleanup_fault : string -> option JsError :=
  fun ev => if streq ev "cleanup-completed" then Some (mkError "listener failed")
            else None.

Definition data_target : Target := {| tgt_id := 7; tgt_remove_fault := None |}.

(** * Lemmas and theorems *)

(** ** Rules for [preserves] *)

Section Preserves.
Variable I : World -> Prop.

Lemma preserves_ret A (a : A) : preserves I (ret a).
Proof. intros w H. exact H. Qed.

Lemma preserves_throw A e : preserves I (@throw A e).
Proof. intros w H. exact H. Qed.

Lemma preserves_halt A : preserves I (@halt A).
Proof. intros w H. exact H. Qed.

Lemma preserves_gets A (f : World -> A) : preserves I (gets f).
Proof. intros w H. exact H. Qed.

Lemma preserves_modify f :
  (forall w, I w -> I (f w)) -> preserves I (modify f).
Proof. intros Hf w H. apply Hf, H. Qed.

Lemma preserves_bind A B (m : M A) (k : A -> M B) :
  preserves I m -> (forall a, preserves I (k a)) -> preserves I (bind m k).
Proof.
  intros Hm Hk w H. unfold bind.
  specialize (Hm w H). destruct (m w) as [w' [a | e | ]]; simpl in *; auto.
  apply Hk, Hm.
Qed.

Lemma preserves_try_catch A (m : M A) h :
  preserves I m -> (forall e, preserves I (h e)) -> preserves I (try_catch m h).
Proof.
  intros Hm Hh w H. unfold try_catch.
  specialize (Hm w H). destruct (m w) as [w' [a | e | ]]; simpl in *; auto.
  apply Hh, Hm.
Qed.

Lemma preserves_when b m : preserves I m -> preserves I (when b m).
Proof. destruct b; simpl; auto using preserves_ret. Qed.

Lemma preserves_forEach A (f : A -> M unit) l :
  (forall x, preserves I (f x)) -> preserves I (forEach f l).
Proof.
  intros Hf. induction l as [| x r IH]; simpl.
  - apply preserves_ret.
  - apply preserves_bind; auto.
Qed.
End Preserves.

(** Take a goal [preserves I m] apart along the shape of [m]; what is left
    are the updates of the world and the methods called. *)
(** A comparison of two string constants is decided first. *)
Ltac decide_streq :=
  match goal with
  | |- context [streq ?a ?b] =>
      let v := eval vm_compute in (streq a b) in
      match v with
      | true => change (streq a b) with true
      | false => change (streq a b) with false
      end; cbv iota
  end.

Ltac preserves_step :=
  match goal with
  | |- preserves _ (if streq _ _ then _ else _) => decide_streq
  | |- preserves _ (bind _ _) => apply preserves_bind; [| intros ?]
  | |- preserves _ (try_catch _ _) => apply preserves_try_catch; [| intros ?]
  | |- preserves _ (ret _) => apply preserves_ret
  | |- preserves _ (throw _) => apply preserves_throw
  | |- preserves _ halt => apply preserves_halt
  | |- preserves _ (gets _) => apply preserves_gets
  | |- preserves _ (when _ _) => apply preserves_when
  | |- preserves _ (forEach _ _) => apply preserves_forEach; intros ?
  | |- preserves _ (match ?x with _ => _ end) => destruct x
  | |- preserves _ (let (_, _) := ?x in _) => destruct x
  end.

(** ** Methods that leave [core] alone *)

Lemma frame_eq {A} {m : M A} w : frame m -> core (fst (m w)) = core w.
Proof. intros H. apply (H (core w) w eq_refl). Qed.

Lemma frame_preserves {A} {m : M A} (J : Core -> Prop) :
  frame m -> preserves (fun w => J (core w)) m.
Proof. intros H w Hw. rewrite (frame_eq w H). exact Hw. Qed.

Ltac frame_modify :=
  apply preserves_modify; intros ? <-;
  repeat match goal with
         | |- context [if ?b then _ else _] => destruct b
         | |- context [match ?x with _ => _ end] => destruct x
         end;
  reflexivity.

Create HintDb frames.

Ltac frame_auto :=
  intros;
  match goal with |- frame ?m => let h := fresh "c" in intro h end;
  repeat first
    [ preserves_step
    | solve [ match goal with
              | |- preserves (fun w => core w = ?c) ?m =>
                  let H := fresh in
                  assert (H : frame m) by (auto with frames); exact (H c)
              end ]
    | frame_modify ].

(** The methods that leave it alone. *)

Lemma frame_effect e : frame (effect e).
Proof. unfold effect. frame_auto. Qed.
#[export] Hint Resolve frame_effect : frames.

Lemma frame_log l m : frame (log l m).
Proof. unfold log. frame_auto. Qed.
#[export] Hint Resolve frame_log : frames.

Lemma frame_setTimeout a ms : frame (setTimeout a ms).
Proof. unfold setTimeout. frame_auto. Qed.

Lemma frame_clearTimeout t : frame (clearTimeout t).
Proof. unfold clearTimeout. frame_auto. Qed.

Lemma frame_clearInterval t : frame (clearInterval t).
Proof. unfold clearInterval. frame_auto. Qed.
#[export] Hint Resolve frame_setTimeout frame_clearTimeout frame_clearInterval : frames.

Lemma frame_destroy s : frame (destroy s).
Proof. unfold destroy. frame_auto. Qed.

Lemma frame_removeListener t r : frame (removeListener t r).
Proof. unfold removeListener. frame_auto. Qed.

Lemma frame_process_on e : frame (process_on e).
Proof. unfold process_on. frame_auto. Qed.

Lemma frame_process_removeListener e : frame (process_removeListener e).
Proof. unfold process_removeListener. frame_auto. Qed.

Lemma frame_enqueue j : frame (enqueue j).
Proof. unfold enqueue. frame_auto. Qed.

Lemma frame_later n j : frame (later n j).
Proof. unfold later. apply frame_enqueue. Qed.

Lemma frame_reject_unhandled e : frame (reject_unhandled e).
Proof. unfold reject_unhandled. frame_auto. Qed.

Lemma frame_push_error e : frame (push_error e).
Proof. unfold push_error, upd. frame_auto. Qed.
#[export] Hint Resolve frame_destroy frame_removeListener frame_process_on
  frame_process_removeListener frame_enqueue frame_later frame_reject_unhandled
  frame_push_error : frames.

Lemma frame_resolve_drain d : frame (resolve_drain d).
Proof. unfold resolve_drain. frame_auto. Qed.
#[export] Hint Resolve frame_resolve_drain : frames.

Lemma frame_checkConnections d : frame (checkConnections d).
Proof. unfold checkConnections, upd. frame_auto. Qed.
#[export] Hint Resolve frame_checkConnections : frames.

Lemma frame_emit ev p : frame (emit ev p).
Proof. unfold emit. frame_auto. Qed.
#[export] Hint Resolve frame_emit : frames.

Lemma frame_callback_failed m e : frame (callback_failed m e).
Proof. unfold callback_failed. frame_auto. Qed.
#[export] Hint Resolve frame_callback_failed : frames.

Lemma frame_call_callback ch m cb : frame (call_callback ch m cb).
Proof. unfold call_callback. frame_auto. Qed.
#[export] Hint Resolve frame_call_callback : frames.

Lemma frame_cleanup_failed e : frame (@cleanup_failed unit e).
Proof. unfold cleanup_failed. frame_auto. Qed.
#[export] Hint Resolve frame_cleanup_failed : frames.

Lemma frame_performResourceCleanup ch : frame (performResourceCleanup ch).
Proof. unfold performResourceCleanup, upd. frame_auto. Qed.

Lemma frame_performResourceCleanup_resume ch : frame (performResourceCleanup_resume ch).
Proof. unfold performResourceCleanup_resume. frame_auto. Qed.

Lemma frame_executeShutdownCallbacks ch : frame (executeShutdownCallbacks ch).
Proof. unfold executeShutdownCallbacks. frame_auto. Qed.

Lemma frame_executeShutdownCallbacks_resume ch : frame (executeShutdownCallbacks_resume ch).
Proof. unfold executeShutdownCallbacks_resume. frame_auto. Qed.

Lemma frame_settle_stop_with i n j : frame (settle_stop_with i n j).
Proof. unfold settle_stop_with. frame_auto. Qed.
#[export] Hint Resolve frame_settle_stop_with : frames.

Lemma frame_server_close srv : frame (server_close srv).
Proof. unfold server_close. frame_auto. Qed.
#[export] Hint Resolve frame_server_close : frames.

Lemma frame_stopAcceptingConnections ctx : frame (stopAcceptingConnections ctx).
Proof. unfold stopAcceptingConnections. frame_auto. Qed.

Lemma frame_serverCloseCallback e i : frame (serverCloseCallback e i).
Proof. unfold serverCloseCallback. frame_auto. Qed.
#[export] Hint Resolve frame_serverCloseCallback : frames.

Lemma frame_onServerClosed srv e : frame (onServerClosed srv e).
Proof. unfold onServerClosed. frame_auto. Qed.

Lemma frame_setupConnectionTracking srv : frame (setupConnectionTracking srv).
Proof. unfold setupConnectionTracking. frame_auto. Qed.

Lemma frame_setupSignalHandlers : frame setupSignalHandlers.
Proof. unfold setupSignalHandlers, upd. frame_auto. Qed.

Lemma frame_onShutdown cb : frame (onShutdown cb).
Proof. unfold onShutdown, upd. frame_auto. Qed.

Lemma frame_onResourceCleanup cb : frame (onResourceCleanup cb).
Proof. unfold onResourceCleanup, upd. frame_auto. Qed.

Lemma frame_trackTimer t : frame (trackTimer t).
Proof. unfold trackTimer, upd. frame_auto. Qed.

Lemma frame_trackInterval t : frame (trackInterval t).
Proof. unfold trackInterval, upd. frame_auto. Qed.

Lemma frame_trackEventListener t e h : frame (trackEventListener t e h).
Proof. unfold trackEventListener, upd. frame_auto. Qed.

Lemma frame_host_timer : frame host_timer.
Proof. unfold host_timer. frame_auto. Qed.

#[export] Hint Resolve frame_performResourceCleanup frame_performResourceCleanup_resume
  frame_executeShutdownCallbacks frame_executeShutdownCallbacks_resume
  frame_stopAcceptingConnections frame_onServerClosed frame_setupConnectionTracking
  frame_setupSignalHandlers frame_onShutdown frame_onResourceCleanup frame_trackTimer
  frame_trackInterval frame_trackEventListener frame_host_timer : frames.

(** ** Methods that change [core] by steps of [core_step] *)

Arguments cs_state c {s} _.

Arguments reach_step {c1} c2 {c3} _ _.

Lemma reach_trans {c1} c2 {c3} : reach c1 c2 -> reach c2 c3 -> reach c1 c3.
Proof.
  intros H12 H23. induction H23 as [| c2 c3 c4 _ IH Hs]; [exact H12 |].
  eapply reach_step; [apply IH, H12 | exact Hs].
Qed.

Lemma reach_one {c1 c2} : core_step c1 c2 -> reach c1 c2.
Proof. intros H. eapply reach_step; [apply reach_refl | exact H]. Qed.

Lemma frame_safe {A} {m : M A} : frame m -> safe m.
Proof. intros H c. apply (frame_preserves (fun c' => reach c c')), H. Qed.

Lemma safe_pointwise {A} {m : M A} :
  (forall w, reach (core w) (core (fst (m w)))) -> safe m.
Proof. intros H c w Hw. eapply reach_trans; [exact Hw | apply H]. Qed.

Lemma safe_reach {A} {m : M A} w : safe m -> reach (core w) (core (fst (m w))).
Proof. intros H. apply (H (core w) w), reach_refl. Qed.

Lemma safe_upd f :
  (forall w, core_step (core w) (core (set_this (f (this w)) w))) -> safe (upd f).
Proof.
  intros H. apply safe_pointwise. intros w. apply reach_one, H.
Qed.

Create HintDb safes.

Ltac safe_auto :=
  intros;
  match goal with |- safe ?m => let h := fresh "c" in intro h end;
  repeat first
    [ preserves_step
    | solve [ match goal with
              | |- preserves (fun w => reach ?c (core w)) ?m =>
                  let H := fresh in
                  assert (H : safe m) by (auto with safes); exact (H c)
              end ]
    | solve [ match goal with
              | |- preserves (fun w => reach ?c (core w)) ?m =>
                  let H := fresh in
                  assert (H : frame m) by (auto with frames);
                  let H' := fresh in
                  pose proof (frame_safe H) as H'; exact (H' c)
              end ]
    | solve [ apply preserves_modify; intros ? ?;
              repeat match goal with
                     | |- context [if ?b then _ else _] => destruct b
                     end; assumption ] ].

Lemma safe_set_state s : s <> ACTIVE -> safe (upd (set_state s)).
Proof. intros H. apply safe_upd. intros w. apply (cs_state (core w) H). Qed.

Lemma safe_clear_connections : safe (upd (set_activeConnections [])).
Proof. apply safe_upd. intros w. apply (cs_clear (core w)). Qed.

Lemma safe_delete_connection id :
  safe (upd (fun c =>
               set_activeConnections
                 (JsMap.delete connid_eqb id (activeConnections c)) c)).
Proof. apply safe_upd. intros w. apply (cs_delete (core w)). Qed.

#[export] Hint Resolve safe_clear_connections safe_delete_connection : safes.
#[export] Hint Extern 1 (safe (upd (set_state _))) =>
  apply safe_set_state; discriminate : safes.

Lemma safe_forceCloseConnections : safe forceCloseConnections.
Proof. unfold forceCloseConnections. safe_auto. Qed.
#[export] Hint Resolve safe_forceCloseConnections : safes.

Lemma safe_transitionToCleanup : safe transitionToCleanup.
Proof. unfold transitionToCleanup. safe_auto. Qed.
#[export] Hint Resolve safe_transitionToCleanup : safes.

Lemma safe_removeConnection id : safe (removeConnection id).
Proof.
  unfold removeConnection. safe_auto.
Qed.
#[export] Hint Resolve safe_removeConnection : safes.

Lemma safe_handleConnectionTimeout id : safe (handleConnectionTimeout id).
Proof. unfold handleConnectionTimeout. safe_auto. Qed.

Lemma safe_onSocketClose s : safe (onSocketClose s).
Proof. unfold onSocketClose. safe_auto. Qed.

Lemma safe_onSocketError s : safe (onSocketError s).
Proof. unfold onSocketError. safe_auto. Qed.

Lemma safe_drainConnections ctx : safe (drainConnections ctx).
Proof.
  unfold drainConnections. safe_auto.
Qed.

Lemma safe_onGraceTimeout d : safe (onGraceTimeout d).
Proof. unfold onGraceTimeout. safe_auto. Qed.

Lemma frame_process_exit A code : frame (@process_exit A code).
Proof. unfold process_exit. frame_auto. Qed.
#[export] Hint Resolve frame_process_exit : frames.

Lemma safe_completeShutdown sig e : safe (completeShutdown sig e).
Proof. unfold completeShutdown. safe_auto. Qed.

Lemma safe_forceShutdown code : safe (forceShutdown code).
Proof. unfold forceShutdown. safe_auto. Qed.
#[export] Hint Resolve safe_handleConnectionTimeout safe_onSocketClose
  safe_onSocketError safe_drainConnections safe_onGraceTimeout
  safe_completeShutdown safe_forceShutdown : safes.

Lemma safe_handleSignal_catch e : safe (handleSignal_catch e).
Proof. unfold handleSignal_catch. safe_auto. Qed.

Lemma safe_transition_catch e : safe (transition_catch e).
Proof. unfold transition_catch. safe_auto. Qed.
#[export] Hint Resolve safe_handleSignal_catch safe_transition_catch : safes.

Lemma safe_set_initiated : safe (upd (set_shutdownInitiated true)).
Proof. apply safe_upd. intros w. apply (cs_initiated (core w)). Qed.
#[export] Hint Resolve safe_set_initiated : safes.

Lemma safe_handleSignal sig e : safe (handleSignal sig e).
Proof.
  unfold handleSignal, executeShutdownSequence. safe_auto.
Qed.
#[export] Hint Resolve safe_handleSignal : safes.

Lemma safe_job_body j : safe (job_body j).
Proof.
  destruct j as [ctx | ctx | ch m e | ch | ch | ch | [ctx |] | [ctx |] e | n j]; simpl;
    auto with safes; apply frame_safe; auto with frames.
Qed.
#[export] Hint Resolve safe_job_body : safes.

Lemma safe_run_job j : safe (run_job j).
Proof.
  destruct j; unfold run_job, detached; safe_auto.
Qed.

Lemma safe_shutdown r : safe (shutdown r).
Proof. unfold shutdown. safe_auto. Qed.

Lemma safe_onSignal sig : safe (onSignal sig).
Proof. unfold onSignal, detached. safe_auto. Qed.

Lemma safe_onUncaughtException e : safe (onUncaughtException e).
Proof. unfold onUncaughtException, detached. safe_auto. Qed.

Lemma safe_onUnhandledRejection e : safe (onUnhandledRejection e).
Proof. unfold onUnhandledRejection, detached. safe_auto. Qed.
#[export] Hint Resolve safe_run_job safe_shutdown safe_onSignal
  safe_onUncaughtException safe_onUnhandledRejection : safes.

(** [registerServer] sets [server] only when it is not set. *)
Lemma safe_registerServer arg : safe (registerServer arg).
Proof.
  apply safe_pointwise. intros w. unfold registerServer.
  destruct arg as [| srv]; [apply reach_refl |].
  destruct (srv_close_is_function srv); simpl; [| apply reach_refl].
  unfold bind at 1. unfold gets at 1.
  destruct (server (this w)) eqn:E; [apply reach_refl |].
  unfold bind at 1. unfold upd at 1. unfold modify at 1.
  eapply reach_trans.
  - apply reach_one.
    refine (_ : core_step (core w) (with_server (Some srv) (core w))).
    apply cs_server. exact E.
  - match goal with
    | |- reach _ (core (fst (?m ?w'))) =>
        change (with_server (Some srv) (core w)) with (core w');
        apply (@safe_reach _ m w')
    end.
    safe_auto.
Qed.

Lemma safe_generateConnectionId : safe generateConnectionId.
Proof.
  unfold generateConnectionId. safe_auto.
  apply safe_upd. intros w. apply (cs_counter (core w)).
Qed.

Lemma safe_touch id :
  safe (found <- gets (fun w => JsMap.get connid_eqb id (activeConnections (this w))) ;;
        match found with
        | Some conn =>
            t <- gets now ;;
            upd (fun c =>
                   set_activeConnections
                     (JsMap.set connid_eqb id (touch t conn) (activeConnections c)) c)
        | None => ret tt
        end).
Proof.
  apply safe_pointwise. intros w. unfold bind, gets. simpl.
  destruct (JsMap.get connid_eqb id (activeConnections (this w))) eqn:E; simpl.
  - apply reach_one.
    refine (cs_update (core w) id _ _). simpl. rewrite E. discriminate.
  - apply reach_refl.
Qed.

Lemma safe_onSocketData s : safe (onSocketData s).
Proof.
  unfold onSocketData. intro c.
  apply preserves_bind; [apply preserves_gets |]. intros ids.
  apply preserves_forEach. intros id.
  pose proof (safe_touch id) as H. exact (H c).
Qed.

Lemma frame_checkConnectionLimits s : frame (checkConnectionLimits s).
Proof. unfold checkConnectionLimits, upd. frame_auto. Qed.

(** When the limits let a socket through, the registry is below the
    maximum or the coordinator is no longer in [ACTIVE]. *)
Lemma checkConnectionLimits_false s w w' :
  checkConnectionLimits s w = (w', Normal false) ->
  Z.of_nat (connectionCount w) < maxConnections (config (this w))
  \/ state (this w) <> ACTIVE.
Proof.
  unfold checkConnectionLimits, bind, gets, when, ret. simpl.
  destruct (maxConnections (config (this w)) <=? Z.of_nat (connectionCount w)) eqn:E.
  - intros H. right. intros Hs.
    destruct (negb (maxConnectionsReached (this w))).
    + unfold log, upd, modify, effect, bind, gets in H. simpl in H.
      rewrite Hs in H. simpl in H.
      destruct (destroy s _) as [w2 [[] | e | ]]; discriminate.
    + rewrite Hs in H. simpl in H.
      destruct (destroy s _) as [w2 [[] | e | ]]; discriminate.
  - intros _. left. apply Z.leb_gt in E. exact E.
Qed.

Lemma JsMap_get_set_same (id : ConnId) (v : ConnectionInfo) m :
  JsMap.get connid_eqb id (JsMap.set connid_eqb id v m) = Some v.
Proof.
  assert (R : connid_eqb id id = true).
  { unfold connid_eqb. rewrite Z.eqb_refl, Nat.eqb_refl. reflexivity. }
  induction m as [| [k x] r IH]; simpl.
  - rewrite R. reflexivity.
  - destruct (connid_eqb id k) eqn:E; simpl.
    + rewrite R. reflexivity.
    + rewrite E. exact IH.
Qed.

Lemma safe_trackConnection id s w :
  (Z.of_nat (connectionCount w) < maxConnections (config (this w))
   \/ state (this w) <> ACTIVE) ->
  (snd id <= connectionCounter (this w))%nat ->
  reach (core w) (core (fst (trackConnection id s w))).
Proof.
  intros Hadm Hid. unfold trackConnection.
  unfold bind at 1. unfold gets at 1.
  unfold bind at 1. unfold upd at 1, modify at 1.
  set (J := fun c => reach (core w) c
                     /\ JsMap.get connid_eqb id (c_connections c) <> None).
  match goal with
  | |- reach _ (core (fst (?m ?w1))) =>
      enough (H : J (core (fst (m w1)))) by apply H;
      assert (H1 : J (core w1));
      [| revert H1; generalize w1; change (preserves (fun w' => J (core w')) m) ]
  end.
  { split.
    - apply reach_one. exact (cs_accept (core w) id _ Hadm Hid).
    - simpl. rewrite JsMap_get_set_same. discriminate. }
  apply preserves_bind; [apply preserves_gets | intros ms].
  apply preserves_bind; [apply frame_preserves; auto with frames | intros t].
  apply preserves_bind; [| intros []; apply frame_preserves; unfold upd; frame_auto].
  apply preserves_modify. intros w' [Hr Hg]. split.
  - eapply reach_step; [exact Hr |].
    exact (cs_update (core w') id _ Hg).
  - simpl. rewrite JsMap_get_set_same. discriminate.
Qed.

Lemma generateConnectionId_spec w :
  generateConnectionId w =
  (set_this (set_connectionCounter (S (connectionCounter (this w))) (this w)) w,
   Normal (now w, S (connectionCounter (this w)))).
Proof. reflexivity. Qed.

Lemma safe_onConnection s : safe (onConnection s).
Proof.
  apply safe_pointwise. intros w. unfold onConnection.
  unfold bind at 1. rewrite generateConnectionId_spec.
  set (w1 := set_this _ w).
  apply reach_trans with (c2 := core w1).
  { apply reach_one. exact (cs_counter (core w)). }
  unfold bind.
  pose proof (frame_eq w1 (frame_checkConnectionLimits s)) as Hf.
  destruct (checkConnectionLimits s w1) as [w2 [[] | e | ]] eqn:E;
    simpl in Hf; simpl; rewrite <- Hf; try apply reach_refl.
  apply checkConnectionLimits_false in E.
  apply safe_trackConnection.
  - unfold connectionCount in *.
    replace (activeConnections (this w2)) with (c_connections (core w2)) by reflexivity.
    replace (config (this w2)) with (c_config (core w2)) by reflexivity.
    replace (state (this w2)) with (c_state (core w2)) by reflexivity.
    rewrite Hf. exact E.
  - replace (connectionCounter (this w2)) with (c_counter (core w2)) by reflexivity.
    rewrite Hf. simpl. apply Nat.le_refl.
Qed.
#[export] Hint Resolve safe_registerServer safe_onSocketData safe_onConnection : safes.

(** ** The host loop changes [core] by such steps only *)

Lemma safe_dispatch ev : safe (dispatch ev).
Proof.
  destruct ev; unfold dispatch, called, detached; safe_auto.
Qed.

Lemma safe_fire a : safe (fire a).
Proof. destruct a; simpl; auto with safes; apply frame_safe; auto with frames. Qed.

Lemma reach_crash e w : reach (core w) (core (crash e w)).
Proof. apply reach_refl. Qed.

Lemma reach_uncaught e w : reach (core w) (core (uncaught e w)).
Proof.
  unfold uncaught. destruct (Nat.eqb _ 0); [apply reach_refl |].
  apply safe_reach. auto with safes.
Qed.

Lemma reach_unhandled e w : reach (core w) (core (unhandled e w)).
Proof.
  unfold unhandled. destruct (Nat.eqb _ 0); [apply reach_refl |].
  apply safe_reach. auto with safes.
Qed.

Lemma reach_settle fuel w : reach (core w) (core (settle fuel w)).
Proof.
  revert w. induction fuel as [| fuel IH]; intros w; simpl; [apply reach_refl |].
  destruct (is_halted w); [apply reach_refl |].
  destruct (jobs w) as [| j js] eqn:Ej.
  - destruct (rejections w) as [| e es]; [apply reach_refl |].
    eapply reach_trans; [| apply IH].
    apply (reach_unhandled e (set_rejections es w)).
  - eapply reach_trans; [| apply IH].
    apply (@safe_reach _ (run_job j) (set_jobs js w)). auto with safes.
Qed.

Lemma reach_turn fuel m w : safe m -> reach (core w) (core (turn fuel m w)).
Proof.
  intros Hm. unfold turn. destruct (is_halted w); [apply reach_refl |].
  pose proof (safe_reach w Hm) as H.
  destruct (m w) as [w' [[] | e | ]]; simpl in H.
  - eapply reach_trans; [exact H | apply reach_settle].
  - eapply reach_trans; [exact H |].
    eapply reach_trans; [apply reach_uncaught | apply reach_settle].
  - eapply reach_trans; [exact H | apply reach_settle].
Qed.

Lemma reach_advance fuel t w : reach (core w) (core (advance fuel t w)).
Proof.
  revert w. induction fuel as [| fuel IH]; intros w; [apply reach_refl |].
  cbn [advance].
  destruct (is_halted w); [apply reach_refl |].
  destruct (next_due t (pendingTimers w)) as [p |]; [| apply reach_refl].
  eapply reach_trans; [| apply IH].
  match goal with
  | |- reach _ (core (turn ?f ?m ?w')) => apply (@reach_turn f m w')
  end.
  apply safe_fire.
Qed.

Lemma reach_step_event fuel w tev : reach (core w) (core (step fuel w tev)).
Proof.
  unfold step.
  pose proof (reach_advance fuel (fst tev) w) as H.
  destruct (is_halted _); [exact H |].
  eapply reach_trans; [exact H |].
  match goal with
  | |- reach _ (core (turn ?f ?m ?w')) => apply (@reach_turn f m w')
  end.
  apply safe_dispatch.
Qed.

Lemma reach_run fuel evs w : reach (core w) (core (run fuel evs w)).
Proof.
  revert w. induction evs as [| tev evs IH]; intros w; simpl; [apply reach_refl |].
  eapply reach_trans; [apply reach_step_event | apply IH].
Qed.

(** ** What those steps keep *)

Lemma JsMap_delete_size (id : ConnId) (m : JsMap.t ConnId ConnectionInfo) :
  (JsMap.size (JsMap.delete connid_eqb id m) <= JsMap.size m)%nat.
Proof. apply filter_length_le. Qed.

Lemma JsMap_set_size_le (id : ConnId) (v : ConnectionInfo) m :
  (JsMap.size (JsMap.set connid_eqb id v m) <= S (JsMap.size m))%nat.
Proof.
  unfold JsMap.size. induction m as [| [k x] r IH]; simpl; [lia |].
  destruct (connid_eqb id k); simpl; lia.
Qed.

Lemma JsMap_set_size_present (id : ConnId) (v : ConnectionInfo) m :
  JsMap.get connid_eqb id m <> None ->
  JsMap.size (JsMap.set connid_eqb id v m) = JsMap.size m.
Proof.
  unfold JsMap.size. induction m as [| [k x] r IH]; simpl; [congruence |].
  destruct (connid_eqb id k); simpl; auto.
Qed.

(** The configuration never changes. *)
Lemma reach_config {c c'} : reach c c' -> c_config c' = c_config c.
Proof.
  induction 1 as [| c1 c2 c3 _ IH Hs]; [reflexivity |].
  rewrite <- IH. destruct Hs; reflexivity.
Qed.

(** Once [shutdownInitiated] is set it stays set. *)
Lemma reach_initiated {c c'} :
  reach c c' -> c_initiated c = true -> c_initiated c' = true.
Proof.
  induction 1 as [| c1 c2 c3 _ IH Hs]; [auto |].
  intros H. specialize (IH H). destruct Hs; simpl; auto.
Qed.

(** The state never comes back to [ACTIVE]. *)
Lemma reach_not_active {c c'} :
  reach c c' -> c_state c <> ACTIVE -> c_state c' <> ACTIVE.
Proof.
  induction 1 as [| c1 c2 c3 _ IH Hs]; [auto |].
  intros H. specialize (IH H). destruct Hs; simpl; auto.
Qed.

(** A registered server stays registered. *)
Lemma reach_server {c c' srv} :
  reach c c' -> c_server c = Some srv -> c_server c' = Some srv.
Proof.
  induction 1 as [| c1 c2 c3 _ IH Hs]; [auto |].
  intros H. specialize (IH H). destruct Hs; simpl; auto. congruence.
Qed.

Lemma reach_within_limit {c c'} :
  0 <= maxConnections (c_config c) ->
  reach c c' -> within_limit c -> within_limit c'.
Proof.
  intros Hmax Hr. induction Hr as [| c1 c2 c3 Hr IH Hs]; [auto |].
  intros H. specialize (IH Hmax H).
  pose proof (reach_config Hr) as Hc. unfold within_limit in *.
  destruct Hs; simpl in *; auto.
  - intros Hs. congruence.
  - intros Hs. pose proof (JsMap_delete_size id (c_connections c)). specialize (IH Hs). lia.
  - intros _. rewrite Hc. exact Hmax.
  - intros Hs. pose proof (JsMap_set_size_le id info (c_connections c)).
    destruct H0 as [Hlt | Hna]; [lia | contradiction].
  - intros Hs. rewrite JsMap_set_size_present by assumption. auto.
Qed.

Lemma connid_eqb_eq a b : connid_eqb a b = true <-> a = b.
Proof.
  unfold connid_eqb. destruct a as [t n], b as [t' n']; simpl.
  rewrite andb_true_iff, Z.eqb_eq, Nat.eqb_eq. split.
  - intros [-> ->]. reflexivity.
  - intros H. inversion H. auto.
Qed.

Lemma JsMap_get_delete (id k : ConnId) (m : JsMap.t ConnId ConnectionInfo) info :
  JsMap.get connid_eqb k (JsMap.delete connid_eqb id m) = Some info ->
  JsMap.get connid_eqb k m = Some info.
Proof.
  induction m as [| [k' x] r IH]; simpl; [auto |].
  destruct (connid_eqb id k') eqn:E; simpl.
  - intros H. specialize (IH H).
    destruct (connid_eqb k k') eqn:E'; [| exact IH].
    apply connid_eqb_eq in E, E'. subst.
    clear - H. exfalso. revert H.
    induction r as [| [k'' y] r IH]; simpl; [discriminate |].
    destruct (connid_eqb k' k'') eqn:E; simpl; [exact IH |].
    rewrite E. exact IH.
  - destruct (connid_eqb k k'); auto.
Qed.

Lemma JsMap_get_delete_same (id : ConnId) (m : JsMap.t ConnId ConnectionInfo) :
  JsMap.get connid_eqb id (JsMap.delete connid_eqb id m) = None.
Proof.
  induction m as [| [k x] r IH]; simpl; [reflexivity |].
  destruct (connid_eqb id k) eqn:E; simpl; [exact IH |].
  rewrite E. exact IH.
Qed.

Lemma JsMap_get_set_other (id k : ConnId) (v : ConnectionInfo) m :
  connid_eqb k id = false ->
  JsMap.get connid_eqb k (JsMap.set connid_eqb id v m) = JsMap.get connid_eqb k m.
Proof.
  intros Hk. induction m as [| [k' x] r IH]; simpl.
  - rewrite Hk. reflexivity.
  - destruct (connid_eqb id k') eqn:E; simpl.
    + apply connid_eqb_eq in E. subst k'. rewrite Hk. reflexivity.
    + destruct (connid_eqb k k'); auto.
Qed.

Lemma reach_ids_generated {c c'} :
  reach c c' -> ids_generated c -> ids_generated c'.
Proof.
  induction 1 as [| c1 c2 c3 _ IH Hs]; [auto |].
  intros H. specialize (IH H). unfold ids_generated in *.
  destruct Hs; simpl in *; auto.
  - intros k i Hk. specialize (IH k i Hk). lia.
  - intros k i Hk. apply JsMap_get_delete in Hk. eauto.
  - discriminate.
  - intros k i Hk. destruct (connid_eqb k id) eqn:E.
    + apply connid_eqb_eq in E. subst. assumption.
    + rewrite JsMap_get_set_other in Hk by assumption. eauto.
  - intros k i Hk. destruct (connid_eqb k id) eqn:E.
    + apply connid_eqb_eq in E. subst.
      destruct (JsMap.get connid_eqb id (c_connections c)) eqn:G; [eauto | congruence].
    + rewrite JsMap_get_set_other in Hk by assumption. eauto.
Qed.

(** ** Invariants by unfolding

    For an invariant that is not about [core], a goal [preserves I m] is
    taken apart down to the updates of the world; [leaf] closes those. *)

Create HintDb model.
#[export] Hint Unfold upd effect setTimeout clearTimeout clearInterval destroy
  removeListener process_on process_removeListener process_exit enqueue
  reject_unhandled later detached log push_error resolve_drain checkConnections
  emit callback_failed call_callback cleanup_failed performResourceCleanup
  performResourceCleanup_resume executeShutdownCallbacks
  executeShutdownCallbacks_resume forceCloseConnections transitionToCleanup
  removeConnection handleConnectionTimeout generateConnectionId
  checkConnectionLimits trackConnection onConnection onSocketClose onSocketError
  onSocketData settle_stop_with server_close stopAcceptingConnections
  serverCloseCallback onServerClosed drainConnections onGraceTimeout
  completeShutdown forceShutdown executeShutdownSequence handleSignal_catch
  handleSignal transition_catch setupConnectionTracking setupSignalHandlers
  registerServer onSignal onUncaughtException onUnhandledRejection onShutdown
  onResourceCleanup trackTimer trackInterval trackEventListener shutdown
  host_timer called : model.

Ltac preserves_by leaf :=
  repeat first
    [ preserves_step
    | match goal with
      | |- preserves _ (modify _) => apply preserves_modify; intros ? ?; leaf
      end
    | progress cbv beta
    | progress autounfold with model ].

Ltac leaf_simple :=
  cbn in *;
  repeat match goal with
         | |- context [if ?b then _ else _] => destruct b
         | |- context [match ?x with _ => _ end] => destruct x
         end;
  cbn in *; auto.

(** ** The claims on single methods *)

Lemma registerServer_invalid arg w :
  invalid_server arg = true ->
  registerServer arg w = (w, Throw (mkError "Invalid server instance provided")).
Proof.
  destruct arg as [| o]; simpl; [reflexivity |].
  intros ->. reflexivity.
Qed.

Lemma registerServer_registered arg w srv :
  server (this w) = Some srv ->
  exists e, registerServer arg w = (w, Throw e).
Proof.
  intros H. destruct arg as [| o]; simpl; [eexists; reflexivity |].
  destruct (srv_close_is_function o); simpl; [| eexists; reflexivity].
  unfold bind, gets. rewrite H. eexists. reflexivity.
Qed.

(** C10. [registerServer] succeeds at most once and validates its argument:
    an argument without a [close] function makes it throw; once a call has
    succeeded, the server stays registered whatever happens afterwards, and
    every later call throws and leaves the world (the registered server,
    the listener on its connections, the signal handlers) as it was. *)
Theorem C10_registerServer_at_most_once :
  forall (w w1 : World) (srv : ServerObj) (fuel : nat) (evs : list (Z * Event))
         (arg : ServerArg),
    registerServer (ArgObject srv) w = (w1, Normal tt) ->
    let w2 := run fuel evs w1 in
    server (this w1) = Some srv
    /\ server (this w2) = Some srv
    /\ (exists e, registerServer arg w2 = (w2, Throw e))
    /\ (invalid_server arg = true ->
        forall w0, registerServer arg w0
                   = (w0, Throw (mkError "Invalid server instance provided"))).
Proof.
  intros w w1 srv fuel evs arg H w2.
  assert (H1 : server (this w1) = Some srv).
  { revert H. unfold registerServer.
    destruct (srv_close_is_function srv); cbn [negb]; [| discriminate].
    unfold bind at 1. unfold gets at 1.
    destruct (server (this w)); [discriminate |].
    unfold bind at 1. unfold upd at 1, modify at 1.
    match goal with
    | |- ?m ?w' = _ -> _ =>
        intros H;
        assert (Hp : preserves (fun x => server (this x) = Some srv) m)
          by preserves_by leaf_simple;
        specialize (Hp w' eq_refl); rewrite H in Hp; exact Hp
    end. }
  assert (H2 : server (this w2) = Some srv).
  { exact (reach_server (reach_run fuel evs w1) H1). }
  repeat split; auto.
  - apply registerServer_registered with (srv := srv). exact H2.
  - intros Hi w0. apply registerServer_invalid, Hi.
Qed.

Lemma C10_witness :
  let w := new_ShutdownCoordinator 0 quiet no_options in
  let w1 := fst (registerServer (ArgObject http_server) w) in
  let w2 := run 64 [(5, ServerConnection 1 (socket 1)); (9, Signal "SIGTERM")] w1 in
  registerServer (ArgObject http_server) w = (w1, Normal tt)
  /\ server (this w2) = Some http_server
  /\ exists e, registerServer (ArgObject other_server) w2 = (w2, Throw e).
Proof.
  intros w w1 w2.
  assert (H : registerServer (ArgObject http_server) w = (w1, Normal tt))
    by (vm_compute; reflexivity).
  split; [exact H |].
  pose proof (@C10_registerServer_at_most_once w w1 http_server 64
                [(5, ServerConnection 1 (socket 1)); (9, Signal "SIGTERM")]
                (ArgObject other_server) H) as T.
  split; [apply T | apply T].
Defined.

(** What [onConnection] does to a socket that comes while the coordinator
    is in [ACTIVE] and the registry is full. *)
Lemma onConnection_rejects socket w :
  state (this w) = ACTIVE ->
  maxConnections (config (this w)) <= Z.of_nat (connectionCount w) ->
  let w' := fst (onConnection socket w) in
  activeConnections (this w') = activeConnections (this w)
  /\ socketHandlers w' = socketHandlers w
  /\ pendingTimers w' = pendingTimers w
  /\ (trace w' = trace w ++ [EDestroy socket]
      \/ trace w' = trace w ++ [ELog "warn" "Maximum connections reached" ACTIVE;
                                EDestroy socket]).
Proof.
  intros Hs Hm. apply Z.leb_le in Hm.
  unfold onConnection, generateConnectionId, checkConnectionLimits, destroy, log,
    effect, upd, modify, when, bind, gets, ret, throw.
  unfold connectionCount, JsMap.size in *. cbn. rewrite Hm. cbn.
  destruct (maxConnectionsReached (this w)); cbn; rewrite ?Hs; cbn;
    destruct (sock_destroy_fault socket); cbn; rewrite <- ?app_assoc; auto 6.
Qed.

(** C8. While the coordinator is in [ACTIVE], a connection offered when the
    registry holds the configured maximum or more is turned away: its
    socket is destroyed at once and nothing is tracked for it (no record,
    no socket listeners, no idle timer).  Hence, from the construction
    on and whatever events arrive, the registry never holds more than the
    maximum while the state is [ACTIVE]. *)
Theorem C8_admission_control :
  forall (t0 : Z) (listeners : string -> option JsError) (options : Options)
         (fuel : nat) (evs : list (Z * Event)) (socket : Socket),
    0 <= maxConnections (merge_config options) ->
    let w := run fuel evs (new_ShutdownCoordinator t0 listeners options) in
    state (this w) = ACTIVE ->
    Z.of_nat (connectionCount w) <= maxConnections (config (this w))
    /\ (maxConnections (config (this w)) <= Z.of_nat (connectionCount w) ->
        let w' := fst (onConnection socket w) in
        activeConnections (this w') = activeConnections (this w)
        /\ socketHandlers w' = socketHandlers w
        /\ pendingTimers w' = pendingTimers w
        /\ (trace w' = trace w ++ [EDestroy socket]
            \/ trace w' = trace w ++ [ELog "warn" "Maximum connections reached" ACTIVE;
                                      EDestroy socket])).
Proof.
  intros t0 listeners options fuel evs socket Hmax w Hs. split.
  - set (w0 := new_ShutdownCoordinator t0 listeners options) in *.
    assert (Hc : core w0 = {| c_config := merge_config options; c_state := ACTIVE;
                              c_initiated := false; c_connections := [];
                              c_counter := 0; c_server := None |}).
    { unfold w0, new_ShutdownCoordinator.
      match goal with
      | |- core (fst (?m ?x)) = _ => rewrite (frame_eq x (frame_log _ _))
      end.
      reflexivity. }
    pose proof (reach_run fuel evs w0) as Hr.
    assert (Hw : within_limit (core w0)).
    { rewrite Hc. intros _. simpl. exact Hmax. }
    assert (Hm0 : 0 <= maxConnections (c_config (core w0))).
    { rewrite Hc. exact Hmax. }
    exact (reach_within_limit Hm0 Hr Hw Hs).
  - intros Hfull. apply onConnection_rejects; assumption.
Qed.

Lemma C8_witness :
  let w := run 64 [(1, CallRegisterServer (ArgObject http_server));
                   (2, ServerConnection 1 (socket 1));
                   (3, ServerConnection 1 (socket 2))]
             (new_ShutdownCoordinator 0 quiet (at_most 1)) in
  connectionCount w = 1%nat
  /\ In (EDestroy (socket 2)) (trace w)
  /\ Z.of_nat (connectionCount w) <= maxConnections (config (this w)).
Proof.
  intros w.
  split; [vm_compute; reflexivity |].
  split; [vm_compute; auto 20 |].
  refine (proj1 (@C8_admission_control 0 quiet (at_most 1) 64 _ (socket 3) _ _)).
  - vm_compute. discriminate.
  - vm_compute. reflexivity.
Defined.

Lemma bind_normal {A B} {m : M A} {k : A -> M B} {w w' a} :
  m w = (w', Normal a) -> bind m k w = k a w'.
Proof. intros H. unfold bind. rewrite H. reflexivity. Qed.

Lemma emitted_app ev a b : emitted ev (a ++ b) = (emitted ev a + emitted ev b)%nat.
Proof. unfold emitted. rewrite filter_app, length_app. reflexivity. Qed.

Lemma JsMap_delete_absent (id : ConnId) (m : JsMap.t ConnId ConnectionInfo) :
  JsMap.get connid_eqb id m = None -> JsMap.delete connid_eqb id m = m.
Proof.
  induction m as [| [k x] r IH]; simpl; [reflexivity |].
  destruct (connid_eqb id k); simpl; [discriminate |].
  intros H. rewrite (IH H). reflexivity.
Qed.

Lemma JsMap_delete_set (id : ConnId) (v : ConnectionInfo) m :
  JsMap.delete connid_eqb id (JsMap.set connid_eqb id v m)
  = JsMap.delete connid_eqb id m.
Proof.
  assert (R : connid_eqb id id = true) by (apply connid_eqb_eq; reflexivity).
  induction m as [| [k x] r IH]; simpl.
  - rewrite R. reflexivity.
  - destruct (connid_eqb id k) eqn:E; simpl.
    + rewrite R. reflexivity.
    + rewrite E. simpl. rewrite IH. reflexivity.
Qed.

Lemma emitted_single ev e :
  emitted ev [e] = if is_emit ev e then 1%nat else 0%nat.
Proof. unfold emitted. simpl. destruct (is_emit ev e); reflexivity. Qed.

Arguments emitted : simpl never.

Ltac leaf_emitted :=
  cbn in *;
  repeat match goal with
         | |- context [if ?b then _ else _] => destruct b
         end;
  cbn in *; rewrite ?emitted_app, ?emitted_single; cbn; try lia; auto.

Ltac leaf_in_trace :=
  cbn in *;
  repeat match goal with
         | |- context [if ?b then _ else _] => destruct b
         end;
  cbn in *; auto using in_or_app.

Lemma cancel_In p t l : In p (cancel t l) -> In p l.
Proof. unfold cancel. intros H. apply filter_In in H. apply H. Qed.

Lemma removeConnection_present id info w :
  JsMap.get connid_eqb id (activeConnections (this w)) = Some info ->
  removeConnection id w = removeConnection_rest info (after_delete id info w).
Proof.
  intros H. unfold removeConnection.
  unfold bind at 1. unfold gets at 1. rewrite H.
  unfold after_delete.
  destruct (ci_timeout info) as [t |].
  - erewrite bind_normal by reflexivity.
    erewrite bind_normal by reflexivity.
    erewrite bind_normal by reflexivity.
    reflexivity.
  - erewrite bind_normal by reflexivity.
    erewrite bind_normal by reflexivity.
    erewrite bind_normal by reflexivity.
    reflexivity.
Qed.

Lemma removeConnection_absent id w :
  JsMap.get connid_eqb id (activeConnections (this w)) = None ->
  removeConnection id w = (w, Normal tt).
Proof.
  intros H. unfold removeConnection. unfold bind at 1. unfold gets at 1.
  rewrite H. reflexivity.
Qed.

Lemma rest_keeps_connections info m :
  preserves (fun w => activeConnections (this w) = m) (removeConnection_rest info).
Proof. unfold removeConnection_rest. preserves_by leaf_simple. Qed.

Lemma rest_keeps_trace info x :
  preserves (fun w => In x (trace w)) (removeConnection_rest info).
Proof. unfold removeConnection_rest. preserves_by leaf_in_trace. Qed.

Lemma bind_assoc {A B C} (m : M A) (f : A -> M B) (g : B -> M C) w :
  bind (bind m f) g w = bind m (fun x => bind (f x) g) w.
Proof. unfold bind. destruct (m w) as [w' [a | e | ]]; reflexivity. Qed.

Lemma log_normal l m w : log l m w = (fst (log l m w), Normal tt).
Proof.
  unfold log, bind, gets, effect, modify, ret. cbn.
  destruct (streq l "debug" && _); reflexivity.
Qed.

Lemma log_keeps_emitted l m ev n :
  preserves (fun w => emitted ev (trace w) = n) (log l m).
Proof. preserves_by leaf_emitted. Qed.

Lemma log_keeps_connections l m x :
  preserves (fun w => activeConnections (this w) = x) (log l m).
Proof. preserves_by leaf_simple. Qed.

(** After the 'connection-removed' event has gone out, the rest of
    [removeConnection] emits no second one. *)
Lemma rest_emits_once info w :
  emitted "connection-removed" (trace (fst (removeConnection_rest info w)))
  = S (emitted "connection-removed" (trace w)).
Proof.
  unfold removeConnection_rest.
  erewrite bind_normal by apply log_normal.
  pose proof (log_keeps_emitted "debug" "Connection removed" "connection-removed"
                _ w eq_refl) as Hl.
  set (wl := fst (log "debug" "Connection removed" w)) in *.
  unfold emit at 1. rewrite bind_assoc.
  erewrite bind_normal by reflexivity.
  match goal with
  | |- emitted _ (trace (fst (?m ?w2))) = ?n =>
      assert (Hp : preserves (fun x => emitted "connection-removed" (trace x) = n) m)
        by preserves_by leaf_emitted;
      apply (Hp w2)
  end.
  cbn. rewrite emitted_app, emitted_single. cbn. rewrite Hl. lia.
Qed.

Ltac leaf_timer_gone :=
  cbn in *;
  repeat match goal with
         | |- context [if ?b then _ else _] => destruct b
         end;
  cbn in *; auto;
  try (unfold timer_gone in *; cbn; intros ? ?;
       match goal with H : In _ (cancel _ _) |- _ => apply cancel_In in H end; auto).

Lemma rest_keeps_timer_gone info t :
  preserves (timer_gone t) (removeConnection_rest info).
Proof. unfold removeConnection_rest. preserves_by leaf_timer_gone. Qed.

Lemma cancel_gone t l p : In p (cancel t l) -> pt_id p <> t.
Proof.
  unfold cancel. intros H. apply filter_In in H. destruct H as [_ H].
  apply negb_true_iff, Nat.eqb_neq in H. exact H.
Qed.

(** C7. Removing a connection is idempotent.  The first call, for a
    tracked connection, clears its idle timer, deletes its record and emits
    'connection-removed' once; a second call finds no record and does
    nothing at all: the world it returns is the world it was given. *)
Theorem C7_removeConnection_idempotent :
  forall (id : ConnId) (info : ConnectionInfo) (w : World),
    JsMap.get connid_eqb id (activeConnections (this w)) = Some info ->
    let w1 := fst (removeConnection id w) in
    activeConnections (this w1) = JsMap.delete connid_eqb id (activeConnections (this w))
    /\ JsMap.get connid_eqb id (activeConnections (this w1)) = None
    /\ (forall t, ci_timeout info = Some t ->
                  In (EClearTimeout t) (trace w1) /\ timer_gone t w1)
    /\ In (EEmit "connection-removed" (PConnection info)) (trace w1)
    /\ emitted "connection-removed" (trace w1)
        = S (emitted "connection-removed" (trace w))
    /\ removeConnection id w1 = (w1, Normal tt).
Proof.
  intros id info w Hget w1.
  assert (Hreg : activeConnections (this w1)
                 = JsMap.delete connid_eqb id (activeConnections (this w))).
  { unfold w1. rewrite (removeConnection_present _ _ _ Hget).
    apply rest_keeps_connections.
    unfold after_delete. destruct (ci_timeout info); cbn;
      destruct (below_threshold _ _); reflexivity. }
  assert (Hgone : JsMap.get connid_eqb id (activeConnections (this w1)) = None).
  { rewrite Hreg. apply JsMap_get_delete_same. }
  split; [exact Hreg |]. split; [exact Hgone |]. split; [| split; [| split]].
  - intros t Ht. unfold w1. rewrite (removeConnection_present _ _ _ Hget). split.
    + apply rest_keeps_trace. unfold after_delete. rewrite Ht. cbn.
      apply in_or_app. right. left. reflexivity.
    + apply rest_keeps_timer_gone. unfold after_delete. rewrite Ht.
      intros p Hp. cbn in Hp. apply cancel_gone in Hp. exact Hp.
  - unfold w1. rewrite (removeConnection_present _ _ _ Hget).
    unfold removeConnection_rest.
    erewrite bind_normal by apply log_normal.
    unfold emit at 1. rewrite bind_assoc.
    erewrite bind_normal by reflexivity.
    match goal with
    | |- In ?x (trace (fst (?m ?w2))) =>
        assert (Hp : preserves (fun y => In x (trace y)) m)
          by preserves_by leaf_in_trace;
        apply (Hp w2)
    end.
    cbn. apply in_or_app. right. left. reflexivity.
  - unfold w1. rewrite (removeConnection_present _ _ _ Hget).
    rewrite rest_emits_once. f_equal.
    unfold after_delete. destruct (ci_timeout info); cbn;
      rewrite ?emitted_app, ?emitted_single; cbn; lia.
  - apply removeConnection_absent. exact Hgone.
Qed.

Lemma C7_witness :
  JsMap.get connid_eqb (2, 1%nat) (activeConnections (this one_connection))
  = Some first_connection
  /\ removeConnection (2, 1%nat) (fst (removeConnection (2, 1%nat) one_connection))
     = (fst (removeConnection (2, 1%nat) one_connection), Normal tt).
Proof.
  assert (H : JsMap.get connid_eqb (2, 1%nat) (activeConnections (this one_connection))
              = Some first_connection) by (vm_compute; reflexivity).
  split; [exact H |].
  apply (C7_removeConnection_idempotent (2, 1%nat) first_connection one_connection H).
Defined.

(** [removeConnection] deletes the record, and nothing else, from the
    registry. *)
Lemma removeConnection_deletes id w :
  activeConnections (this (fst (removeConnection id w)))
  = JsMap.delete connid_eqb id (activeConnections (this w)).
Proof.
  destruct (JsMap.get connid_eqb id (activeConnections (this w))) as [info |] eqn:Hget.
  - rewrite (removeConnection_present _ _ _ Hget).
    apply rest_keeps_connections.
    unfold after_delete. destruct (ci_timeout info); cbn;
      destruct (below_threshold _ _); reflexivity.
  - rewrite (removeConnection_absent _ _ Hget). cbn.
    symmetry. apply JsMap_delete_absent, Hget.
Qed.

Lemma trackConnection_connections id s w :
  activeConnections (this (fst (trackConnection id s w)))
  = JsMap.set connid_eqb id
      (with_timeout (nextTimer w) (new_connectionInfo id s (now w)))
      (JsMap.set connid_eqb id (new_connectionInfo id s (now w))
         (activeConnections (this w))).
Proof.
  unfold trackConnection.
  erewrite bind_normal by reflexivity.
  erewrite bind_normal by reflexivity.
  erewrite bind_normal by reflexivity.
  erewrite bind_normal by reflexivity.
  erewrite bind_normal by reflexivity.
  match goal with
  | |- activeConnections (this (fst (?m ?w2))) = ?x =>
      assert (Hp : preserves (fun y => activeConnections (this y) = x) m)
        by preserves_by leaf_simple;
      apply (Hp w2)
  end.
  reflexivity.
Qed.

Lemma checkConnectionLimits_admits s w :
  Z.of_nat (connectionCount w) < maxConnections (config (this w))
  \/ state (this w) <> ACTIVE ->
  snd (checkConnectionLimits s w) = Normal false.
Proof.
  intros H.
  unfold checkConnectionLimits, log, effect, upd, modify, when, bind, gets, ret. cbn.
  destruct (maxConnections (config (this w)) <=? Z.of_nat (connectionCount w)) eqn:E;
    [| reflexivity].
  destruct H as [H | H]; [apply Z.leb_le in E; lia |].
  assert (Hs : state_eqb (state (this w)) ACTIVE = false)
    by (destruct (state (this w)); try reflexivity; congruence).
  destruct (maxConnectionsReached (this w)); cbn; rewrite Hs; reflexivity.
Qed.

Lemma JsMap_set_size_absent (id : ConnId) (v : ConnectionInfo) m :
  JsMap.get connid_eqb id m = None ->
  JsMap.size (JsMap.set connid_eqb id v m) = S (JsMap.size m).
Proof.
  unfold JsMap.size. induction m as [| [k x] r IH]; simpl; [reflexivity |].
  destruct (connid_eqb id k); simpl; [discriminate |]. auto.
Qed.

Lemma onConnection_unfold s w :
  onConnection s w =
  let id := (now w, S (connectionCounter (this w))) in
  let w1 := set_this (set_connectionCounter (S (connectionCounter (this w))) (this w)) w in
  match checkConnectionLimits s w1 with
  | (w2, Normal true) => (w2, Normal tt)
  | (w2, Normal false) => trackConnection id s w2
  | (w2, Throw e) => (w2, Throw e)
  | (w2, Halt) => (w2, Halt)
  end.
Proof.
  unfold onConnection. unfold bind at 1. rewrite generateConnectionId_spec.
  unfold bind. cbv zeta.
  destruct (checkConnectionLimits s _) as [w2 [[] | e | ]]; reflexivity.
Qed.

(** What the 'connection' listener does to the registry: nothing, or it
    adds the record of the new connection under the new identifier. *)
Lemma onConnection_connections s w :
  let id := (now w, S (connectionCounter (this w))) in
  let m := activeConnections (this w) in
  let m1 := activeConnections (this (fst (onConnection s w))) in
  (m1 = m \/ exists info info',
              m1 = JsMap.set connid_eqb id info' (JsMap.set connid_eqb id info m))
  /\ (Z.of_nat (connectionCount w) < maxConnections (config (this w))
      \/ state (this w) <> ACTIVE ->
      exists info info',
        m1 = JsMap.set connid_eqb id info' (JsMap.set connid_eqb id info m)).
Proof.
  intros id m m1. subst m1. rewrite onConnection_unfold. cbv zeta.
  set (w1 := set_this _ w).
  pose proof (frame_eq w1 (frame_checkConnectionLimits s)) as Hf.
  pose proof (checkConnectionLimits_admits s w1) as Ha.
  destruct (checkConnectionLimits s w1) as [w2 [[] | e | ]] eqn:E;
    cbn [fst snd] in *; cbv beta iota;
    assert (Hm : activeConnections (this w2) = m)
      by (change (c_connections (core w2) = m); rewrite Hf; reflexivity).
  - split; [left; exact Hm |]. intros H. specialize (Ha H). discriminate.
  - rewrite trackConnection_connections, Hm.
    split; [right | intros _]; do 2 eexists; reflexivity.
  - split; [left; exact Hm |]. intros H. specialize (Ha H). discriminate.
  - split; [left; exact Hm |]. intros H. specialize (Ha H). discriminate.
Qed.

Lemma core_new t0 listeners options :
  core (new_ShutdownCoordinator t0 listeners options)
  = {| c_config := merge_config options; c_state := ACTIVE;
       c_initiated := false; c_connections := [];
       c_counter := 0; c_server := None |}.
Proof.
  unfold new_ShutdownCoordinator.
  match goal with
  | |- core (fst (?m ?x)) = _ => rewrite (frame_eq x (frame_log _ _))
  end.
  reflexivity.
Qed.

(** Every coordinator that the host loop can produce holds generated
    identifiers only. *)
Lemma ids_generated_run t0 listeners options fuel evs :
  ids_generated (core (run fuel evs (new_ShutdownCoordinator t0 listeners options))).
Proof.
  apply (reach_ids_generated (reach_run fuel evs _)).
  rewrite core_new. intros id info H. discriminate.
Qed.

(** C9. Registering a connection and removing it at once is a round trip.
    In a coordinator whose registry holds generated identifiers only, the
    'connection' listener followed by [removeConnection] of the identifier
    it generated leaves the registry as it was before: the same records,
    hence the same size, and none under that identifier.  When the
    connection is admitted, the registry held one record more in
    between. *)
Theorem C9_register_remove_round_trip :
  forall (w : World) (s : Socket),
    ids_generated (core w) ->
    let id := (now w, S (connectionCounter (this w))) in
    let w1 := fst (onConnection s w) in
    let w2 := fst (removeConnection id w1) in
    activeConnections (this w2) = activeConnections (this w)
    /\ connectionCount w2 = connectionCount w
    /\ JsMap.get connid_eqb id (activeConnections (this w2)) = None
    /\ (Z.of_nat (connectionCount w) < maxConnections (config (this w))
        \/ state (this w) <> ACTIVE ->
        connectionCount w1 = S (connectionCount w)
        /\ JsMap.get connid_eqb id (activeConnections (this w1)) <> None).
Proof.
  intros w s Hgen id w1 w2.
  assert (Hfresh : JsMap.get connid_eqb id (activeConnections (this w)) = None).
  { destruct (JsMap.get connid_eqb id (activeConnections (this w))) as [i |] eqn:E;
      [| reflexivity].
    apply Hgen in E. cbn in E. lia. }
  destruct (onConnection_connections s w) as [H1 H2].
  fold id in H1, H2. fold w1 in H1, H2.
  assert (Hback : activeConnections (this w2) = activeConnections (this w)).
  { unfold w2. rewrite removeConnection_deletes.
    destruct H1 as [-> | (i & i' & ->)].
    - apply JsMap_delete_absent, Hfresh.
    - rewrite !JsMap_delete_set. apply JsMap_delete_absent, Hfresh. }
  split; [exact Hback |]. split; [| split].
  - unfold connectionCount. rewrite Hback. reflexivity.
  - rewrite Hback. exact Hfresh.
  - intros Hadm. destruct (H2 Hadm) as (i & i' & E). unfold connectionCount.
    rewrite E. split.
    + rewrite JsMap_set_size_present, JsMap_set_size_absent; auto.
      rewrite JsMap_get_set_same. discriminate.
    + rewrite JsMap_get_set_same. discriminate.
Qed.

Lemma C9_witness :
  ids_generated (core one_connection)
  /\ connectionCount
       (fst (removeConnection (now one_connection, S (connectionCounter (this one_connection)))
               (fst (onConnection (socket 2) one_connection))))
     = connectionCount one_connection.
Proof.
  assert (H : ids_generated (core one_connection)) by apply ids_generated_run.
  split; [exact H |].
  apply (C9_register_remove_round_trip one_connection (socket 2) H).
Defined.

(** C5. When the registry is empty at the moment the drain phase is
    entered, [drainConnections] is done at once and naturally: it returns
    normally, the sequence goes on with the next promise job, the clock
    has not moved, no timer was started (neither pending nor tracked), no
    listener for 'connection-removed' was attached, and all it did to the
    outside is one log entry, so no socket was destroyed. *)
Theorem C5_drain_empty_registry :
  forall (ctx : Ctx) (w : World),
    connectionCount w = 0%nat ->
    let w' := fst (drainConnections ctx w) in
    snd (drainConnections ctx w) = Normal tt
    /\ jobs w' = jobs w ++ [JAfterDrain ctx]
    /\ now w' = now w
    /\ pendingTimers w' = pendingTimers w
    /\ nextTimer w' = nextTimer w
    /\ drains w' = drains w
    /\ this w' = this w
    /\ trace w' = trace w ++ [ELog "info" "No active connections to drain"
                                (state (this w))].
Proof.
  intros ctx w H.
  unfold drainConnections, log, effect, enqueue, modify, bind, gets, ret.
  cbn. rewrite H. cbn. repeat split; reflexivity.
Qed.

Lemma C5_witness :
  connectionCount (new_ShutdownCoordinator 0 quiet no_options) = 0%nat
  /\ pendingTimers
       (fst (drainConnections {| ctx_signal := "SIGTERM"; ctx_error := None |}
               (new_ShutdownCoordinator 0 quiet no_options)))
     = pendingTimers (new_ShutdownCoordinator 0 quiet no_options).
Proof.
  assert (H : connectionCount (new_ShutdownCoordinator 0 quiet no_options) = 0%nat)
    by reflexivity.
  split; [exact H |].
  apply (C5_drain_empty_registry {| ctx_signal := "SIGTERM"; ctx_error := None |}
           (new_ShutdownCoordinator 0 quiet no_options) H).
Defined.

(** ** Rules for [finishes] and [contained] *)

Section Finishes.
Lemma finishes_ret {A} (a : A) P : finishes P (ret a) P.
Proof. intros w H. split; [eexists; reflexivity | exact H]. Qed.

Lemma finishes_gets {A} (f : World -> A) P : finishes P (gets f) P.
Proof. intros w H. split; [eexists; reflexivity | exact H]. Qed.

Lemma finishes_modify f (P Q : World -> Prop) :
  (forall w, P w -> Q (f w)) -> finishes P (modify f) Q.
Proof. intros Hf w H. split; [eexists; reflexivity | apply Hf, H]. Qed.

Lemma finishes_bind {A B} (m : M A) (k : A -> M B) P Q R :
  finishes P m Q -> (forall a, finishes Q (k a) R) -> finishes P (bind m k) R.
Proof.
  intros Hm Hk w H. destruct (Hm w H) as [[a Ha] Hq]. unfold bind.
  destruct (m w) as [w' r]. cbn in *. subst r. apply Hk, Hq.
Qed.

Lemma finishes_weaken {A} (m : M A) (P P' Q Q' : World -> Prop) :
  finishes P m Q -> (forall w, P' w -> P w) -> (forall w, Q w -> Q' w) ->
  finishes P' m Q'.
Proof.
  intros Hm HP HQ w H. destruct (Hm w (HP w H)) as [Ha Hq]. split; auto.
Qed.

Lemma finishes_when b m I : finishes I m I -> finishes I (when b m) I.
Proof. destruct b; simpl; auto using finishes_ret. Qed.

Lemma finishes_forEach {A} (f : A -> M unit) l I :
  (forall x, finishes I (f x) I) -> finishes I (forEach f l) I.
Proof.
  intros Hf. induction l as [| x r IH]; simpl.
  - apply finishes_ret.
  - eapply finishes_bind; [apply Hf | intros _; exact IH].
Qed.

Lemma contained_finishes {A} (m : M A) I : finishes I m I -> contained I m.
Proof.
  intros Hm w H. destruct (Hm w H) as [[a Ha] Hq]. split; [| exact Hq].
  rewrite Ha. discriminate.
Qed.

Lemma contained_throw {A} e I : contained I (@throw A e).
Proof. intros w H. split; [discriminate | exact H]. Qed.

Lemma contained_bind {A B} (m : M A) (k : A -> M B) I :
  contained I m -> (forall a, contained I (k a)) -> contained I (bind m k).
Proof.
  intros Hm Hk w H. destruct (Hm w H) as [Hh Hi]. unfold bind.
  destruct (m w) as [w' [a | e | ]]; cbn in *.
  - apply Hk, Hi.
  - split; [discriminate | exact Hi].
  - congruence.
Qed.

(** [try { m } catch { h }] returns when [m] cannot exit and [h] returns. *)
Lemma finishes_try_catch {A} (m : M A) h I :
  contained I m -> (forall e, finishes I (h e) I) -> finishes I (try_catch m h) I.
Proof.
  intros Hm Hh w H. destruct (Hm w H) as [Hn Hi]. unfold try_catch.
  destruct (m w) as [w' [a | e | ]]; cbn in *.
  - split; [eexists; reflexivity | exact Hi].
  - apply Hh, Hi.
  - congruence.
Qed.

(** ... and also when [m] itself returns. *)
Lemma finishes_try_normal {A} (m : M A) h P Q :
  finishes P m Q -> finishes P (try_catch m h) Q.
Proof.
  intros Hm w H. destruct (Hm w H) as [[a Ha] Hq]. unfold try_catch.
  destruct (m w) as [w' r]. cbn in *. subst r. split; [eexists; reflexivity | exact Hq].
Qed.
End Finishes.

Ltac finishes_step :=
  match goal with
  | |- finishes _ (if streq _ _ then _ else _) _ => decide_streq
  | |- finishes ?I (bind _ _) _ => apply (finishes_bind _ _ I I); [| intros ?]
  | |- finishes _ (ret _) _ => apply finishes_ret
  | |- finishes _ (gets _) _ => apply finishes_gets
  | |- finishes _ (when _ _) _ => apply finishes_when
  | |- finishes _ (forEach _ _) _ => apply finishes_forEach; intros ?
  | |- finishes _ (try_catch _ _) _ => apply finishes_try_catch; [| intros ?]
  | |- finishes _ (match ?x with _ => _ end) _ => destruct x
  | |- finishes _ (let (_, _) := ?x in _) _ => destruct x
  | |- contained _ (bind _ _) => apply contained_bind; [| intros ?]
  | |- contained _ (throw _) => apply contained_throw
  | |- contained _ (match ?x with _ => _ end) => destruct x
  | |- contained _ (ret _) => apply contained_finishes
  | |- contained _ (gets _) => apply contained_finishes
  | |- contained _ (modify _) => apply contained_finishes
  | |- contained _ (when _ _) => apply contained_finishes
  | |- contained _ (forEach _ _) => apply contained_finishes
  | |- contained _ (try_catch _ _) => apply contained_finishes
  end.

(** [settles_by leaf]: for a goal [finishes I m I]. *)
Ltac settles_by leaf :=
  repeat first
    [ finishes_step
    | match goal with
      | |- finishes _ (modify _) _ => apply finishes_modify; intros ? ?; leaf
      end
    | progress cbv beta
    | progress autounfold with model ].

Lemma performResourceCleanup_finishes ch :
  finishes (fun _ => True) (performResourceCleanup ch) released.
Proof.
  unfold performResourceCleanup.
  apply (finishes_bind _ _ _ (fun _ => True)); [settles_by leaf_simple | intros _].
  apply finishes_try_normal.
  apply (finishes_bind _ _ _ (fun _ => True)); [settles_by leaf_simple | intros ts].
  apply (finishes_bind _ _ _ (fun _ => True)); [settles_by leaf_simple | intros _].
  apply (finishes_bind _ _ _ timers_released);
    [apply finishes_modify; intros; reflexivity | intros _].
  apply (finishes_bind _ _ _ timers_released); [settles_by leaf_simple | intros ivs].
  apply (finishes_bind _ _ _ timers_released); [settles_by leaf_simple | intros _].
  apply (finishes_bind _ _ _ intervals_released);
    [apply finishes_modify; intros w' H; split; [exact H | reflexivity] | intros _].
  apply (finishes_bind _ _ _ intervals_released); [settles_by leaf_simple | intros ls].
  apply (finishes_bind _ _ _ intervals_released); [settles_by leaf_simple | intros _].
  apply (finishes_bind _ _ _ released);
    [apply finishes_modify; intros w' [H1 H2]; repeat split; assumption | intros _].
  settles_by leaf_simple.
Qed.

Lemma finishes_run {A} (m : M A) P Q w :
  finishes P m Q -> P w -> exists a w', m w = (w', Normal a) /\ Q w'.
Proof.
  intros Hm H. destruct (Hm w H) as [[a Ha] Hq].
  exists a, (fst (m w)). split; [| exact Hq].
  destruct (m w) as [w' r]. cbn in *. subst r. reflexivity.
Qed.

(** An event other than 'connection-removed' goes to the listeners of the
    host only. *)
Lemma emit_result ev p w :
  streq ev "connection-removed" = false ->
  emit ev p w
  = (set_trace (trace w ++ [EEmit ev p]) w,
     match userListeners w ev with Some e => Throw e | None => Normal tt end).
Proof.
  intros H. unfold emit, effect, modify, bind, gets, throw, ret. cbn.
  destruct (userListeners w ev); [reflexivity |]. rewrite H. reflexivity.
Qed.



(** The [catch] of a wrapper returns. *)
Lemma wrapper_catch_normal ch message e w :
  snd (run_job (JWrapperCatch ch message e) w) = Normal tt.
Proof.
  unfold run_job, job_body, callback_failed.
  erewrite bind_normal by (apply log_normal). reflexivity.
Qed.




(** ** The forced path *)

Lemma forEach_effects {A} (f : A -> M unit) (E : A -> Effect) I l :
  (forall x, finishes I (f x) I) ->
  (forall x w, In (E x) (trace (fst (f x w)))) ->
  (forall x y, preserves (fun w => In y (trace w)) (f x)) ->
  forall w, I w -> forall x, In x l -> In (E x) (trace (fst (forEach f l w))).
Proof.
  intros Hf HE Hp. induction l as [| a r IH]; intros w HI x Hx; [destruct Hx |].
  cbn [forEach].
  destruct (finishes_run _ _ _ w (Hf a) HI) as ([] & w' & Ea & HI').
  erewrite bind_normal by exact Ea.
  destruct Hx as [<- | Hx].
  - apply preserves_forEach; [intros; apply Hp |].
    specialize (HE a w). rewrite Ea in HE. exact HE.
  - apply IH; assumption.
Qed.

Lemma forceClose_one_destroys ci w :
  In (EDestroy (ci_socket ci)) (trace (fst (forceClose_one ci w))).
Proof.
  unfold forceClose_one, destroy, log, push_error, upd, effect, modify, bind, gets,
    try_catch, throw, ret. cbn.
  destruct (sock_destroy_fault (ci_socket ci)); cbn;
    destruct (negb (streq (logLevel (config (this w))) "debug")); cbn;
    auto 6 using in_or_app, in_eq, in_cons.
Qed.

Lemma bind_post {A B} (m : M A) (k : A -> M B) (P : World -> Prop) w :
  P (fst (m w)) -> (forall a, preserves P (k a)) -> P (fst (bind m k w)).
Proof.
  intros H Hk. unfold bind. destruct (m w) as [w' [a | e | ]]; cbn in *; auto.
  apply Hk, H.
Qed.

Lemma emit_keeps_trace ev p y : preserves (fun w => In y (trace w)) (emit ev p).
Proof. preserves_by leaf_in_trace. Qed.

Lemma log_logs l m w :
  streq l "debug" = false ->
  log l m w = (set_trace (trace w ++ [ELog l m (state (this w))]) w, Normal tt).
Proof.
  intros H. unfold log, effect, modify, bind, gets. cbn. rewrite H. reflexivity.
Qed.

(** [forceCloseConnections] calls [destroy] on every tracked socket and
    empties the registry, also when a [destroy] throws. *)
Lemma forceCloseConnections_spec w :
  let w' := fst (forceCloseConnections w) in
  activeConnections (this w') = []
  /\ forall ci, In ci (JsMap.values (activeConnections (this w))) ->
                In (EDestroy (ci_socket ci)) (trace w').
Proof.
  unfold forceCloseConnections.
  erewrite bind_normal by reflexivity.
  erewrite bind_normal by (apply log_logs; reflexivity).
  set (l := JsMap.values (activeConnections (this w))).
  set (w1 := set_trace _ w).
  assert (Hf : forall x, finishes (fun _ => True) (forceClose_one x) (fun _ => True))
    by (intros x; unfold forceClose_one; settles_by leaf_simple).
  destruct (finishes_run _ _ _ w1 (finishes_forEach forceClose_one l _ Hf) I)
    as ([] & w2 & E2 & _).
  change (forEach _ l) with (forEach forceClose_one l).
  erewrite bind_normal by exact E2.
  erewrite bind_normal by reflexivity.
  cbv zeta. split.
  - match goal with
    | |- activeConnections (this (fst (?m ?x))) = _ =>
        change (c_connections (core (fst (m x))) = []);
        rewrite (frame_eq x (frame_emit _ _))
    end.
    reflexivity.
  - intros ci Hci. apply emit_keeps_trace. cbn.
    pose proof (forEach_effects forceClose_one (fun ci => EDestroy (ci_socket ci))
                  (fun _ => True) l Hf forceClose_one_destroys) as He.
    specialize (He (fun x y => ltac:(unfold forceClose_one; preserves_by leaf_in_trace))
                  w1 I ci Hci).
    rewrite E2 in He. exact He.
Qed.

Lemma forceCloseConnections_keeps_trace y :
  preserves (fun w => In y (trace w)) forceCloseConnections.
Proof. preserves_by leaf_in_trace. Qed.

(** What [forceShutdown] does in every case. *)
Lemma forceShutdown_forces code w :
  let w' := fst (forceShutdown code w) in
  activeConnections (this w') = []
  /\ (forall ci, In ci (JsMap.values (activeConnections (this w))) ->
                 In (EDestroy (ci_socket ci)) (trace w'))
  /\ In (ELog "warn" "Forcing immediate shutdown" (state (this w))) (trace w').
Proof.
  unfold forceShutdown.
  erewrite bind_normal by (apply log_logs; reflexivity).
  set (w1 := set_trace _ w).
  destruct (forceCloseConnections_spec w1) as [Hc Hd].
  cbv zeta. repeat split.
  - apply (bind_post _ _ (fun x => activeConnections (this x) = [])); [exact Hc |].
    intros a. preserves_by leaf_simple.
  - intros ci Hci.
    apply (bind_post _ _ (fun x => In (EDestroy (ci_socket ci)) (trace x)));
      [apply Hd, Hci |].
    intros a. preserves_by leaf_in_trace.
  - apply (bind_post _ _ (fun x => In (ELog "warn" "Forcing immediate shutdown"
                                         (state (this w))) (trace x))).
    + apply forceCloseConnections_keeps_trace. cbn.
      apply in_or_app. right. left. reflexivity.
    + intros a. preserves_by leaf_in_trace.
Qed.

Ltac leaf_steady :=
  unfold steady in *; cbn in *;
  repeat match goal with
         | |- context [if ?b then _ else _] => destruct b
         end;
  cbn in *; intuition auto.

Lemma emit_quiet ev p w0 :
  streq ev "connection-removed" = false ->
  userListeners w0 ev = None ->
  finishes (steady w0) (emit ev p) (steady w0).
Proof.
  intros Hev Hq w H. rewrite emit_result by exact Hev.
  assert (E : userListeners w ev = None).
  { destruct H as [-> _]. exact Hq. }
  rewrite E. cbn. split; [eexists; reflexivity | leaf_steady].
Qed.

Lemma forceCloseConnections_quiet w0 :
  userListeners w0 "connections-force-closed" = None ->
  finishes (steady w0) forceCloseConnections (steady w0).
Proof.
  intros Hq. unfold forceCloseConnections.
  apply (finishes_bind _ _ _ (steady w0)); [settles_by leaf_steady | intros l].
  apply (finishes_bind _ _ _ (steady w0)); [settles_by leaf_steady | intros _].
  apply (finishes_bind _ _ _ (steady w0)); [settles_by leaf_steady | intros _].
  apply (finishes_bind _ _ _ (steady w0)); [settles_by leaf_steady | intros _].
  apply emit_quiet; [reflexivity | exact Hq].
Qed.

Lemma clearTimeout_clears t w : In (EClearTimeout t) (trace (fst (clearTimeout t w))).
Proof. cbn. apply in_or_app. right. left. reflexivity. Qed.

Lemma clearInterval_clears t w : In (EClearInterval t) (trace (fst (clearInterval t w))).
Proof. cbn. apply in_or_app. right. left. reflexivity. Qed.

(** What [forceShutdown] does when those listeners do not throw. *)
Lemma forceShutdown_completes code w :
  quiet_forced w ->
  let w' := fst (forceShutdown code w) in
  snd (forceShutdown code w) = Normal tt
  /\ (forall t, In t (timers (this w)) -> In (EClearTimeout t) (trace w'))
  /\ (forall t, In t (intervals (this w)) -> In (EClearInterval t) (trace w'))
  /\ In (EEmit "force-shutdown" (PExitCode code)) (trace w')
  /\ exists t, In {| pt_id := t; pt_deadline := now w + 100;
                     pt_action := TForceExit code |} (pendingTimers w').
Proof.
  intros [Hq1 Hq2].
  assert (H0 : steady w w) by (repeat split).
  assert (Hlog : finishes (steady w) (log "warn" "Forcing immediate shutdown") (steady w))
    by settles_by leaf_steady.
  assert (Hct : forall l, finishes (steady w) (forEach clearTimeout l) (steady w))
    by (intros l; settles_by leaf_steady).
  assert (Hci : forall l, finishes (steady w) (forEach clearInterval l) (steady w))
    by (intros l; settles_by leaf_steady).
  unfold forceShutdown.
  destruct (finishes_run _ _ _ w Hlog H0) as ([] & w1 & E1 & H1).
  destruct (finishes_run _ _ _ w1 (forceCloseConnections_quiet w Hq1) H1)
    as ([] & w2 & E2 & H2).
  destruct (finishes_run _ _ _ w2 (Hct (timers (this w2))) H2) as ([] & w3 & E3 & H3).
  destruct (finishes_run _ _ _ w3 (Hci (intervals (this w3))) H3) as ([] & w4 & E4 & H4).
  destruct (finishes_run _ _ _ w4 (emit_quiet "force-shutdown" (PExitCode code) w
                                     eq_refl Hq2) H4) as ([] & w5 & E5 & H5).
  erewrite bind_normal by exact E1.
  erewrite bind_normal by exact E2.
  erewrite bind_normal by reflexivity.
  erewrite bind_normal by exact E3.
  erewrite bind_normal by reflexivity.
  erewrite bind_normal by exact E4.
  erewrite bind_normal by exact E5.
  erewrite bind_normal by reflexivity.
  cbn [fst snd ret].
  assert (T3 : forall t, In t (timers (this w)) -> In (EClearTimeout t) (trace w3)).
  { intros t Ht.
    pose proof (forEach_effects clearTimeout EClearTimeout (fun _ => True)
                  (timers (this w2))
                  ltac:(intros x; settles_by leaf_simple) clearTimeout_clears
                  ltac:(intros x y; preserves_by leaf_in_trace) w2 I t) as He.
    rewrite E3 in He. apply He. destruct H2 as (_ & _ & -> & _). exact Ht. }
  assert (T4 : forall y, In y (trace w3) -> In y (trace w4)).
  { intros y Hy.
    assert (Hp : preserves (fun x => In y (trace x)) (forEach clearInterval (intervals (this w3))))
      by preserves_by leaf_in_trace.
    specialize (Hp w3 Hy). rewrite E4 in Hp. exact Hp. }
  assert (I4 : forall t, In t (intervals (this w)) -> In (EClearInterval t) (trace w4)).
  { intros t Ht.
    pose proof (forEach_effects clearInterval EClearInterval (fun _ => True)
                  (intervals (this w3))
                  ltac:(intros x; settles_by leaf_simple) clearInterval_clears
                  ltac:(intros x y; preserves_by leaf_in_trace) w3 I t) as He.
    rewrite E4 in He. apply He. destruct H3 as (_ & _ & _ & ->). exact Ht. }
  assert (T5 : trace w5 = trace w4 ++ [EEmit "force-shutdown" (PExitCode code)]
               /\ pendingTimers w5 = pendingTimers w4 /\ now w5 = now w4).
  { rewrite emit_result in E5 by reflexivity. inversion E5. repeat split. }
  destruct T5 as (T5 & P5 & N5).
  cbn. rewrite T5. repeat split.
  - intros t Ht. apply in_or_app. left. apply in_or_app. left. apply T4, T3, Ht.
  - intros t Ht. apply in_or_app. left. apply in_or_app. left. apply I4, Ht.
  - apply in_or_app. left. apply in_or_app. right. left. reflexivity.
  - exists (nextTimer w5). apply in_or_app. right. left.
    rewrite N5. destruct H4 as (_ & -> & _). reflexivity.
Qed.

Lemma forceShutdown_keeps_error code e :
  preserves (fun w => In e (shutdownErrors (this w))) (forceShutdown code).
Proof. preserves_by leaf_in_trace. Qed.

Lemma detached_post (m : M unit) (P : World -> Prop) w :
  P (fst (m w)) ->
  (forall x l, P x -> P (set_rejections l x)) ->
  P (fst (detached m w)).
Proof.
  intros H Hr. unfold detached, try_catch.
  destruct (m w) as [w' [[] | e | ]]; cbn in *; auto.
Qed.

Lemma handleSignal_catch_forces e w : forced_by e w (fst (handleSignal_catch e w)).
Proof.
  unfold handleSignal_catch.
  erewrite bind_normal by (apply log_logs; reflexivity).
  erewrite bind_normal by reflexivity.
  match goal with |- forced_by _ _ (fst (_ ?x)) => set (w1 := x) end.
  destruct (forceShutdown_forces EXIT_CODES.SIGNAL_ERROR w1) as (Hc & Hd & Hl).
  repeat split.
  - apply forceShutdown_keeps_error. cbn. apply in_or_app. right. left. reflexivity.
  - exact Hl.
  - exact Hc.
  - exact Hd.
  - apply (forceShutdown_completes EXIT_CODES.SIGNAL_ERROR w1 H).
  - apply (forceShutdown_completes EXIT_CODES.SIGNAL_ERROR w1 H).
  - apply (forceShutdown_completes EXIT_CODES.SIGNAL_ERROR w1 H).
  - apply (forceShutdown_completes EXIT_CODES.SIGNAL_ERROR w1 H).
Qed.

Lemma forced_by_rejections e w w' l :
  forced_by e w w' -> forced_by e w (set_rejections l w').
Proof. intros H. exact H. Qed.

(** A listener of 'shutdown-initiated' that throws sends [handleSignal]
    into its [catch] at once. *)
Lemma handleSignal_listener_fault signal error e w :
  shutdownInitiated (this w) = false ->
  userListeners w "shutdown-initiated" = Some e ->
  exists w', handleSignal signal error w = handleSignal_catch e w'.
Proof.
  intros Hi Hl. unfold handleSignal.
  erewrite bind_normal by reflexivity. rewrite Hi.
  erewrite bind_normal by (apply log_logs; reflexivity).
  erewrite bind_normal by reflexivity.
  erewrite bind_normal by reflexivity.
  erewrite bind_normal by reflexivity.
  erewrite bind_normal by reflexivity.
  unfold try_catch. unfold bind at 1.
  rewrite emit_result by reflexivity. cbn [userListeners set_this set_trace].
  rewrite Hl. eexists. reflexivity.
Qed.

Lemma nth_error_last {A} (l : list A) (x : A) :
  nth_error (l ++ [x]) (List.length l) = Some x.
Proof.
  rewrite nth_error_app2 by apply Nat.le_refl.
  rewrite Nat.sub_diag. reflexivity.
Qed.

(** A fault in the executor of the stop promise ([server.close] throws,
    or a listener of 'server-closed' does) rejects the promise, and the
    rejection is queued for the [catch] of [handleSignal]. *)
Lemma stopAcceptingConnections_fault ctx srv e w :
  server (this w) = Some srv ->
  srv_close_fault srv = Some e
  \/ (srv_close_fault srv = None /\ userListeners w "server-closed" = Some e) ->
  snd (stopAcceptingConnections ctx w) = Normal tt
  /\ jobs (fst (stopAcceptingConnections ctx w))
     = jobs w ++ [JTick 2 (JCatch (Main ctx) e)].
Proof.
  intros Hs Hf.
  assert (E : exists x,
             stopAcceptingConnections ctx w
             = settle_stop_with (List.length (stops w)) 3
                 (fun ctx0 => JCatch (Main ctx0) e) x
             /\ stops x = stops w ++ [{| sp_server := srv_id srv; sp_ctx := ctx;
                                         sp_called := false; sp_settled := false |}]
             /\ jobs x = jobs w).
  { unfold stopAcceptingConnections.
    erewrite bind_normal by reflexivity. rewrite Hs.
    erewrite bind_normal by reflexivity.
    erewrite bind_normal by reflexivity.
    unfold try_catch.
    erewrite bind_normal by (apply log_logs; reflexivity).
    unfold server_close.
    rewrite bind_assoc. erewrite bind_normal by reflexivity.
    destruct Hf as [Hc | [Hc Hl]]; rewrite Hc.
    - eexists. split; [reflexivity |]. split; reflexivity.
    - unfold bind at 1. cbn [ret]. rewrite emit_result by reflexivity.
      cbn [userListeners set_trace set_stops]. rewrite Hl.
      eexists. split; [reflexivity |]. split; reflexivity. }
  destruct E as (x & -> & Hx & Hj).
  unfold settle_stop_with.
  erewrite bind_normal by reflexivity.
  rewrite Hx, nth_error_last. cbn. rewrite Hj. split; reflexivity.
Qed.

(** The path that works: a fault in the chain that [handleSignal] awaits.
    When the body of a promise job of the Main chain throws [e], the job
    queues the [catch] of [handleSignal] for [e]; so does a fault in the
    executor of the stop promise; a throwing listener of
    'shutdown-initiated' enters the [catch] at once.  That [catch], in
    whatever world it runs, records [e] and calls [forceShutdown]: every
    tracked socket is destroyed and the registry emptied; and, unless a
    listener of the two events of the forced path throws in turn, every
    tracked timer and interval is cleared, 'force-shutdown' goes out with
    status 3 and the exit with status 3 is set 100 ms ahead. *)
Lemma main_chain_fault_forces :
  forall (j : Job) (ctx : Ctx) (e : JsError) (w w1 : World),
    job_chain j = Main ctx ->
    is_catch j = false ->
    job_body j w = (w1, Throw e) ->
    run_job j w = later (catch_after j) (JCatch (Main ctx) e) w1
    /\ (forall w2, forced_by e w2 (fst (run_job (JCatch (Main ctx) e) w2)))
    /\ (forall srv w0,
          server (this w0) = Some srv ->
          srv_close_fault srv = Some e
          \/ (srv_close_fault srv = None
              /\ userListeners w0 "server-closed" = Some e) ->
          jobs (fst (stopAcceptingConnections ctx w0))
          = jobs w0 ++ [JTick 2 (JCatch (Main ctx) e)])
    /\ (forall signal error w0,
          shutdownInitiated (this w0) = false ->
          userListeners w0 "shutdown-initiated" = Some e ->
          exists w0', handleSignal signal error w0 = handleSignal_catch e w0').
Proof.
  intros j ctx e w w1 Hch Hnc Hb. split; [| split; [| split]].
  - destruct j; try discriminate Hnc;
      try solve [unfold run_job, try_catch; rewrite Hb; rewrite Hch; reflexivity].
    match goal with
    | H : job_body (JWrapperCatch ?c ?m ?x) _ = _ |- _ =>
        pose proof (wrapper_catch_normal c m x w) as Hn
    end.
    unfold run_job in Hn. rewrite Hb in Hn. discriminate Hn.
  - intros w2. cbn [run_job job_body].
    apply detached_post; [apply handleSignal_catch_forces |].
    intros x l H. exact H.
  - intros srv w0 Hs Hf.
    apply (stopAcceptingConnections_fault ctx srv e w0 Hs Hf).
  - intros signal error w0. apply handleSignal_listener_fault.
Qed.

(** C6 (the code departs from it).  The [try]/[catch] of [handleSignal]
    covers the chain that [handleSignal] awaits and nothing else.  Three
    runs, each with one listener of the host that throws after SIGTERM has
    passed the guard.
    The grace timer fires with a connection open and the listener of
    'connections-force-closed' throws: the fault leaves the timer callback,
    comes back as an uncaught exception and is ignored by the guard; nothing
    is recorded, [forceShutdown] is never called, the drain promise never
    resolves, and with no job and no timer left the process has not exited.
    The last connection closes in time and the listener of
    'cleanup-started' throws in [transitionToCleanup]: nothing is recorded,
    [forceShutdown] is never called, and the process exits with status 0.
    The same with the listener of 'cleanup-completed': the [.catch] of
    [transitionToCleanup] forces the shutdown with status 2, and the process
    exits with 2, not 3. *)
Theorem C6_faults_escape_the_top_level_catch :
  let a := run 64 connection_stays_open
             (new_ShutdownCoordinator 0 (fault_on "connections-force-closed") (grace 100)) in
  let b := run 64 connection_closes_in_time
             (new_ShutdownCoordinator 0 (fault_on "cleanup-started") (grace 100)) in
  let c := run 64 connection_closes_in_time
             (new_ShutdownCoordinator 0 (fault_on "cleanup-completed") (grace 100)) in
  (emitted "shutdown-initiated" (trace a) = 1%nat
   /\ In (EEmit "connections-force-closed" (PCount 1)) (trace a)
   /\ logged "Received UNCAUGHT_EXCEPTION signal during shutdown, ignoring" (trace a)
      = 1%nat
   /\ shutdownErrors (this a) = []
   /\ logged "Forcing immediate shutdown" (trace a) = 0%nat
   /\ state (this a) = DRAINING
   /\ jobs a = []
   /\ pendingTimers a = []
   /\ now a = 100000
   /\ halted a = None)
  /\ (In (EEmit "cleanup-started" PNone) (trace b)
      /\ shutdownErrors (this b) = []
      /\ logged "Forcing immediate shutdown" (trace b) = 0%nat
      /\ halted b = Some (Exited EXIT_CODES.GRACEFUL))
  /\ (In (EEmit "cleanup-completed" PNone) (trace c)
      /\ In (EEmit "force-shutdown" (PExitCode EXIT_CODES.RESOURCE_CLEANUP_FAILED))
           (trace c)
      /\ halted c = Some (Exited EXIT_CODES.RESOURCE_CLEANUP_FAILED)
      /\ halted c <> Some (Exited EXIT_CODES.SIGNAL_ERROR)).
Proof.
  vm_compute. repeat split; try reflexivity; try discriminate; auto 80.
Qed.

(** ** Runs of the whole sequence *)

(** A trigger that comes after the guard has been passed only logs that
    it is ignored. *)
Lemma handleSignal_ignored signal error w :
  shutdownInitiated (this w) = true ->
  handleSignal signal error w
  = log "warn" ("Received " +++ signal +++ " signal during shutdown, ignoring") w.
Proof.
  intros H. unfold handleSignal.
  erewrite bind_normal by reflexivity. rewrite H. reflexivity.
Qed.

(** And the guard, once passed, stays passed in every run. *)
Lemma guard_stays_passed fuel evs w :
  shutdownInitiated (this w) = true ->
  shutdownInitiated (this (run fuel evs w)) = true.
Proof. exact (reach_initiated (reach_run fuel evs w)). Qed.

(** C1 (the code departs from it).  One trigger, and the last connection
    closing during the drain: [removeConnection] starts the cleanup through
    [transitionToCleanup], and [executeShutdownSequence] runs the same
    phases again when the drain promise resolves.  'shutdown-initiated'
    goes out once, but the cleanup phase begins twice and ends twice, the
    resource-cleanup callback and the shutdown callback are called twice
    each, before the process exits. *)
Theorem C1_phases_run_twice :
  let w := run 64 last_connection_closes
             (new_ShutdownCoordinator 0 quiet (grace 100)) in
  emitted "shutdown-initiated" (trace w) = 1%nat
  /\ logged "Starting resource cleanup" (trace w) = 2%nat
  /\ emitted "cleanup-completed" (trace w) = 2%nat
  /\ calls 1 (trace w) = 2%nat
  /\ logged "Executing shutdown callbacks" (trace w) = 2%nat
  /\ calls 2 (trace w) = 2%nat
  /\ halted w = Some (Exited 0).
Proof. vm_compute. repeat split; reflexivity. Qed.

(** [completeShutdown] chooses the status TIMEOUT only when an error named
    'TimeoutError' has been recorded. *)
Lemma exitCode_TIMEOUT_needs_TimeoutError error errors :
  exitCode_of error errors = EXIT_CODES.TIMEOUT ->
  existsb (fun err => streq (err_name err) "TimeoutError") errors = true.
Proof.
  unfold exitCode_of.
  destruct (is_some error || Nat.ltb 0 (List.length errors));
    [ destruct (existsb _ errors); [reflexivity | discriminate] | discriminate ].
Qed.

(** C2 (the code departs from it).  In the scenario of the claim the grace
    timer fires at 1100 and the third socket is destroyed, the registry
    is empty and the summary reports no connection left; but no error was
    recorded on the way, so [completeShutdown] chooses exit status 0,
    not 1. *)
Theorem C2_forced_drain_exits_with_0 :
  let w := run 64 grace_period_expires
             (new_ShutdownCoordinator 0 quiet (grace 100)) in
  In (EDestroy (socket 3)) (trace w)
  /\ In (EEmit "connections-force-closed" (PCount 1)) (trace w)
  /\ logged "Grace period expired, forcing connection termination" (trace w) = 1%nat
  /\ connectionCount w = 0%nat
  /\ In (EEmit "shutdown-completed"
           (PSummary {| sum_signal := "SIGTERM"; sum_duration := 100;
                        sum_errorsEncountered := 0;
                        sum_finalConnectionCount := 0 |} 0)) (trace w)
  /\ now w = 1100
  /\ halted w = Some (Exited EXIT_CODES.GRACEFUL)
  /\ halted w <> Some (Exited EXIT_CODES.TIMEOUT).
Proof.
  vm_compute. repeat split; try reflexivity; try discriminate; auto 60.
Qed.

(** C3 (the code departs from it).  With nothing to drain, the state is
    still SHUTDOWN_PENDING when the resource cleanup begins, and the run
    never passes through CLEANUP (nor through DRAINING): the sequence goes
    from SHUTDOWN_PENDING to TERMINATION.  After a forced drain the
    cleanup begins in DRAINING. *)
Theorem C3_cleanup_begins_outside_CLEANUP :
  let w := run 64 nothing_to_drain
             (new_ShutdownCoordinator 0 quiet (grace 100)) in
  let w' := run 64 grace_period_expires
              (new_ShutdownCoordinator 0 quiet (grace 100)) in
  In (ELog "info" "Starting resource cleanup" SHUTDOWN_PENDING) (trace w)
  /\ logged "Starting resource cleanup" (trace w) = 1%nat
  /\ existsb (logged_in CLEANUP) (trace w) = false
  /\ existsb (logged_in DRAINING) (trace w) = false
  /\ state (this w) = TERMINATION
  /\ In (ELog "info" "Starting resource cleanup" DRAINING) (trace w')
  /\ existsb (logged_in CLEANUP) (trace w') = false.
Proof.
  vm_compute. repeat split; auto 60.
Qed.

(** * Further properties of the module *)

(** ** Invariants of a run *)

Lemma next_due_In t l p : next_due t l = Some p -> In p l.
Proof.
  revert p. induction l as [| q r IH]; intros p; simpl; [discriminate |].
  destruct (next_due t r) as [q' |].
  - destruct ((pt_deadline q <=? t) && (pt_deadline q <=? pt_deadline q')).
    + intros H. inversion H. left. reflexivity.
    + intros H. right. apply IH. exact H.
  - destruct (pt_deadline q <=? t); [| discriminate].
    intros H. inversion H. left. reflexivity.
Qed.

Section RunInvariant.

Variable I : World -> Prop.

Hypothesis Hhost : host_stable I.

Hypothesis Hdispatch : forall ev, preserves I (dispatch ev).

Hypothesis Hfire :
  forall w p, In p (pendingTimers w) -> I w -> I (fst (fire (pt_action p) (due p w))).

Hypothesis Hjob : forall j, preserves I (run_job j).

Hypothesis Hexception : forall e, preserves I (onUncaughtException e).

Hypothesis Hrejection : forall e, preserves I (onUnhandledRejection e).

Lemma inv_uncaught e w : I w -> I (uncaught e w).
Proof.
  intros H. unfold uncaught. destruct (Nat.eqb _ 0).
  - apply (Hhost _ _ (hm_crash w e) H).
  - apply Hexception, H.
Qed.

Lemma inv_unhandled e w : I w -> I (unhandled e w).
Proof.
  intros H. unfold unhandled. destruct (Nat.eqb _ 0).
  - apply (Hhost _ _ (hm_crash w e) H).
  - apply Hrejection, H.
Qed.

Lemma inv_settle fuel w : I w -> I (settle fuel w).
Proof.
  revert w. induction fuel as [| fuel IH]; intros w H; simpl; [exact H |].
  destruct (is_halted w); [exact H |].
  destruct (jobs w) as [| j js].
  - destruct (rejections w) as [| e es]; [exact H |].
    apply IH, inv_unhandled. apply (Hhost _ _ (hm_rejections w es) H).
  - apply IH, Hjob. apply (Hhost _ _ (hm_jobs w js) H).
Qed.

Lemma inv_turn fuel (m : M unit) w :
  I w -> I (fst (m w)) -> I (turn fuel m w).
Proof.
  intros H Hm. unfold turn. destruct (is_halted w); [exact H |].
  destruct (m w) as [w' [[] | e | ]]; cbn in Hm.
  - apply inv_settle, Hm.
  - apply inv_settle, inv_uncaught, Hm.
  - apply inv_settle, Hm.
Qed.

Lemma inv_advance fuel t w : I w -> I (advance fuel t w).
Proof.
  revert w. induction fuel as [| fuel IH]; intros w H; [exact H |].
  cbn [advance].
  destruct (is_halted w); [exact H |].
  destruct (next_due t (pendingTimers w)) as [p |] eqn:E; [| exact H].
  apply IH.
  pose proof (Hhost _ _ (hm_timer w (pt_id p)) H) as H1.
  set (w1 := set_pendingTimers _ w) in *.
  pose proof (Hhost _ _ (hm_clock w1 (pt_deadline p)) H1) as H2.
  apply inv_turn; [exact H2 |].
  apply (Hfire w p (next_due_In _ _ _ E) H).
Qed.

Lemma inv_step fuel w tev : I w -> I (step fuel w tev).
Proof.
  intros H. unfold step.
  pose proof (inv_advance fuel (fst tev) w H) as H1.
  destruct (is_halted _); [exact H1 |].
  pose proof (Hhost _ _ (hm_clock _ (fst tev)) H1) as H2.
  apply inv_turn; [exact H2 |].
  apply Hdispatch, H2.
Qed.

(** An invariant of the code of the coordinator that the moves of the
    host keep is an invariant of every run. *)

Lemma run_invariant fuel evs w : I w -> I (run fuel evs w).
Proof.
  revert w. induction evs as [| tev evs IH]; intros w H; simpl; [exact H |].
  apply IH, inv_step, H.
Qed.

End RunInvariant.

Lemma run_invariant_reactions (I : World -> Prop) :
  host_stable I -> reactions I ->
  (forall w p, In p (pendingTimers w) -> I w -> I (fst (fire (pt_action p) (due p w)))) ->
  forall fuel evs w, I w -> I (run fuel evs w).
Proof.
  intros Hh (Hd & Hj & He & Hr) Hf. apply run_invariant; auto.
Qed.

Lemma fire_any (I : World -> Prop) :
  host_stable I -> (forall a, preserves I (fire a)) ->
  forall w p, In p (pendingTimers w) -> I w -> I (fst (fire (pt_action p) (due p w))).
Proof.
  intros Hh Hf w p _ H. apply Hf. unfold due.
  apply (Hh _ _ (hm_clock _ _)). apply (Hh _ _ (hm_timer _ _)). exact H.
Qed.

(** Take [preserves I m] apart from the top: [known] closes the methods
    that have a lemma of their own, [leaf] the updates of the world; a
    method that has none is replaced by its body. *)

Ltac head_of t :=
  match t with
  | ?f _ => head_of f
  | _ => t
  end.

Ltac unfold_head :=
  match goal with
  | |- preserves _ ?m => let h := head_of m in progress unfold h
  end.

Ltac preserves_with known leaf :=
  repeat first
    [ solve [known]
    | preserves_step
    | match goal with
      | |- preserves _ (modify _) => apply preserves_modify; intros ? ?; leaf
      end
    | progress cbv beta zeta
    | unfold_head ].

Ltac reactions_with known leaf :=
  split; [| split; [| split]];
  [ intros ev; destruct ev; preserves_with known leaf
  | intros j; destruct j as [? | ? | ? ? ? | [?|] | [?|] | [?|] | [?|] | [?|] ? | ? ?];
    preserves_with known leaf
  | intros e; preserves_with known leaf
  | intros e; preserves_with known leaf ].

Ltac methods_with known leaf :=
  split;
  [ reactions_with known leaf
  | intros a; destruct a; preserves_with known leaf ].

(** ** The log level *)

Lemma quiet_log_log L l m :
  streq L "debug" = false -> preserves (quiet_log L) (log l m).
Proof.
  intros HL w [Hc Ht]. unfold log, effect, modify, bind, gets, ret. cbn.
  rewrite Hc, HL. cbn. rewrite andb_true_r.
  destruct (streq l "debug") eqn:E; cbn; [split; assumption |].
  split; [exact Hc |]. cbn. rewrite existsb_app, Ht. cbn. rewrite E. reflexivity.
Qed.

Ltac leaf_quiet_log :=
  idtac; unfold quiet_log in *; cbn in *;
  repeat match goal with
         | |- context [if ?b then _ else _] => destruct b
         | |- context [match ?x with _ => _ end] => destruct x
         end;
  cbn in *; rewrite ?existsb_app; cbn;
  repeat match goal with H : _ /\ _ |- _ => destruct H end;
  repeat split; try assumption;
  repeat match goal with H : existsb is_debug _ = false |- _ => rewrite H end;
  try reflexivity; auto.

Section QuietLog.

Variable L : string.

Hypothesis HL : streq L "debug" = false.

Ltac known_quiet_log0 :=
  idtac; match goal with
  | |- preserves _ (log _ _) => apply quiet_log_log; exact HL
  end.

Lemma quiet_log_removeConnection id : preserves (quiet_log L) (removeConnection id).
Proof. preserves_with known_quiet_log0 leaf_quiet_log. Qed.

Lemma quiet_log_forceShutdown code : preserves (quiet_log L) (forceShutdown code).
Proof. preserves_with known_quiet_log0 leaf_quiet_log. Qed.

Ltac known_quiet_log1 :=
  idtac; match goal with
  | |- preserves _ (log _ _) => apply quiet_log_log; exact HL
  | |- preserves _ (removeConnection _) => apply quiet_log_removeConnection
  | |- preserves _ (forceShutdown _) => apply quiet_log_forceShutdown
  end.

Lemma quiet_log_handleSignal sig e : preserves (quiet_log L) (handleSignal sig e).
Proof. preserves_with known_quiet_log1 leaf_quiet_log. Qed.

Ltac known_quiet_log :=
  idtac; match goal with
  | |- preserves _ (log _ _) => apply quiet_log_log; exact HL
  | |- preserves _ (removeConnection _) => apply quiet_log_removeConnection
  | |- preserves _ (forceShutdown _) => apply quiet_log_forceShutdown
  | |- preserves _ (handleSignal _ _) => apply quiet_log_handleSignal
  end.

Lemma quiet_log_methods : all_methods (quiet_log L).
Proof.
  unfold all_methods.
  methods_with known_quiet_log leaf_quiet_log.
Qed.

End QuietLog.

Lemma run_invariant_methods (I : World -> Prop) :
  host_stable I -> all_methods I ->
  forall fuel evs w, I w -> I (run fuel evs w).
Proof.
  intros Hh ((Hd & Hj & He & Hr) & Hf).
  apply run_invariant; auto. apply fire_any; assumption.
Qed.

Lemma quiet_log_host L : host_stable (quiet_log L).
Proof. intros w w' Hm H. destruct Hm; exact H. Qed.

Lemma quiet_log_new t0 listeners options :
  quiet_log (logLevel (merge_config options))
    (new_ShutdownCoordinator t0 listeners options).
Proof. split; reflexivity. Qed.

(** X2.  Debug entries need the log level 'debug': under any other configured
    level no run of the coordinator writes one.  The level silences nothing
    else: an entry of any other level is written whatever [logLevel] is. *)
Theorem X2_debug_entries_need_debug_level :
  forall (t0 : Z) (listeners : string -> option JsError) (options : Options)
         (fuel : nat) (evs : list (Z * Event)),
    streq (logLevel (merge_config options)) "debug" = false ->
    existsb is_debug (trace (run fuel evs (new_ShutdownCoordinator t0 listeners options)))
    = false
    /\ forall level message w,
         streq level "debug" = false ->
         log level message w
         = (set_trace (trace w ++ [ELog level message (state (this w))]) w, Normal tt).
Proof.
  intros t0 listeners options fuel evs HL. split.
  - apply (run_invariant_methods _ (quiet_log_host _) (quiet_log_methods _ HL)
             fuel evs _ (quiet_log_new t0 listeners options)).
  - intros level message w H. apply log_logs, H.
Qed.

Lemma X2_witness :
  existsb is_debug
    (trace (run 64 nothing_to_drain (new_ShutdownCoordinator 0 quiet no_options)))
  = false.
Proof.
  exact (proj1 (X2_debug_entries_need_debug_level 0 quiet no_options 64 nothing_to_drain
                  eq_refl)).
Defined.

(** ** Timestamps *)

Lemma in_order_later t t' kv : t <= t' -> in_order t kv -> in_order t' kv.
Proof. unfold in_order. lia. Qed.

Lemma Forall_in_order_later t t' m :
  t <= t' -> Forall (in_order t) m -> Forall (in_order t') m.
Proof.
  intros Ht H. eapply Forall_impl; [| exact H].
  intros kv. apply in_order_later, Ht.
Qed.

Lemma Forall_JsMap_set (P : ConnId * ConnectionInfo -> Prop) id v m :
  P (id, v) -> Forall P m -> Forall P (JsMap.set connid_eqb id v m).
Proof.
  intros Hv H. induction H as [| [k x] r Hx Hr IH]; simpl.
  - constructor; [exact Hv | constructor].
  - destruct (connid_eqb id k); constructor; auto.
Qed.

Lemma Forall_JsMap_delete (P : ConnId * ConnectionInfo -> Prop) id m :
  Forall P m -> Forall P (JsMap.delete connid_eqb id m).
Proof.
  intros H. unfold JsMap.delete. apply Forall_forall. intros x Hx.
  apply filter_In in Hx. rewrite Forall_forall in H. apply H, Hx.
Qed.

Lemma JsMap_get_In (id : ConnId) (v : ConnectionInfo) m :
  JsMap.get connid_eqb id m = Some v -> exists k, In (k, v) m.
Proof.
  induction m as [| [k x] r IH]; simpl; [discriminate |].
  destruct (connid_eqb id k).
  - intros H. inversion H. subst. exists k. left. reflexivity.
  - intros H. destruct (IH H) as [k' Hk]. exists k'. right. exact Hk.
Qed.

Ltac leaf_timestamps :=
  idtac; unfold timestamps_ordered in *; cbn in *;
  repeat match goal with
         | |- context [if ?b then _ else _] => destruct b
         | |- context [match ?x with _ => _ end] => destruct x
         end;
  cbn in *;
  repeat match goal with H : _ /\ _ |- _ => destruct H end;
  repeat split;
  first [ assumption
        | apply Forall_JsMap_delete; assumption
        | constructor
        | lia
        | idtac ].

Lemma timestamps_trackConnection id s : preserves timestamps_ordered (trackConnection id s).
Proof.
  intros w H. unfold trackConnection. unfold bind at 1, gets at 1.
  match goal with
  | |- timestamps_ordered (fst (?m w)) =>
      assert (Hp : preserves (fun x => timestamps_ordered x /\ now x = now w) m)
  end.
  { preserves_with ltac:(idtac; fail)
      ltac:(idtac; unfold timestamps_ordered in *; cbn in *;
            repeat match goal with
                   | |- context [if ?b then _ else _] => destruct b
                   end;
            cbn in *;
            repeat match goal with H : _ /\ _ |- _ => destruct H end;
            split; [| assumption];
            first [ assumption
                  | apply Forall_JsMap_set; [unfold in_order; cbn; lia | assumption] ]). }
  apply Hp. split; [exact H | reflexivity].
Qed.

Lemma timestamps_onSocketData s : preserves timestamps_ordered (onSocketData s).
Proof.
  unfold onSocketData. apply preserves_bind; [apply preserves_gets | intros ids].
  apply preserves_forEach. intros id w H.
  unfold bind, gets, upd, modify. cbn.
  destruct (JsMap.get connid_eqb id (activeConnections (this w))) as [conn |] eqn:E;
    cbn; [| exact H].
  unfold timestamps_ordered in *. cbn.
  apply Forall_JsMap_set; [| exact H].
  destruct (JsMap_get_In _ _ _ E) as [k Hk].
  rewrite Forall_forall in H. specialize (H _ Hk). unfold in_order in *. cbn in *. lia.
Qed.

Ltac known_timestamps0 :=
  idtac;
  match goal with
  | |- preserves _ (trackConnection _ _) => apply timestamps_trackConnection
  | |- preserves _ (onSocketData _) => apply timestamps_onSocketData
  end.

Lemma timestamps_removeConnection id : preserves timestamps_ordered (removeConnection id).
Proof. preserves_with known_timestamps0 leaf_timestamps. Qed.

Lemma timestamps_forceShutdown code : preserves timestamps_ordered (forceShutdown code).
Proof. preserves_with known_timestamps0 leaf_timestamps. Qed.

Ltac known_timestamps1 :=
  idtac;
  match goal with
  | |- preserves _ (trackConnection _ _) => apply timestamps_trackConnection
  | |- preserves _ (onSocketData _) => apply timestamps_onSocketData
  | |- preserves _ (removeConnection _) => apply timestamps_removeConnection
  | |- preserves _ (forceShutdown _) => apply timestamps_forceShutdown
  end.

Lemma timestamps_handleSignal sig e : preserves timestamps_ordered (handleSignal sig e).
Proof. preserves_with known_timestamps1 leaf_timestamps. Qed.

Ltac known_timestamps :=
  idtac;
  match goal with
  | |- preserves _ (trackConnection _ _) => apply timestamps_trackConnection
  | |- preserves _ (onSocketData _) => apply timestamps_onSocketData
  | |- preserves _ (removeConnection _) => apply timestamps_removeConnection
  | |- preserves _ (forceShutdown _) => apply timestamps_forceShutdown
  | |- preserves _ (handleSignal _ _) => apply timestamps_handleSignal
  end.

Lemma timestamps_methods : all_methods timestamps_ordered.
Proof. unfold all_methods. methods_with known_timestamps leaf_timestamps. Qed.

Lemma timestamps_host : host_stable timestamps_ordered.
Proof.
  intros w w' Hm H. destruct Hm; try exact H.
  unfold timestamps_ordered in *. cbn.
  apply (Forall_in_order_later (now w)); [lia | exact H].
Qed.

Lemma clock_from_start (clock : nat -> Z) :
  (forall k, clock k <= clock (S k)) -> forall k, clock 0%nat <= clock k.
Proof.
  intros Hm k. induction k as [| k IH]; [lia |]. specialize (Hm k). lia.
Qed.

Lemma connection_details_length clock k conns :
  List.length (connection_details clock k conns) = List.length conns.
Proof.
  revert k. induction conns as [| c r IH]; intros k; cbn; [reflexivity |].
  rewrite IH. reflexivity.
Qed.

Lemma connection_details_in_order clock t conns :
  (forall k, t <= clock k) ->
  Forall (fun c => ci_startTime c <= ci_lastActivity c <= t) conns ->
  forall k,
    Forall (fun d => cd_startTime d <= cd_lastActivity d
                     /\ 0 <= cd_duration d
                     /\ 0 <= cd_timeSinceLastActivity d)
      (connection_details clock k conns)
    /\ forall i d,
         nth_error (connection_details clock k conns) i = Some d ->
         cd_timeSinceLastActivity d - cd_duration d
         <= clock (S (k + 2 * i)) - clock (k + 2 * i)%nat.
Proof.
  intros Ht H. induction H as [| c r Hc Hr IH]; intros k.
  - split; [constructor |]. intros [| i] d Hd; discriminate Hd.
  - destruct (IH (S (S k))) as [IH1 IH2]. split.
    + cbn [connection_details]. constructor; [| exact IH1].
      cbn. pose proof (Ht k). pose proof (Ht (S k)). lia.
    + intros [| i] d Hd; cbn [connection_details nth_error] in Hd.
      * inversion Hd. subst d. cbn [cd_timeSinceLastActivity cd_duration].
        replace (k + 2 * 0)%nat with k by lia. lia.
      * specialize (IH2 i d Hd).
        replace (k + 2 * S i)%nat with (S (S k) + 2 * i)%nat by lia. exact IH2.
Qed.

(** X28.  [getConnectionDetails] returns one entry per tracked connection, as
    many as [getStatus] counts.  In every run, for a clock that does not
    go back (its readings during the call are in order and not before the
    time of the last event), each entry has [startTime <= lastActivity], a
    [duration] and a [timeSinceLastActivity] that are not negative, and
    [timeSinceLastActivity] exceeds [duration] by no more than the clock
    has moved between the two readings of the entry. *)
Theorem X28_connection_details_in_order :
  forall (t0 : Z) (listeners : string -> option JsError) (options : Options)
         (fuel : nat) (evs : list (Z * Event)) (clock : nat -> Z),
    let w := run fuel evs (new_ShutdownCoordinator t0 listeners options) in
    now w <= clock 0%nat ->
    (forall k, clock k <= clock (S k)) ->
    List.length (getConnectionDetails clock w) = st_activeConnections (getStatus w)
    /\ Forall (fun d => cd_startTime d <= cd_lastActivity d
                        /\ 0 <= cd_duration d
                        /\ 0 <= cd_timeSinceLastActivity d)
         (getConnectionDetails clock w)
    /\ forall i d,
         nth_error (getConnectionDetails clock w) i = Some d ->
         cd_timeSinceLastActivity d - cd_duration d
         <= clock (S (2 * i)) - clock (2 * i)%nat.
Proof.
  intros t0 listeners options fuel evs clock w H0 Hm.
  assert (H : timestamps_ordered w).
  { apply (run_invariant_methods _ timestamps_host timestamps_methods).
    unfold timestamps_ordered, new_ShutdownCoordinator. cbn. constructor. }
  assert (Ht : forall k, now w <= clock k).
  { intros k. pose proof (clock_from_start clock Hm k). lia. }
  assert (Hv : Forall (fun c => ci_startTime c <= ci_lastActivity c <= now w)
                 (JsMap.values (activeConnections (this w)))).
  { unfold JsMap.values. apply Forall_map. exact H. }
  destruct (connection_details_in_order clock (now w) _ Ht Hv 0) as [H1 H2].
  split; [| split].
  - unfold getConnectionDetails. rewrite connection_details_length.
    unfold JsMap.values. rewrite length_map. reflexivity.
  - exact H1.
  - exact H2.
Qed.

Lemma X28_witness :
  List.length (getConnectionDetails (fun k => 5 + Z.of_nat k) one_connection) = 1%nat.
Proof.
  unfold one_connection.
  assert (H0 : now (run 64 [(1, CallRegisterServer (ArgObject http_server));
                            (2, ServerConnection 1 (socket 1))]
                      (new_ShutdownCoordinator 0 quiet no_options))
               <= 5 + Z.of_nat 0)
    by (vm_compute; discriminate).
  assert (Hm : forall k, 5 + Z.of_nat k <= 5 + Z.of_nat (S k)) by (intros k; lia).
  destruct (X28_connection_details_in_order 0 quiet no_options 64
              [(1, CallRegisterServer (ArgObject http_server));
               (2, ServerConnection 1 (socket 1))]
              (fun k => 5 + Z.of_nat k) H0 Hm) as (Hl & _).
  rewrite Hl. vm_compute. reflexivity.
Defined.

(** ** Exit statuses *)

Lemma exitCode_of_cases error errors :
  (exitCode_of error errors = EXIT_CODES.GRACEFUL /\ error = None /\ errors = [])
  \/ (exitCode_of error errors = EXIT_CODES.TIMEOUT
      /\ existsb (fun err => streq (err_name err) "TimeoutError") errors = true)
  \/ (exitCode_of error errors = EXIT_CODES.RESOURCE_CLEANUP_FAILED
      /\ existsb (fun err => streq (err_name err) "TimeoutError") errors = false
      /\ (error <> None \/ errors <> [])).
Proof.
  unfold exitCode_of.
  destruct error as [e |]; cbn.
  - destruct (existsb _ errors); [right; left | right; right]; repeat split; auto.
    left. discriminate.
  - destruct errors as [| x r]; cbn; [left; auto |].
    destruct (streq (err_name x) "TimeoutError" || existsb _ r);
      [right; left | right; right]; repeat split; auto.
    right. discriminate.
Qed.

Ltac leaf_exits :=
  idtac; unfold exits_listed, timeout_recorded in *; cbn in *;
  repeat match goal with
         | |- context [if ?b then _ else _] => destruct b
         | |- context [match ?x with _ => _ end] => destruct x
         end;
  cbn in *;
  repeat match goal with H : _ /\ _ |- _ => destruct H end;
  repeat split; try assumption;
  try (intros ? ? Hin Hact; apply in_app_or in Hin; destruct Hin as [Hin | [<- | []]];
       [eauto | cbn in Hact; inversion Hact; subst; auto]);
  try (intros Hh; rewrite existsb_app; apply orb_true_iff; left; auto);
  try (intros ? ? Hin Hact; apply cancel_In in Hin; eauto);
  auto.

Lemma exits_completeShutdown sig error : preserves exits_listed (completeShutdown sig error).
Proof.
  intros w (H1 & H2 & H3). unfold completeShutdown.
  erewrite bind_normal by reflexivity.
  erewrite bind_normal by reflexivity.
  erewrite bind_normal by reflexivity.
  erewrite bind_normal by reflexivity.
  erewrite bind_normal by reflexivity.
  cbv zeta.
  erewrite bind_normal by (apply log_logs; reflexivity).
  unfold bind. rewrite emit_result by reflexivity.
  cbn [userListeners set_trace set_this].
  destruct (userListeners w "shutdown-completed").
  - cbn. repeat split; assumption.
  - cbn. unfold exits_listed, timeout_recorded. cbn.
    destruct (exitCode_of_cases error (shutdownErrors (this w)))
      as [(E & _) | [(E & Ht) | (E & _)]]; rewrite E.
    + repeat split; [| discriminate | exact H3].
      intros c Hc. inversion Hc. cbn. auto.
    + repeat split; [| intros _; exact Ht | exact H3].
      intros c Hc. inversion Hc. cbn. auto.
    + repeat split; [| discriminate | exact H3].
      intros c Hc. inversion Hc. cbn. auto.
Qed.

Ltac known_exits0 :=
  idtac;
  match goal with
  | |- preserves _ (completeShutdown _ _) => apply exits_completeShutdown
  end.

Lemma exits_removeConnection id : preserves exits_listed (removeConnection id).
Proof. preserves_with known_exits0 leaf_exits. Qed.

Lemma exits_forceShutdown code :
  code = EXIT_CODES.RESOURCE_CLEANUP_FAILED \/ code = EXIT_CODES.SIGNAL_ERROR ->
  preserves exits_listed (forceShutdown code).
Proof. intros Hc. preserves_with known_exits0 leaf_exits. Qed.

Ltac known_exits1 :=
  idtac;
  match goal with
  | |- preserves _ (completeShutdown _ _) => apply exits_completeShutdown
  | |- preserves _ (removeConnection _) => apply exits_removeConnection
  | |- preserves _ (forceShutdown _) => apply exits_forceShutdown; auto
  end.

Lemma exits_handleSignal sig e : preserves exits_listed (handleSignal sig e).
Proof. preserves_with known_exits1 leaf_exits. Qed.

Ltac known_exits :=
  idtac;
  match goal with
  | |- preserves _ (completeShutdown _ _) => apply exits_completeShutdown
  | |- preserves _ (removeConnection _) => apply exits_removeConnection
  | |- preserves _ (forceShutdown _) => apply exits_forceShutdown; auto
  | |- preserves _ (handleSignal _ _) => apply exits_handleSignal
  end.

Lemma exits_reactions : reactions exits_listed.
Proof. unfold reactions. reactions_with known_exits leaf_exits. Qed.

Lemma exits_host : host_stable exits_listed.
Proof.
  intros w w' Hm (H1 & H2 & H3). destruct Hm; unfold exits_listed; cbn;
    repeat split; try assumption; try discriminate.
  intros p c Hp. apply cancel_In in Hp. eauto.
Qed.

Lemma exits_fire w p :
  In p (pendingTimers w) -> exits_listed w ->
  exits_listed (fst (fire (pt_action p) (due p w))).
Proof.
  intros Hp H.
  assert (Hd : exits_listed (due p w)).
  { unfold due. apply (exits_host _ _ (hm_clock _ _)).
    apply (exits_host _ _ (hm_timer _ _)). exact H. }
  destruct (pt_action p) as [id | d | code] eqn:Ea; cbn [fire].
  - revert Hd. generalize (due p w).
    change (preserves exits_listed (handleConnectionTimeout id)).
    preserves_with known_exits leaf_exits.
  - revert Hd. generalize (due p w).
    change (preserves exits_listed (onGraceTimeout d)).
    preserves_with known_exits leaf_exits.
  - destruct H as (_ & _ & H3). specialize (H3 p code Hp Ea).
    destruct Hd as (D1 & D2 & D3).
    unfold exits_listed, timeout_recorded. cbn. repeat split.
    + intros c Hc. inversion Hc. subst. destruct H3 as [-> | ->]; cbn; auto.
    + intros Hc. inversion Hc. destruct H3 as [E | E]; rewrite E in *; discriminate.
    + exact D3.
Qed.

(** X25.  In every run, the process exits through the coordinator with one of
    the four statuses of [EXIT_CODES] only, and with status 1 only when an
    error named 'TimeoutError' has been recorded. *)
Theorem X25_exit_statuses :
  forall (t0 : Z) (listeners : string -> option JsError) (options : Options)
         (fuel : nat) (evs : list (Z * Event)) (code : Z),
    let w := run fuel evs (new_ShutdownCoordinator t0 listeners options) in
    halted w = Some (Exited code) ->
    In code [EXIT_CODES.GRACEFUL; EXIT_CODES.TIMEOUT;
             EXIT_CODES.RESOURCE_CLEANUP_FAILED; EXIT_CODES.SIGNAL_ERROR]
    /\ (code = EXIT_CODES.TIMEOUT -> timeout_recorded w = true).
Proof.
  intros t0 listeners options fuel evs code w Hh.
  assert (H : exits_listed w).
  { apply (run_invariant_reactions _ exits_host exits_reactions exits_fire).
    unfold exits_listed, new_ShutdownCoordinator. cbn.
    repeat split; [discriminate | discriminate | intros p c []]. }
  destruct H as (H1 & H2 & _). split; [apply H1, Hh |].
  intros ->. apply H2, Hh.
Qed.

Lemma X25_witness :
  halted (run 64 nothing_to_drain (new_ShutdownCoordinator 0 quiet (grace 100)))
  = Some (Exited 0)
  /\ In 0 [EXIT_CODES.GRACEFUL; EXIT_CODES.TIMEOUT;
           EXIT_CODES.RESOURCE_CLEANUP_FAILED; EXIT_CODES.SIGNAL_ERROR].
Proof.
  assert (H : halted (run 64 nothing_to_drain
                        (new_ShutdownCoordinator 0 quiet (grace 100)))
              = Some (Exited 0)) by (vm_compute; reflexivity).
  split; [exact H |].
  exact (proj1 (X25_exit_statuses 0 quiet (grace 100) 64 nothing_to_drain 0 H)).
Defined.

(** ** The guard *)

Lemma closes_app a b : closes (a ++ b) = (closes a + closes b)%nat.
Proof. unfold closes. rewrite filter_app, length_app. reflexivity. Qed.

Lemma closes_single e : closes [e] = if is_server_close e then 1%nat else 0%nat.
Proof. unfold closes. simpl. destruct (is_server_close e); reflexivity. Qed.

Arguments closes : simpl never.

Ltac leaf_counts :=
  idtac; unfold started_once, started in *; cbn in *;
  repeat match goal with
         | |- context [if ?b then _ else _] => destruct b
         | |- context [match ?x with _ => _ end] => destruct x
         end;
  cbn in *;
  rewrite ?emitted_app, ?emitted_single, ?closes_app, ?closes_single; cbn;
  rewrite ?Nat.add_0_r;
  try assumption;
  repeat match goal with H : _ /\ _ |- _ => destruct H end;
  repeat split; try assumption; try lia; auto.

Ltac known_none := idtac; fail.

Lemma started_forceShutdown n code : preserves (started n) (forceShutdown code).
Proof. preserves_with known_none leaf_counts. Qed.

Lemma started_settle_stop_with n i k j : preserves (started n) (settle_stop_with i k j).
Proof. preserves_with known_none leaf_counts. Qed.

Lemma started_handleSignal_catch n e : preserves (started n) (handleSignal_catch e).
Proof.
  preserves_with
    ltac:(idtac; match goal with
                 | |- preserves _ (forceShutdown _) => apply started_forceShutdown
                 end)
    leaf_counts.
Qed.

Lemma started_weaken w : started 1 w -> started_once w.
Proof.
  intros (Hi & He & Hc). unfold started_once. rewrite He, Hi.
  repeat split; [lia | exact Hc | discriminate | discriminate].
Qed.

Lemma started_more n w : started n w -> started (S n) w.
Proof. intros (Hi & He & Hc). repeat split; auto. Qed.

(** [stopAcceptingConnections] calls [server.close] once. *)
Lemma started_stopAcceptingConnections ctx w :
  started 0 w -> started 1 (fst (stopAcceptingConnections ctx w)).
Proof.
  intros H. unfold stopAcceptingConnections.
  erewrite bind_normal by reflexivity.
  destruct (server (this w)) as [srv |].
  - erewrite bind_normal by reflexivity.
    erewrite bind_normal by reflexivity.
    unfold try_catch.
    erewrite bind_normal by (apply log_logs; reflexivity).
    unfold server_close. rewrite bind_assoc.
    erewrite bind_normal by reflexivity.
    match goal with
    | |- context [bind _ _ ?x] =>
        assert (H1 : started 1 x)
          by (destruct H as (Hi & He & Hc); unfold started; cbn;
              rewrite !emitted_app, !emitted_single, !closes_app, !closes_single; cbn;
              repeat split; [exact Hi | lia | lia]);
        revert H1; generalize x
    end.
    intros x Hx.
    destruct (srv_close_fault srv) as [e |].
    + cbn [bind throw]. apply started_settle_stop_with, Hx.
    + unfold bind at 1. cbn [ret]. rewrite emit_result by reflexivity.
      assert (H2 : started 1 (set_trace (trace x ++ [EEmit "server-closed" PNone]) x))
        by (destruct Hx as (Hi & He & Hc); unfold started; cbn;
            rewrite !emitted_app, !emitted_single, !closes_app, !closes_single; cbn;
            repeat split; [exact Hi | lia | lia]).
      cbn [userListeners set_trace].
      destruct (userListeners x "server-closed"); [| exact H2].
      apply started_settle_stop_with, H2.
  - apply started_more.
    revert H. generalize w. change (preserves (started 0) (later 2 (JAfterStop ctx))).
    preserves_with known_none leaf_counts.
Qed.

Lemma once_log l m : preserves started_once (log l m).
Proof. preserves_with known_none leaf_counts. Qed.

Lemma once_trigger sig e x :
  shutdownInitiated (this x) = true ->
  emitted "shutdown-initiated" (trace x) = 0%nat ->
  closes (trace x) = 0%nat ->
  started_once
    (fst (try_catch
            (emit "shutdown-initiated" (PTrigger sig e) ;;
             executeShutdownSequence {| ctx_signal := sig; ctx_error := e |})
            handleSignal_catch x)).
Proof.
  intros Hi He Hc. apply started_weaken.
  unfold try_catch. unfold bind at 1. rewrite emit_result by reflexivity.
  assert (H0 : started 0 (set_trace (trace x ++ [EEmit "shutdown-initiated" (PTrigger sig e)]) x)).
  { unfold started. cbn.
    rewrite !emitted_app, !emitted_single, !closes_app, !closes_single. cbn.
    repeat split; [exact Hi | lia | lia]. }
  revert H0. generalize (set_trace (trace x ++ [EEmit "shutdown-initiated" (PTrigger sig e)]) x).
  intros y Hy.
  destruct (userListeners x "shutdown-initiated") as [e' |].
  - apply started_handleSignal_catch, started_more, Hy.
  - unfold executeShutdownSequence.
    pose proof (started_stopAcceptingConnections
                  {| ctx_signal := sig; ctx_error := e |} y Hy) as H1.
    destruct (stopAcceptingConnections _ y) as [y' [[] | e' | ]]; cbn in H1 |- *;
      [exact H1 | | exact H1].
    apply started_handleSignal_catch, H1.
Qed.

(** [handleSignal] starts the sequence only when it has not been
    started. *)
Lemma once_handleSignal sig e : preserves started_once (handleSignal sig e).
Proof.
  intros w H. unfold handleSignal.
  erewrite bind_normal by reflexivity.
  destruct (shutdownInitiated (this w)) eqn:Ei; [apply once_log, H |].
  destruct H as (_ & _ & H). destruct (H Ei) as [He Hc].
  erewrite bind_normal by (apply log_logs; reflexivity).
  erewrite bind_normal by reflexivity.
  erewrite bind_normal by reflexivity.
  erewrite bind_normal by reflexivity.
  erewrite bind_normal by reflexivity.
  apply once_trigger; cbn.
  - reflexivity.
  - rewrite emitted_app, emitted_single, He. reflexivity.
  - rewrite closes_app, closes_single, Hc. reflexivity.
Qed.

Ltac known_once0 :=
  idtac;
  match goal with
  | |- preserves _ (handleSignal _ _) => apply once_handleSignal
  end.

Lemma once_removeConnection id : preserves started_once (removeConnection id).
Proof. preserves_with known_once0 leaf_counts. Qed.

Lemma once_forceShutdown code : preserves started_once (forceShutdown code).
Proof. preserves_with known_once0 leaf_counts. Qed.

Ltac known_once :=
  idtac;
  match goal with
  | |- preserves _ (handleSignal _ _) => apply once_handleSignal
  | |- preserves _ (removeConnection _) => apply once_removeConnection
  | |- preserves _ (forceShutdown _) => apply once_forceShutdown
  end.

Lemma once_methods : all_methods started_once.
Proof. unfold all_methods, reactions. methods_with known_once leaf_counts. Qed.

Lemma once_host : host_stable started_once.
Proof. intros w w' Hm H. destruct Hm; exact H. Qed.

(** X12.  The sequence is started at most once per process.  In every run,
    whatever triggers arrive and in whatever order, 'shutdown-initiated'
    goes out at most once and [server.close] is called at most once; as
    long as [shutdownInitiated] is false neither has happened. *)
Theorem X12_sequence_started_at_most_once :
  forall (t0 : Z) (listeners : string -> option JsError) (options : Options)
         (fuel : nat) (evs : list (Z * Event)),
    let w := run fuel evs (new_ShutdownCoordinator t0 listeners options) in
    (emitted "shutdown-initiated" (trace w) <= 1)%nat
    /\ (closes (trace w) <= 1)%nat
    /\ (shutdownInitiated (this w) = false ->
        emitted "shutdown-initiated" (trace w) = 0%nat /\ closes (trace w) = 0%nat).
Proof.
  intros t0 listeners options fuel evs w.
  apply (run_invariant_methods _ once_host once_methods).
  unfold started_once, new_ShutdownCoordinator. cbn.
  rewrite emitted_single, closes_single. cbn. repeat split; lia.
Qed.

(** ** The constructor *)

(** X1.  A new coordinator is in [ACTIVE], tracks nothing and has written one
    log entry; its configuration is [DEFAULT_CONFIG] overridden key by key
    by the options given, and no run changes it. *)
Theorem X1_configuration_fixed_at_construction :
  forall (t0 : Z) (listeners : string -> option JsError) (options : Options)
         (fuel : nat) (evs : list (Z * Event)),
    let w0 := new_ShutdownCoordinator t0 listeners options in
    let w := run fuel evs w0 in
    getStatus w0
    = {| st_state := ACTIVE; st_shutdownInitiated := false; st_activeConnections := 0;
         st_trackedTimers := 0; st_trackedIntervals := 0; st_trackedListeners := 0;
         st_shutdownCallbacks := 0; st_resourceCleanupCallbacks := 0;
         st_shutdownErrors := 0 |}
    /\ trace w0 = [ELog "info" "Shutdown coordinator initialized" ACTIVE]
    /\ config (this w) = config (this w0)
    /\ gracePeriodMs (config (this w)) = or_default (opt_gracePeriodMs options) 30000
    /\ forceTimeoutMs (config (this w)) = or_default (opt_forceTimeoutMs options) 5000
    /\ connectionTimeoutMs (config (this w))
       = or_default (opt_connectionTimeoutMs options) 30000
    /\ maxConnections (config (this w)) = or_default (opt_maxConnections options) 1000
    /\ logLevel (config (this w)) = or_default (opt_logLevel options) "info".
Proof.
  intros t0 listeners options fuel evs w0 w.
  assert (Hc : config (this w) = config (this w0))
    by exact (reach_config (reach_run fuel evs w0)).
  split; [reflexivity |]. split; [reflexivity |]. split; [exact Hc |].
  rewrite Hc. repeat split; reflexivity.
Qed.

(** ** The listeners on a tracked socket *)

Lemma forEach_one {A} (f : A -> M unit) (x : A) w :
  fst (forEach f [x] w) = fst (f x w)
  /\ (snd (forEach f [x] w) = snd (f x w)).
Proof.
  cbn [forEach]. unfold bind. destruct (f x w) as [w' [[] | e | ]]; split; reflexivity.
Qed.

Lemma JsMap_set_size_same (id : ConnId) (v x : ConnectionInfo) m :
  JsMap.get connid_eqb id m = Some x ->
  JsMap.size (JsMap.set connid_eqb id v m) = JsMap.size m.
Proof. intros H. apply JsMap_set_size_present. rewrite H. discriminate. Qed.

(** X5.  'data' on a tracked socket counts one more request and sets
    [lastActivity] to the clock; the other fields, the other records, the
    size of the registry, the trace and the pending timers are as before:
    the idle timer of the connection is not restarted.  Once the connection
    has been removed, 'data' does nothing. *)
Theorem X5_data_on_tracked_socket :
  forall (s : nat) (id : ConnId) (w : World),
    handlers_of s w = [id] ->
    let w' := fst (onSocketData s w) in
    snd (onSocketData s w) = Normal tt
    /\ trace w' = trace w
    /\ pendingTimers w' = pendingTimers w
    /\ connectionCount w' = connectionCount w
    /\ (forall k, connid_eqb k id = false ->
          JsMap.get connid_eqb k (activeConnections (this w'))
          = JsMap.get connid_eqb k (activeConnections (this w)))
    /\ match JsMap.get connid_eqb id (activeConnections (this w)) with
       | Some conn =>
           exists conn',
             JsMap.get connid_eqb id (activeConnections (this w')) = Some conn'
             /\ ci_requestCount conn' = S (ci_requestCount conn)
             /\ ci_lastActivity conn' = now w
             /\ ci_startTime conn' = ci_startTime conn
             /\ ci_socket conn' = ci_socket conn
             /\ ci_timeout conn' = ci_timeout conn
       | None => w' = w
       end.
Proof.
  intros s id w Hh w'. subst w'. unfold onSocketData.
  erewrite bind_normal by reflexivity. rewrite Hh.
  destruct (forEach_one
              (fun id0 =>
                 found <- gets (fun w0 => JsMap.get connid_eqb id0
                                            (activeConnections (this w0))) ;;
                 match found with
                 | Some conn =>
                     t <- gets now ;;
                     upd (fun c =>
                            set_activeConnections
                              (JsMap.set connid_eqb id0 (touch t conn)
                                 (activeConnections c)) c)
                 | None => ret tt
                 end) id w) as [-> ->].
  unfold bind, gets, upd, modify, ret. cbn.
  destruct (JsMap.get connid_eqb id (activeConnections (this w))) as [conn |] eqn:E; cbn.
  - repeat split.
    + unfold connectionCount. cbn. apply (JsMap_set_size_same _ _ conn), E.
    + intros k Hk. apply JsMap_get_set_other, Hk.
    + exists (touch (now w) conn). rewrite JsMap_get_set_same. repeat split.
  - repeat split.
Qed.

Lemma X5_witness :
  handlers_of 1 one_connection = [(2, 1%nat)]
  /\ connectionCount (fst (onSocketData 1 one_connection)) = connectionCount one_connection.
Proof.
  assert (H : handlers_of 1 one_connection = [(2, 1%nat)]) by (vm_compute; reflexivity).
  split; [exact H |].
  destruct (X5_data_on_tracked_socket 1 (2, 1%nat) one_connection H)
    as (_ & _ & _ & Hc & _).
  exact Hc.
Defined.

Lemma bind_frame_post {A B} (m : M A) (k : A -> M B) w :
  (forall a, frame (k a)) -> core (fst (bind m k w)) = core (fst (m w)).
Proof.
  intros Hk. unfold bind. destruct (m w) as [w' [a | e | ]]; cbn; try reflexivity.
  apply (frame_eq w' (Hk a)).
Qed.

Lemma removeConnection_emits_once id info w :
  JsMap.get connid_eqb id (activeConnections (this w)) = Some info ->
  emitted "connection-removed" (trace (fst (removeConnection id w)))
  = S (emitted "connection-removed" (trace w)).
Proof.
  intros Hget. rewrite (removeConnection_present _ _ _ Hget).
  rewrite rest_emits_once. f_equal.
  unfold after_delete. destruct (ci_timeout info); cbn;
    rewrite ?emitted_app, ?emitted_single; cbn; lia.
Qed.

Lemma removeConnection_keeps_handlers id l :
  preserves (fun w => socketHandlers w = l) (removeConnection id).
Proof. preserves_with known_none leaf_simple. Qed.

Lemma removeConnection_keeps_trace id x :
  preserves (fun w => In x (trace w)) (removeConnection id).
Proof. preserves_with known_none leaf_in_trace. Qed.

(** X6.  'error' on a tracked socket logs a warning and removes the
    connection; the 'close' that follows finds nothing and does nothing, so
    'connection-removed' goes out once for the two events. *)
Theorem X6_socket_error_then_close :
  forall (s : nat) (id : ConnId) (info : ConnectionInfo) (w : World),
    handlers_of s w = [id] ->
    JsMap.get connid_eqb id (activeConnections (this w)) = Some info ->
    let w1 := fst (onSocketError s w) in
    In (ELog "warn" "Connection error" (state (this w))) (trace w1)
    /\ activeConnections (this w1)
       = JsMap.delete connid_eqb id (activeConnections (this w))
    /\ emitted "connection-removed" (trace w1)
       = S (emitted "connection-removed" (trace w))
    /\ onSocketClose s w1 = (w1, Normal tt).
Proof.
  intros s id info w Hh Hget w1.
  assert (E : w1 = fst (removeConnection id
                          (set_trace (trace w ++ [ELog "warn" "Connection error"
                                                    (state (this w))]) w))).
  { unfold w1, onSocketError. erewrite bind_normal by reflexivity. rewrite Hh.
    destruct (forEach_one
                (fun id0 => log "warn" "Connection error" ;; removeConnection id0)
                id w) as [-> _].
    erewrite bind_normal by (apply log_logs; reflexivity). reflexivity. }
  set (w0 := set_trace _ w) in E.
  assert (Hget0 : JsMap.get connid_eqb id (activeConnections (this w0)) = Some info)
    by exact Hget.
  assert (Hreg : activeConnections (this w1)
                 = JsMap.delete connid_eqb id (activeConnections (this w))).
  { rewrite E. apply (removeConnection_deletes id w0). }
  split; [| split; [| split]].
  - rewrite E. apply removeConnection_keeps_trace. cbn.
    apply in_or_app. right. left. reflexivity.
  - exact Hreg.
  - rewrite E. rewrite (removeConnection_emits_once id info w0 Hget0).
    cbn. rewrite emitted_app, emitted_single. cbn. lia.
  - assert (Hh1 : handlers_of s w1 = [id]).
    { unfold handlers_of. rewrite E.
      rewrite (removeConnection_keeps_handlers id (socketHandlers w0) w0 eq_refl).
      exact Hh. }
    unfold onSocketClose. erewrite bind_normal by reflexivity. rewrite Hh1.
    cbn [forEach].
    erewrite bind_normal
      by (apply removeConnection_absent; rewrite Hreg; apply JsMap_get_delete_same).
    reflexivity.
Qed.

Lemma X6_witness :
  handlers_of 1 one_connection = [(2, 1%nat)]
  /\ onSocketClose 1 (fst (onSocketError 1 one_connection))
     = (fst (onSocketError 1 one_connection), Normal tt).
Proof.
  assert (H : handlers_of 1 one_connection = [(2, 1%nat)]) by (vm_compute; reflexivity).
  assert (G : JsMap.get connid_eqb (2, 1%nat) (activeConnections (this one_connection))
              = Some first_connection) by (vm_compute; reflexivity).
  split; [exact H |].
  destruct (X6_socket_error_then_close 1 (2, 1%nat) first_connection one_connection H G)
    as (_ & _ & _ & Hc).
  exact Hc.
Defined.

(** ** The idle timer of a connection *)

Lemma emit_other_keeps_emitted ev p n :
  streq ev "connection-removed" = false ->
  preserves (fun w => emitted "connection-removed" (trace w) = n) (emit ev p).
Proof.
  intros H w Hn. rewrite emit_result by exact H. cbn.
  rewrite emitted_app, emitted_single. cbn. unfold streq in *. rewrite H. lia.
Qed.

(** X9.  The idle timer of a connection.  For an identifier that is no longer
    tracked the callback does nothing.  For a tracked one it logs, destroys
    the socket, removes the record ('connection-removed' goes out once) and
    emits 'connection-timeout'.  When [destroy] throws, the fault leaves
    the callback and the connection stays tracked: nothing was removed and
    neither event has gone out. *)
Theorem X9_connection_timeout :
  forall (id : ConnId) (w : World),
    match JsMap.get connid_eqb id (activeConnections (this w)) with
    | None => handleConnectionTimeout id w = (w, Normal tt)
    | Some info =>
        let w' := fst (handleConnectionTimeout id w) in
        In (ELog "warn" "Connection timeout, forcing close" (state (this w))) (trace w')
        /\ In (EDestroy (ci_socket info)) (trace w')
        /\ match sock_destroy_fault (ci_socket info) with
           | Some e =>
               snd (handleConnectionTimeout id w) = Throw e
               /\ activeConnections (this w') = activeConnections (this w)
               /\ emitted "connection-removed" (trace w')
                  = emitted "connection-removed" (trace w)
               /\ emitted "connection-timeout" (trace w') = emitted "connection-timeout" (trace w)
           | None =>
               activeConnections (this w')
               = JsMap.delete connid_eqb id (activeConnections (this w))
               /\ emitted "connection-removed" (trace w')
                  = S (emitted "connection-removed" (trace w))
               /\ (snd (handleConnectionTimeout id w) = Normal tt ->
                   In (EEmit "connection-timeout" (PConnection info)) (trace w'))
           end
    end.
Proof.
  intros id w. unfold handleConnectionTimeout.
  erewrite bind_normal by reflexivity.
  destruct (JsMap.get connid_eqb id (activeConnections (this w))) as [info |] eqn:Hget;
    [| reflexivity].
  erewrite bind_normal by (apply log_logs; reflexivity).
  set (w0 := set_trace _ w).
  unfold destroy. rewrite bind_assoc. erewrite bind_normal by reflexivity.
  set (w1 := set_trace _ w0).
  assert (Hl : In (ELog "warn" "Connection timeout, forcing close" (state (this w)))
                 (trace w1)).
  { cbn. apply in_or_app. left. apply in_or_app. right. left. reflexivity. }
  assert (Hd : In (EDestroy (ci_socket info)) (trace w1)).
  { cbn. apply in_or_app. right. left. reflexivity. }
  destruct (sock_destroy_fault (ci_socket info)) as [e |].
  - cbn [bind throw fst snd]. split; [exact Hl |]. split; [exact Hd |].
    repeat split; cbn; rewrite !emitted_app, !emitted_single; cbn; lia.
  - cbn [bind ret].
    assert (Hget1 : JsMap.get connid_eqb id (activeConnections (this w1)) = Some info)
      by exact Hget.
    pose proof (removeConnection_deletes id w1) as Hdel.
    pose proof (removeConnection_emits_once id info w1 Hget1) as Hem.
    pose proof (removeConnection_keeps_trace id _ w1 Hl) as Hl2.
    pose proof (removeConnection_keeps_trace id _ w1 Hd) as Hd2.
    unfold bind.
    destruct (removeConnection id w1) as [w2 [[] | e | ]]; cbn [fst snd] in *.
    + rewrite emit_result by reflexivity. cbn [fst snd].
      split; [cbn; apply in_or_app; left; exact Hl2 |].
      split; [cbn; apply in_or_app; left; exact Hd2 |].
      split; [exact Hdel |]. split.
      * cbn. rewrite emitted_app, emitted_single. cbn. rewrite Hem.
        cbn. rewrite !emitted_app, !emitted_single. cbn. lia.
      * intros _. cbn. apply in_or_app. right. left. reflexivity.
    + split; [exact Hl2 |]. split; [exact Hd2 |]. split; [exact Hdel |]. split.
      * rewrite Hem. cbn. rewrite !emitted_app, !emitted_single. cbn. lia.
      * discriminate.
    + split; [exact Hl2 |]. split; [exact Hd2 |]. split; [exact Hdel |]. split.
      * rewrite Hem. cbn. rewrite !emitted_app, !emitted_single. cbn. lia.
      * discriminate.
Qed.

(** ** Forced close *)

Lemma forceClose_one_result ci w :
  snd (forceClose_one ci w) = Normal tt
  /\ shutdownErrors (this (fst (forceClose_one ci w)))
     = shutdownErrors (this w) ++ destroy_faults [ci].
Proof.
  unfold forceClose_one, destroy, log, push_error, upd, effect, modify, bind, gets,
    try_catch, throw, ret, destroy_faults. cbn.
  destruct (sock_destroy_fault (ci_socket ci)); cbn;
    destruct (negb (streq (logLevel (config (this w))) "debug")); cbn;
    rewrite ?app_nil_r; split; reflexivity.
Qed.

Lemma forceClose_all l w :
  snd (forEach forceClose_one l w) = Normal tt
  /\ shutdownErrors (this (fst (forEach forceClose_one l w)))
     = shutdownErrors (this w) ++ destroy_faults l.
Proof.
  revert w. induction l as [| ci r IH]; intros w.
  - cbn. rewrite app_nil_r. split; reflexivity.
  - cbn [forEach]. destruct (forceClose_one_result ci w) as [Hn He].
    unfold bind. destruct (forceClose_one ci w) as [w1 r1]. cbn in Hn, He. subst r1.
    destruct (IH w1) as [Hn1 He1]. split; [exact Hn1 |].
    rewrite He1, He. unfold destroy_faults. cbn [flat_map].
    rewrite app_nil_r, <- app_assoc. reflexivity.
Qed.

Lemma forceCloseConnections_keeps_timers l :
  preserves (fun w => pendingTimers w = l) forceCloseConnections.
Proof. preserves_with known_none leaf_simple. Qed.

Lemma forceCloseConnections_keeps_removed n :
  preserves (fun w => emitted "connection-removed" (trace w) = n) forceCloseConnections.
Proof. preserves_with known_none leaf_emitted. Qed.

Lemma forceCloseConnections_errors w :
  shutdownErrors (this (fst (forceCloseConnections w)))
  = shutdownErrors (this w)
    ++ destroy_faults (JsMap.values (activeConnections (this w)))
  /\ In (EEmit "connections-force-closed" (PCount (connectionCount w)))
       (trace (fst (forceCloseConnections w))).
Proof.
  unfold forceCloseConnections.
  erewrite bind_normal by reflexivity.
  erewrite bind_normal by (apply log_logs; reflexivity).
  set (l := JsMap.values (activeConnections (this w))).
  set (w1 := set_trace _ w).
  change (forEach _ l) with (forEach forceClose_one l).
  destruct (forceClose_all l w1) as [Hn He].
  assert (E2 : forEach forceClose_one l w1
               = (fst (forEach forceClose_one l w1), Normal tt))
    by (destruct (forEach forceClose_one l w1) as [w2 r2]; cbn in Hn; subst r2;
        reflexivity).
  erewrite bind_normal by exact E2.
  erewrite bind_normal by reflexivity.
  rewrite emit_result by reflexivity. cbn. split; [exact He |].
  apply in_or_app. right. left. unfold l, connectionCount, JsMap.values, JsMap.size.
  rewrite length_map. reflexivity.
Qed.

(** X19.  [forceCloseConnections] destroys every tracked socket and empties the
    registry; a [destroy] that throws is recorded in [shutdownErrors], in
    the order of the registry, and stops nothing.
    'connections-force-closed' carries the number of connections that were
    tracked.  The connections are not removed one by one: no
    'connection-removed' goes out and their idle timers stay pending; an
    idle timer that fires afterwards does nothing. *)
Theorem X19_force_close_all_connections :
  forall (w : World),
    let w' := fst (forceCloseConnections w) in
    activeConnections (this w') = []
    /\ (forall ci, In ci (JsMap.values (activeConnections (this w))) ->
                   In (EDestroy (ci_socket ci)) (trace w'))
    /\ shutdownErrors (this w')
       = shutdownErrors (this w)
         ++ destroy_faults (JsMap.values (activeConnections (this w)))
    /\ In (EEmit "connections-force-closed" (PCount (connectionCount w))) (trace w')
    /\ emitted "connection-removed" (trace w') = emitted "connection-removed" (trace w)
    /\ pendingTimers w' = pendingTimers w
    /\ (forall id, handleConnectionTimeout id w' = (w', Normal tt)).
Proof.
  intros w w'.
  destruct (forceCloseConnections_spec w) as [Hc Hd].
  destruct (forceCloseConnections_errors w) as [He Hm].
  split; [exact Hc |]. split; [exact Hd |]. split; [exact He |]. split; [exact Hm |].
  split; [apply forceCloseConnections_keeps_removed; reflexivity |].
  split; [apply forceCloseConnections_keeps_timers; reflexivity |].
  intros id. unfold handleConnectionTimeout.
  erewrite bind_normal by reflexivity.
  change (activeConnections (this w')) with (activeConnections (this (fst (forceCloseConnections w)))).
  rewrite Hc. reflexivity.
Qed.

(** ** Stop accepting *)

Lemma update_nth_last {A} (f : A -> A) (l : list A) (x : A) :
  update_nth (List.length l) f (l ++ [x]) = l ++ [f x].
Proof. induction l as [| y r IH]; cbn; [reflexivity | rewrite IH; reflexivity]. Qed.

(** X14.  [stopAcceptingConnections].  Without a registered server its promise
    resolves at once and nothing is logged or closed.  With one (whose
    [close] does not throw, and no listener of 'server-closed' throwing) it
    logs, calls [server.close], emits 'server-closed' at once, before the
    server has closed, and its promise stays pending: no job is queued. *)
Theorem X14_stop_accepting_connections :
  forall (ctx : Ctx) (w : World),
    match server (this w) with
    | None =>
        stopAcceptingConnections ctx w
        = (set_jobs (jobs w ++ [JTick 1 (JAfterStop ctx)]) w, Normal tt)
    | Some srv =>
        srv_close_fault srv = None ->
        userListeners w "server-closed" = None ->
        let w' := fst (stopAcceptingConnections ctx w) in
        snd (stopAcceptingConnections ctx w) = Normal tt
        /\ trace w' = trace w ++
             [ELog "info" "Stopping server from accepting new connections"
                (state (this w));
              EServerClose (srv_id srv);
              EEmit "server-closed" PNone]
        /\ jobs w' = jobs w
        /\ this w' = this w
        /\ stops w' = stops w ++ [{| sp_server := srv_id srv; sp_ctx := ctx;
                                     sp_called := false; sp_settled := false |}]
    end.
Proof.
  intros ctx w.
  destruct (server (this w)) as [srv |] eqn:Es.
  - intros Hf Hl.
    assert (E : exists w',
               stopAcceptingConnections ctx w = (w', Normal tt)
               /\ trace w' = trace w ++
                    [ELog "info" "Stopping server from accepting new connections"
                       (state (this w));
                     EServerClose (srv_id srv);
                     EEmit "server-closed" PNone]
               /\ jobs w' = jobs w
               /\ this w' = this w
               /\ stops w' = stops w ++ [{| sp_server := srv_id srv; sp_ctx := ctx;
                                            sp_called := false; sp_settled := false |}]).
    { unfold stopAcceptingConnections.
      erewrite bind_normal by reflexivity. rewrite Es.
      erewrite bind_normal by reflexivity.
      erewrite bind_normal by reflexivity.
      unfold try_catch.
      erewrite bind_normal by (apply log_logs; reflexivity).
      unfold server_close. rewrite bind_assoc.
      erewrite bind_normal by reflexivity.
      rewrite Hf. unfold bind at 1. cbn [ret].
      rewrite emit_result by reflexivity.
      cbn [userListeners set_trace set_stops]. rewrite Hl.
      eexists. split; [reflexivity |]. cbn. rewrite <- !app_assoc. repeat split. }
    destruct E as (w' & -> & E). exact (conj eq_refl E).
  - unfold stopAcceptingConnections.
    erewrite bind_normal by reflexivity. rewrite Es. reflexivity.
Qed.

Lemma update_nth_nth {A} (f : A -> A) (l : list A) i x :
  nth_error l i = Some x -> nth_error (update_nth i f l) i = Some (f x).
Proof.
  revert i. induction l as [| y r IH]; intros [| i]; cbn; try discriminate.
  - intros H. inversion H. reflexivity.
  - apply IH.
Qed.

Lemma update_nth_twice {A} (f g : A -> A) (l : list A) i :
  update_nth i f (update_nth i g l) = update_nth i (fun x => f (g x)) l.
Proof.
  revert i. induction l as [| y r IH]; intros [| i]; cbn; try reflexivity.
  rewrite IH. reflexivity.
Qed.

(** X15.  When the server reports that it has closed, the promise of
    [stopAcceptingConnections] resolves, with or without an error: the
    drain phase is queued in both cases; an error is logged as a warning
    and recorded in [shutdownErrors]. *)
Theorem X15_server_close_callback :
  forall (error : option JsError) (i : nat) (p : StopPromise) (w : World),
    nth_error (stops w) i = Some p ->
    sp_called p = false ->
    sp_settled p = false ->
    let w' := fst (serverCloseCallback error i w) in
    snd (serverCloseCallback error i w) = Normal tt
    /\ jobs w' = jobs w ++ [JTick 0 (JAfterStop (sp_ctx p))]
    /\ match error with
       | Some e =>
           shutdownErrors (this w') = shutdownErrors (this w) ++ [e]
           /\ trace w' = trace w ++ [ELog "warn" "Error closing server" (state (this w))]
       | None =>
           shutdownErrors (this w') = shutdownErrors (this w)
           /\ trace w' = trace w ++ [ELog "info" "Server stopped accepting new connections"
                                       (state (this w))]
       end.
Proof.
  intros error i p w Hp Hc Hs. cbv zeta.
  pose proof (fun f l => @update_nth_nth StopPromise f l i p) as Hn.
  unfold serverCloseCallback.
  erewrite !bind_normal by reflexivity. rewrite Hp, Hc.
  erewrite bind_normal by reflexivity.
  destruct error as [e |].
  - rewrite bind_assoc.
    erewrite bind_normal by (apply log_logs; reflexivity).
    unfold push_error, upd. erewrite bind_normal by reflexivity.
    unfold settle_stop_with.
    erewrite !bind_normal by reflexivity.
    cbn [stops set_this set_trace set_stops].
    rewrite (Hn call_stop _ Hp). cbn [sp_settled call_stop]. rewrite Hs.
    erewrite bind_normal by reflexivity. cbn. repeat split.
  - erewrite bind_normal by (apply log_logs; reflexivity).
    unfold settle_stop_with.
    erewrite !bind_normal by reflexivity.
    cbn [stops set_this set_trace set_stops].
    rewrite (Hn call_stop _ Hp). cbn [sp_settled call_stop]. rewrite Hs.
    erewrite bind_normal by reflexivity. cbn. repeat split.
Qed.

Lemma X15_witness :
  nth_error (stops stopping) 0 = Some first_stop
  /\ jobs (fst (serverCloseCallback None 0 stopping))
     = jobs stopping ++ [JTick 0 (JAfterStop sigterm)].
Proof.
  assert (H : nth_error (stops stopping) 0 = Some first_stop) by (vm_compute; reflexivity).
  split; [exact H |].
  destruct (X15_server_close_callback None 0 first_stop stopping H eq_refl eq_refl)
    as (_ & Hj & _).
  exact Hj.
Defined.

(** ** Callbacks *)

Lemma callbacks_called_app a b :
  callbacks_called (a ++ b) = callbacks_called a ++ callbacks_called b.
Proof. unfold callbacks_called. apply flat_map_app. Qed.

Lemma callbacks_called_single e :
  callbacks_called [e] = match e with ECallback cb => [cb] | _ => [] end.
Proof. unfold callbacks_called. cbn. apply app_nil_r. Qed.

Arguments callbacks_called : simpl never.

Lemma call_callback_result ch message cb w :
  let w' := fst (call_callback ch message cb w) in
  snd (call_callback ch message cb w) = Normal tt
  /\ callbacks_called (trace w') = callbacks_called (trace w) ++ [cb_id cb]
  /\ shutdownErrors (this w') = shutdownErrors (this w) ++ thrown_of [cb]
  /\ shutdownCallbacks (this w') = shutdownCallbacks (this w)
  /\ resourceCleanupCallbacks (this w') = resourceCleanupCallbacks (this w)
  /\ jobs w' = jobs w ++ map (JWrapperCatch ch message) (rejected_of [cb]).
Proof.
  unfold call_callback, callback_failed, log, push_error, upd, effect, enqueue, modify,
    bind, gets, ret. cbn.
  destruct (cb_behaviour cb); cbn; rewrite ?callbacks_called_app, ?app_nil_r;
    repeat split; try reflexivity.
Qed.

Lemma thrown_of_cons cb r : thrown_of (cb :: r) = thrown_of [cb] ++ thrown_of r.
Proof. cbn. destruct (cb_behaviour cb); reflexivity. Qed.

Lemma rejected_of_cons cb r : rejected_of (cb :: r) = rejected_of [cb] ++ rejected_of r.
Proof. cbn. destruct (cb_behaviour cb); reflexivity. Qed.

Lemma call_callbacks_result ch message cbs w :
  let w' := fst (forEach (call_callback ch message) cbs w) in
  snd (forEach (call_callback ch message) cbs w) = Normal tt
  /\ callbacks_called (trace w') = callbacks_called (trace w) ++ map cb_id cbs
  /\ shutdownErrors (this w') = shutdownErrors (this w) ++ thrown_of cbs
  /\ shutdownCallbacks (this w') = shutdownCallbacks (this w)
  /\ resourceCleanupCallbacks (this w') = resourceCleanupCallbacks (this w)
  /\ jobs w' = jobs w ++ map (JWrapperCatch ch message) (rejected_of cbs).
Proof.
  revert w. induction cbs as [| cb r IH]; intros w.
  - cbn. rewrite !app_nil_r. repeat split.
  - cbn [forEach].
    destruct (call_callback_result ch message cb w) as (Hn & Hc & He & Hs & Hr & Hj).
    unfold bind. destruct (call_callback ch message cb w) as [w1 r1].
    cbn [fst snd] in *. subst r1.
    destruct (IH w1) as (Hn1 & Hc1 & He1 & Hs1 & Hr1 & Hj1).
    split; [exact Hn1 |]. rewrite Hc1, He1, Hs1, Hr1, Hj1, Hc, He, Hs, Hr, Hj.
    rewrite (thrown_of_cons cb r), (rejected_of_cons cb r), map_app.
    cbn [map]. rewrite <- !app_assoc.
    repeat split.
Qed.

(** The [catch] of a wrapper logs the rejection and records it, as the
    wrapper does at once for a throw. *)
Lemma wrapper_catch_records ch message e w :
  let w' := fst (run_job (JWrapperCatch ch message e) w) in
  snd (run_job (JWrapperCatch ch message e) w) = Normal tt
  /\ shutdownErrors (this w') = shutdownErrors (this w) ++ [e]
  /\ trace w' = trace w ++ [ELog "warn" message (state (this w))]
  /\ callbacks_called (trace w') = callbacks_called (trace w)
  /\ jobs w' = jobs w.
Proof.
  unfold run_job, job_body, callback_failed.
  erewrite bind_normal by (apply log_logs; reflexivity).
  cbn. rewrite callbacks_called_app, callbacks_called_single, app_nil_r.
  repeat split.
Qed.

Lemma later_queues n j w :
  later n j w = (fst (later n j w), Normal tt)
  /\ this (fst (later n j w)) = this w
  /\ trace (fst (later n j w)) = trace w
  /\ exists j', jobs (fst (later n j w)) = jobs w ++ [j'] /\ job_target j' = job_target j.
Proof.
  unfold later, enqueue, modify. cbn. repeat split.
  destruct n; eexists; split; reflexivity.
Qed.

Lemma executeShutdownCallbacks_result ch w :
  let cbs := shutdownCallbacks (this w) in
  exists x,
             executeShutdownCallbacks ch w = (x, Normal tt)
             /\ callbacks_called (trace x) = callbacks_called (trace w) ++ map cb_id cbs
             /\ shutdownErrors (this x) = shutdownErrors (this w) ++ thrown_of cbs
             /\ (cbs = [] -> trace x = trace w /\ this x = this w)
             /\ (exists j,
                   jobs x
                   = jobs w
                     ++ map (JWrapperCatch ch "Error in shutdown callback")
                          (rejected_of cbs)
                     ++ [j]
                   /\ job_target j = match cbs with
                                     | [] => JAfterCallbacks ch
                                     | _ => JCallbacksResume ch
                                     end).
Proof.
  intros cbs.
  unfold executeShutdownCallbacks.
    erewrite bind_normal by reflexivity. fold cbs.
    destruct cbs as [| cb r] eqn:Ec.
    - cbn [List.length Nat.eqb].
      match goal with
      | |- context [later ?n ?j w] =>
          destruct (later_queues n j w) as (El & Ht & Hr & j' & Hj & Hjt); rewrite El
      end.
      eexists. split; [reflexivity |]. rewrite Hr, Ht. cbn. rewrite !app_nil_r.
      repeat split. exists j'. split; [exact Hj | exact Hjt].
    - cbn [List.length Nat.eqb].
      erewrite bind_normal by (apply log_logs; reflexivity).
      set (w1 := set_trace _ w).
      destruct (call_callbacks_result ch "Error in shutdown callback" (cb :: r) w1)
        as (Hn & Hc & He & _ & _ & Hj2).
      assert (E2 : forEach (call_callback ch "Error in shutdown callback") (cb :: r) w1
                   = (fst (forEach (call_callback ch "Error in shutdown callback")
                             (cb :: r) w1), Normal tt)).
      { destruct (forEach _ (cb :: r) w1) as [w2 r2]. cbn in Hn. subst r2. reflexivity. }
      erewrite bind_normal by exact E2.
      set (w2 := fst (forEach _ (cb :: r) w1)) in *.
      match goal with
      | |- context [later ?n ?j w2] =>
          destruct (later_queues n j w2) as (El & Ht & Hr & j' & Hj & Hjt); rewrite El
      end.
      eexists. split; [reflexivity |]. rewrite Hr, Ht, Hc, He.
      split; [| split; [| split]].
      + unfold w1. cbn [trace set_trace]. rewrite callbacks_called_app.
        rewrite callbacks_called_single, app_nil_r. reflexivity.
      + reflexivity.
      + discriminate.
      + exists j'. rewrite Hj, Hj2, <- app_assoc. split; [reflexivity | exact Hjt].
Qed.


Ltac leaf_callbacks :=
  idtac; unfold callbacks_pending in *; cbn in *;
  repeat match goal with
         | |- context [if ?b then _ else _] => destruct b
         end;
  cbn in *;
  rewrite ?callbacks_called_app, ?callbacks_called_single, ?app_nil_r;
  intuition (try congruence).

Lemma cleanup_callbacks ch w0 :
  finishes (callbacks_pending w0) (performResourceCleanup ch)
    (fun x =>
       callbacks_called (trace x)
       = callbacks_called (trace w0) ++ map cb_id (resourceCleanupCallbacks (this w0))
       /\ shutdownErrors (this x)
          = shutdownErrors (this w0) ++ thrown_of (resourceCleanupCallbacks (this w0))
       /\ exists j,
            jobs x
            = jobs w0
              ++ map (JWrapperCatch ch "Error in resource cleanup callback")
                   (rejected_of (resourceCleanupCallbacks (this w0)))
              ++ [j]
            /\ job_target j = JCleanupResume ch).
Proof.
  unfold performResourceCleanup.
  apply (finishes_bind _ _ _ (callbacks_pending w0)); [settles_by leaf_callbacks | intros _].
  apply finishes_try_normal.
  apply (finishes_bind _ _ _ (callbacks_pending w0)); [settles_by leaf_callbacks | intros ts].
  apply (finishes_bind _ _ _ (callbacks_pending w0)); [settles_by leaf_callbacks | intros _].
  apply (finishes_bind _ _ _ (callbacks_pending w0)); [settles_by leaf_callbacks | intros _].
  apply (finishes_bind _ _ _ (callbacks_pending w0)); [settles_by leaf_callbacks | intros ivs].
  apply (finishes_bind _ _ _ (callbacks_pending w0)); [settles_by leaf_callbacks | intros _].
  apply (finishes_bind _ _ _ (callbacks_pending w0)); [settles_by leaf_callbacks | intros _].
  apply (finishes_bind _ _ _ (callbacks_pending w0)); [settles_by leaf_callbacks | intros ls].
  apply (finishes_bind _ _ _ (callbacks_pending w0)); [settles_by leaf_callbacks | intros _].
  apply (finishes_bind _ _ _ (callbacks_pending w0)); [settles_by leaf_callbacks | intros _].
  apply (finishes_bind _ _ _ (callbacks_pending w0)); [settles_by leaf_callbacks | intros hs].
  apply (finishes_bind _ _ _ (callbacks_pending w0)); [settles_by leaf_callbacks | intros _].
  apply (finishes_bind _ _ _ (callbacks_pending w0)); [settles_by leaf_callbacks | intros _].
  intros x (Hc & He & Hr & Hj).
  erewrite bind_normal by reflexivity. rewrite Hr.
  set (cbs := resourceCleanupCallbacks (this w0)).
  destruct (call_callbacks_result ch "Error in resource cleanup callback" cbs x)
    as (Hn1 & Hc1 & He1 & _ & _ & Hj2).
  assert (E2 : forEach (call_callback ch "Error in resource cleanup callback") cbs x
               = (fst (forEach (call_callback ch "Error in resource cleanup callback")
                         cbs x),
                  Normal tt)).
  { destruct (forEach _ cbs x) as [x2 r2]. cbn in Hn1. subst r2. reflexivity. }
  erewrite bind_normal by exact E2.
  set (x2 := fst (forEach _ cbs x)) in *.
  destruct (later_queues (all_settled_after cbs) (JCleanupResume ch) x2)
    as (El & Ht & Htr & j' & Hjq & Hjt).
  rewrite El. cbn [fst snd]. split; [eexists; reflexivity |].
  rewrite Htr, Ht, Hc1, He1, Hc, He. repeat split.
  exists j'. rewrite Hjq, Hj2, Hj, <- app_assoc. split; [reflexivity | exact Hjt].
Qed.

(** X21.  The resource cleanup calls every resource-cleanup callback once, in
    the order of registration, whatever the timers, the listeners and the
    earlier callbacks did.  The error of a callback that throws is recorded
    at once.  For a callback whose promise rejected the [catch] of the
    wrapper is queued at the call, ahead of the job in which the cleanup
    goes on; that [catch] logs the warning and records the error.  When the
    cleanup goes on after its [await] no callback is called again, and the
    one error it can record is that of a listener of 'cleanup-completed'. *)
Theorem X21_cleanup_callbacks_all_called :
  forall (ch : Chain) (w : World),
    let cbs := resourceCleanupCallbacks (this w) in
    let w' := fst (performResourceCleanup ch w) in
    callbacks_called (trace w') = callbacks_called (trace w) ++ map cb_id cbs
    /\ shutdownErrors (this w') = shutdownErrors (this w) ++ thrown_of cbs
    /\ (exists j,
          jobs w'
          = jobs w
            ++ map (JWrapperCatch ch "Error in resource cleanup callback")
                 (rejected_of cbs)
            ++ [j]
          /\ job_target j = JCleanupResume ch)
    /\ (forall (e : JsError) (w2 : World),
          let w3 := fst (run_job (JWrapperCatch ch "Error in resource cleanup callback" e)
                           w2) in
          snd (run_job (JWrapperCatch ch "Error in resource cleanup callback" e) w2)
          = Normal tt
          /\ shutdownErrors (this w3) = shutdownErrors (this w2) ++ [e]
          /\ trace w3
             = trace w2
               ++ [ELog "warn" "Error in resource cleanup callback" (state (this w2))]
          /\ jobs w3 = jobs w2)
    /\ forall (w2 : World),
         let w3 := fst (performResourceCleanup_resume ch w2) in
         callbacks_called (trace w3) = callbacks_called (trace w2)
         /\ shutdownErrors (this w3)
            = shutdownErrors (this w2)
              ++ match userListeners w2 "cleanup-completed" with
                 | Some e => [e]
                 | None => []
                 end.
Proof.
  intros ch w cbs w'.
  assert (H0 : callbacks_pending w w) by (repeat split).
  destruct (cleanup_callbacks ch w w H0) as (_ & H1 & H2 & H3).
  split; [exact H1 |]. split; [exact H2 |]. split; [exact H3 |]. split.
  { intros e w2.
    destruct (wrapper_catch_records ch "Error in resource cleanup callback" e w2)
      as (Hn & He & Ht & _ & Hj).
    cbv zeta. split; [exact Hn |]. split; [exact He |]. split; [exact Ht | exact Hj]. }
  intros w2.
  assert (E : exists x r,
             performResourceCleanup_resume ch w2 = (x, r)
             /\ callbacks_called (trace x) = callbacks_called (trace w2)
             /\ shutdownErrors (this x)
                = shutdownErrors (this w2)
                  ++ match userListeners w2 "cleanup-completed" with
                     | Some e => [e]
                     | None => []
                     end).
  { unfold performResourceCleanup_resume.
    unfold bind at 1. unfold try_catch.
    erewrite bind_normal by (apply log_logs; reflexivity).
    rewrite emit_result by reflexivity. cbn [userListeners set_trace].
    destruct (userListeners w2 "cleanup-completed") as [e |].
    - unfold cleanup_failed.
      erewrite bind_normal by (apply log_logs; reflexivity).
      do 2 eexists. split; [reflexivity |].
      cbn. rewrite !callbacks_called_app, !callbacks_called_single, !app_nil_r.
      split; reflexivity.
    - do 2 eexists. split; [reflexivity |].
      cbn. rewrite !callbacks_called_app, !callbacks_called_single, !app_nil_r.
      split; reflexivity. }
  destruct E as (x & r & -> & E). exact E.
Qed.

(** ** Completion *)

(** X24.  [completeShutdown] enters [TERMINATION], emits 'shutdown-completed'
    with the summary (signal, duration since the start, number of recorded
    errors, size of the registry) and exits with the status in the summary.
    The status is 0 exactly when no error was passed in and none was
    recorded; 1 exactly when, not being 0, an error named 'TimeoutError'
    was recorded (the error passed in does not count); 2 otherwise.  When
    a listener of 'shutdown-completed' throws, the process does not exit
    there. *)
Theorem X24_complete_shutdown_exit_status :
  forall (signal : string) (error : option JsError) (w : World),
    let errors := shutdownErrors (this w) in
    let code := exitCode_of error errors in
    let w' := fst (completeShutdown signal error w) in
    state (this w') = TERMINATION
    /\ In (EEmit "shutdown-completed"
             (PSummary {| sum_signal := signal;
                          sum_duration := duration_since (shutdownStartTime (this w)) (now w);
                          sum_errorsEncountered := List.length errors;
                          sum_finalConnectionCount := connectionCount w |} code))
         (trace w')
    /\ match userListeners w "shutdown-completed" with
       | None =>
           snd (completeShutdown signal error w) = Halt
           /\ halted w' = Some (Exited code)
           /\ In (EProcessExit code) (trace w')
       | Some e =>
           snd (completeShutdown signal error w) = Throw e
           /\ halted w' = halted w
       end
    /\ (code = EXIT_CODES.GRACEFUL <-> error = None /\ errors = [])
    /\ (code = EXIT_CODES.TIMEOUT <->
        (error <> None \/ errors <> [])
        /\ existsb (fun err => streq (err_name err) "TimeoutError") errors = true)
    /\ (code = EXIT_CODES.GRACEFUL \/ code = EXIT_CODES.TIMEOUT
        \/ code = EXIT_CODES.RESOURCE_CLEANUP_FAILED).
Proof.
  intros signal error w errors code w'.
  assert (E : exists x r,
             completeShutdown signal error w = (x, r)
             /\ state (this x) = TERMINATION
             /\ In (EEmit "shutdown-completed"
                      (PSummary {| sum_signal := signal;
                                   sum_duration :=
                                     duration_since (shutdownStartTime (this w)) (now w);
                                   sum_errorsEncountered := List.length errors;
                                   sum_finalConnectionCount := connectionCount w |} code))
                  (trace x)
             /\ match userListeners w "shutdown-completed" with
                | None => r = Halt /\ halted x = Some (Exited code)
                          /\ In (EProcessExit code) (trace x)
                | Some e => r = Throw e /\ halted x = halted w
                end).
  { unfold completeShutdown.
    erewrite bind_normal by reflexivity.
    erewrite bind_normal by reflexivity.
    erewrite bind_normal by reflexivity.
    erewrite bind_normal by reflexivity.
    erewrite bind_normal by reflexivity.
    cbv zeta.
    erewrite bind_normal by (apply log_logs; reflexivity).
    unfold bind. rewrite emit_result by reflexivity.
    cbn [userListeners set_trace set_this].
    destruct (userListeners w "shutdown-completed").
    - do 2 eexists. split; [reflexivity |]. cbn.
      split; [reflexivity |]. split; [| split; reflexivity].
      apply in_or_app. right. left. reflexivity.
    - do 2 eexists. split; [reflexivity |]. cbn.
      split; [reflexivity |]. split; [| split; [reflexivity | split; [reflexivity |]]].
      + apply in_or_app. left. apply in_or_app. right. left. reflexivity.
      + apply in_or_app. right. left. reflexivity. }
  destruct E as (x & r & Ex & H1 & H2 & H3).
  unfold w'. rewrite Ex. cbn [fst snd].
  split; [exact H1 |]. split; [exact H2 |]. split; [exact H3 |].
  clear. unfold code.
  destruct (exitCode_of_cases error errors)
    as [(E & He & Hl) | [(E & Ht) | (E & Ht & Hne)]]; rewrite E.
  - split; [split; auto |]. split; [| auto].
    split; [discriminate |]. intros [[H | H] _]; contradiction.
  - split; [split; [discriminate |] |].
    + intros [-> Hl]. rewrite Hl in Ht. discriminate.
    + split; [| auto]. split; [intros _ | reflexivity]. split; [| exact Ht].
      destruct errors; [discriminate | right; discriminate].
  - split; [split; [discriminate |] |].
    + intros [He Hl]. destruct Hne; contradiction.
    + split; [| auto]. split; [discriminate |]. intros [_ H]. congruence.
Qed.

(** ** Tracked timers *)

Lemma try_post {A} (m : M A) h (P : World -> Prop) w :
  P (fst (m w)) -> (forall e, preserves P (h e)) -> P (fst (try_catch m h w)).
Proof.
  intros H Hh. unfold try_catch. destruct (m w) as [w' [a | e | ]]; cbn in *; auto.
  apply Hh, H.
Qed.

Lemma forEach_reaches {A} (f : A -> M unit) (l : list A) (x : A) (P : World -> Prop) :
  (forall y, finishes (fun _ => True) (f y) (fun _ => True)) ->
  (forall w, P (fst (f x w))) ->
  (forall y, preserves P (f y)) ->
  In x l -> forall w, P (fst (forEach f l w)).
Proof.
  intros Hf Hx Hp. induction l as [| a r IH]; intros Hin w; [destruct Hin |].
  cbn [forEach].
  destruct (finishes_run _ _ _ w (Hf a) I) as ([] & w' & Ea & _).
  erewrite bind_normal by exact Ea.
  destruct Hin as [<- | Hin].
  - apply preserves_forEach; [exact Hp |].
    specialize (Hx w). rewrite Ea in Hx. exact Hx.
  - apply IH, Hin.
Qed.

Lemma clearTimeout_gone t w : timer_gone t (fst (clearTimeout t w)).
Proof. cbn. intros p Hp. cbn in Hp. apply cancel_gone in Hp. exact Hp. Qed.

Ltac leaf_cleared :=
  idtac; unfold cleared in *; cbn in *;
  repeat match goal with
         | |- context [if ?b then _ else _] => destruct b
         end;
  cbn in *;
  repeat match goal with H : _ /\ _ |- _ => destruct H end;
  split; [auto using in_or_app |];
  auto;
  try (unfold timer_gone in *; cbn; intros ? ?;
       match goal with H : In _ (cancel _ _) |- _ => apply cancel_In in H end; auto).

Lemma cleanup_clears_timers ch t w :
  In t (timers (this w)) -> cleared t (fst (performResourceCleanup ch w)).
Proof.
  intros Ht. unfold performResourceCleanup.
  erewrite bind_normal by (apply log_logs; reflexivity).
  set (w1 := set_trace _ w).
  apply try_post; [| intros e; preserves_with known_none leaf_cleared].
  erewrite bind_normal by reflexivity.
  apply bind_post; [| intros a; preserves_with known_none leaf_cleared].
  apply (forEach_reaches clearTimeout (timers (this w1)) t).
  - intros y. settles_by leaf_simple.
  - intros x. split; [apply clearTimeout_clears | apply clearTimeout_gone].
  - intros y. preserves_with known_none leaf_cleared.
  - exact Ht.
Qed.

Lemma cleanup_clears_intervals ch t w :
  In t (intervals (this w)) ->
  In (EClearInterval t) (trace (fst (performResourceCleanup ch w))).
Proof.
  intros Ht. unfold performResourceCleanup.
  erewrite bind_normal by (apply log_logs; reflexivity).
  set (w1 := set_trace _ w).
  apply try_post; [| intros e; preserves_with known_none leaf_in_trace].
  erewrite bind_normal by reflexivity.
  assert (Hts : forall l, finishes (fun x => intervals (this x) = intervals (this w))
                            (forEach clearTimeout l)
                            (fun x => intervals (this x) = intervals (this w)))
    by (intros l; settles_by leaf_simple).
  destruct (finishes_run _ _ _ w1 (Hts (timers (this w1))) eq_refl) as ([] & w2 & E2 & H2).
  erewrite bind_normal by exact E2.
  erewrite bind_normal by reflexivity.
  erewrite bind_normal by reflexivity.
  apply bind_post; [| intros a; preserves_with known_none leaf_in_trace].
  cbn [intervals set_this set_timers this].
  apply (forEach_reaches clearInterval _ t).
  - intros y. settles_by leaf_simple.
  - intros x. apply clearInterval_clears.
  - intros y. preserves_with known_none leaf_in_trace.
  - rewrite H2. exact Ht.
Qed.

Lemma JsSet_add_In x s : In x (JsSet.add x s).
Proof.
  unfold JsSet.add. destruct (existsb (Nat.eqb x) s) eqn:E.
  - apply existsb_exists in E. destruct E as (y & Hy & Exy).
    apply Nat.eqb_eq in Exy. subst. exact Hy.
  - apply in_or_app. right. left. reflexivity.
Qed.

Lemma JsSet_add_present x s : In x s -> JsSet.add x s = s.
Proof.
  intros H. unfold JsSet.add.
  assert (E : existsb (Nat.eqb x) s = true).
  { apply existsb_exists. exists x. split; [exact H | apply Nat.eqb_refl]. }
  rewrite E. reflexivity.
Qed.

(** X26.  [trackTimer] and [trackInterval] return the handle they are given
    and keep it once (tracking it again changes nothing); the resource
    cleanup then clears the timer, so that no pending timer has that
    handle, and the interval. *)
Theorem X26_tracked_timers_are_cleared :
  forall (t : TimerId) (ch : Chain) (w : World),
    let w1 := fst (trackTimer t w) in
    let w2 := fst (trackInterval t w) in
    snd (trackTimer t w) = Normal t
    /\ snd (trackInterval t w) = Normal t
    /\ In t (timers (this w1))
    /\ In t (intervals (this w2))
    /\ (In t (timers (this w)) -> timers (this w1) = timers (this w))
    /\ (In t (intervals (this w)) -> intervals (this w2) = intervals (this w))
    /\ In (EClearTimeout t) (trace (fst (performResourceCleanup ch w1)))
    /\ timer_gone t (fst (performResourceCleanup ch w1))
    /\ In (EClearInterval t) (trace (fst (performResourceCleanup ch w2))).
Proof.
  intros t ch w w1 w2.
  assert (H1 : In t (timers (this w1))) by apply JsSet_add_In.
  assert (H2 : In t (intervals (this w2))) by apply JsSet_add_In.
  split; [reflexivity |]. split; [reflexivity |].
  split; [exact H1 |]. split; [exact H2 |].
  split; [intros H; apply (JsSet_add_present _ _ H) |].
  split; [intros H; apply (JsSet_add_present _ _ H) |].
  split; [apply (cleanup_clears_timers ch t w1 H1) |].
  split; [apply (cleanup_clears_timers ch t w1 H1) |].
  apply (cleanup_clears_intervals ch t w2 H2).
Qed.

(** ** Tracked listeners *)

Lemma JsMap_nat_get_set {V} (k : nat) (v : V) m :
  JsMap.get Nat.eqb k (JsMap.set Nat.eqb k v m) = Some v.
Proof.
  induction m as [| [k' x] r IH]; simpl.
  - rewrite Nat.eqb_refl. reflexivity.
  - destruct (Nat.eqb k k') eqn:E; simpl.
    + rewrite Nat.eqb_refl. reflexivity.
    + rewrite E. exact IH.
Qed.

Lemma JsMap_nat_set_In {V} (k : nat) (v : V) m :
  In (k, v) (JsMap.set Nat.eqb k v m).
Proof.
  induction m as [| [k' x] r IH]; simpl.
  - left. reflexivity.
  - destruct (Nat.eqb k k'); [left; reflexivity | right; exact IH].
Qed.

Lemma trackEventListener_records target event handler w :
  (forall tg l,
      JsMap.get Nat.eqb (tgt_id target) (eventListeners (this w)) = Some (tg, l) ->
      tgt_id tg = tgt_id target) ->
  let w1 := fst (trackEventListener target event handler w) in
  snd (trackEventListener target event handler w) = Normal handler
  /\ trace w1 = trace w ++ [ETargetOn (tgt_id target) event handler]
  /\ exists tg l,
       In (tgt_id target, (tg, l)) (eventListeners (this w1))
       /\ tgt_id tg = tgt_id target
       /\ In {| reg_event := event; reg_handler := handler |} l.
Proof.
  intros Hk. unfold trackEventListener, JsMap.has, upd, effect, modify, when, bind, gets, ret.
  cbn.
  destruct (JsMap.get Nat.eqb (tgt_id target) (eventListeners (this w)))
    as [[tg l] |] eqn:E; cbn.
  - rewrite E. cbn. split; [reflexivity |]. split; [reflexivity |].
    exists tg, (l ++ [{| reg_event := event; reg_handler := handler |}]).
    split; [apply JsMap_nat_set_In |]. split; [apply (Hk tg l eq_refl) |].
    apply in_or_app. right. left. reflexivity.
  - rewrite JsMap_nat_get_set. cbn. split; [reflexivity |]. split; [reflexivity |].
    exists target, [{| reg_event := event; reg_handler := handler |}].
    split; [apply JsMap_nat_set_In |]. split; [reflexivity |]. left. reflexivity.
Qed.

Lemma removeListener_attempted target r w :
  In (ERemoveListener (tgt_id target) (reg_event r) (reg_handler r))
    (trace (fst (try_catch (removeListener target r)
                   (fun _ => log "warn" "Error removing event listener") w))).
Proof.
  unfold removeListener, log, effect, modify, try_catch, bind, gets, throw, ret. cbn.
  destruct (tgt_remove_fault target); cbn;
    auto 6 using in_or_app, in_eq, in_cons.
Qed.

Lemma cleanup_removes_listeners ch k tg l r w :
  In (k, (tg, l)) (eventListeners (this w)) ->
  In r l ->
  In (ERemoveListener (tgt_id tg) (reg_event r) (reg_handler r))
    (trace (fst (performResourceCleanup ch w))).
Proof.
  intros Hin Hr. unfold performResourceCleanup.
  erewrite bind_normal by (apply log_logs; reflexivity).
  set (w1 := set_trace _ w).
  apply try_post; [| intros e; preserves_with known_none leaf_in_trace].
  set (K := fun x : World => eventListeners (this x) = eventListeners (this w)).
  assert (Hts : forall l0, finishes K (forEach clearTimeout l0) K)
    by (intros l0; settles_by leaf_simple).
  assert (His : forall l0, finishes K (forEach clearInterval l0) K)
    by (intros l0; settles_by leaf_simple).
  erewrite bind_normal by reflexivity.
  destruct (finishes_run _ _ _ w1 (Hts (timers (this w1))) eq_refl) as ([] & w2 & E2 & H2).
  erewrite bind_normal by exact E2.
  erewrite bind_normal by reflexivity.
  erewrite bind_normal by reflexivity.
  destruct (finishes_run _ _ _ (set_this (set_timers [] (this w2)) w2)
              (His (intervals (this w2))) H2) as ([] & w3 & E3 & H3).
  erewrite bind_normal by exact E3.
  erewrite bind_normal by reflexivity.
  erewrite bind_normal by reflexivity.
  apply bind_post; [| intros a; preserves_with known_none leaf_in_trace].
  cbn [eventListeners set_this set_intervals this].
  apply (forEach_reaches _ _ (k, (tg, l))).
  - intros [k' [tg' l']]. cbn. settles_by leaf_simple.
  - intros x. cbn [snd].
    apply (forEach_reaches _ _ r).
    + intros y. settles_by leaf_simple.
    + intros x'. apply removeListener_attempted.
    + intros y. preserves_with known_none leaf_in_trace.
    + exact Hr.
  - intros [k' [tg' l']]. cbn. preserves_with known_none leaf_in_trace.
  - unfold K in H3. rewrite H3. exact Hin.
Qed.

(** X27.  [trackEventListener] attaches the handler to the target, returns it
    and records it; the resource cleanup then calls [removeListener] for
    it, whether or not other removals throw, and forgets all listeners.
    (The hypothesis: the entry of the listener map for this target, if
    there is one, is of this target.) *)
Theorem X27_tracked_listeners_are_removed :
  forall (target : Target) (event : string) (handler : nat) (ch : Chain) (w : World),
    (forall tg l,
        JsMap.get Nat.eqb (tgt_id target) (eventListeners (this w)) = Some (tg, l) ->
        tgt_id tg = tgt_id target) ->
    let w1 := fst (trackEventListener target event handler w) in
    let w2 := fst (performResourceCleanup ch w1) in
    snd (trackEventListener target event handler w) = Normal handler
    /\ trace w1 = trace w ++ [ETargetOn (tgt_id target) event handler]
    /\ In (ERemoveListener (tgt_id target) event handler) (trace w2)
    /\ eventListeners (this w2) = [].
Proof.
  intros target event handler ch w Hk w1 w2.
  destruct (trackEventListener_records target event handler w Hk)
    as (Hn & Ht & tg & l & Hin & Hid & Hr).
  split; [exact Hn |]. split; [exact Ht |]. split.
  - rewrite <- Hid.
    apply (cleanup_removes_listeners ch _ tg l
             {| reg_event := event; reg_handler := handler |} w1 Hin Hr).
  - destruct (performResourceCleanup_finishes ch w1 I) as [_ (_ & _ & H)]. exact H.
Qed.

Lemma X27_witness :
  In (ERemoveListener 7 "data" 1%nat)
    (trace (fst (performResourceCleanup Transition
                   (fst (trackEventListener data_target "data" 1%nat
                           (new_ShutdownCoordinator 0 quiet no_options)))))).
Proof.
  assert (H : forall tg l,
             JsMap.get Nat.eqb (tgt_id data_target)
               (eventListeners (this (new_ShutdownCoordinator 0 quiet no_options)))
             = Some (tg, l) -> tgt_id tg = tgt_id data_target)
    by (intros tg l E; vm_compute in E; discriminate E).
  destruct (X27_tracked_listeners_are_removed data_target "data" 1%nat Transition
              (new_ShutdownCoordinator 0 quiet no_options) H) as (_ & _ & Hr & _).
  exact Hr.
Defined.

(** ** Programmatic shutdown *)

Ltac leaf_triggered :=
  idtac; unfold triggered in *; cbn in *;
  repeat match goal with
         | |- context [if ?b then _ else _] => destruct b
         end;
  cbn in *;
  repeat match goal with H : _ /\ _ |- _ => destruct H end;
  repeat split; auto using in_or_app.

Lemma handleSignal_triggers signal error w :
  shutdownInitiated (this w) = false ->
  triggered signal error (now w) (fst (handleSignal signal error w)).
Proof.
  intros Hi. unfold handleSignal.
  erewrite bind_normal by reflexivity. rewrite Hi.
  erewrite bind_normal by (apply log_logs; reflexivity).
  erewrite bind_normal by reflexivity.
  erewrite bind_normal by reflexivity.
  erewrite bind_normal by reflexivity.
  erewrite bind_normal by reflexivity.
  apply try_post; [| intros e; preserves_with known_none leaf_triggered].
  apply bind_post; [| intros a; preserves_with known_none leaf_triggered].
  rewrite emit_result by reflexivity. cbn.
  repeat split. apply in_or_app. right. left. reflexivity.
Qed.

(** X13.  [shutdown(reason)] logs the request and goes through the guard of
    [handleSignal] like a signal.  During a shutdown it adds the warning
    that the trigger is ignored, and nothing else; otherwise it starts the
    sequence: the reason ('PROGRAMMATIC' when none is given) is the signal
    of 'shutdown-initiated', the state is [SHUTDOWN_PENDING] and the start
    time is the clock. *)
Theorem X13_programmatic_shutdown :
  forall (reason : option string) (w : World),
    let r := or_default reason "PROGRAMMATIC" in
    let w' := fst (shutdown reason w) in
    if shutdownInitiated (this w) then
      shutdown reason w
      = (set_trace
           (trace w ++
            [ELog "info" "Programmatic shutdown requested" (state (this w));
             ELog "warn" ("Received " +++ r +++ " signal during shutdown, ignoring")
               (state (this w))]) w,
         Normal tt)
    else
      In (ELog "info" "Programmatic shutdown requested" (state (this w))) (trace w')
      /\ shutdownInitiated (this w') = true
      /\ state (this w') = SHUTDOWN_PENDING
      /\ shutdownStartTime (this w') = Some (now w)
      /\ In (EEmit "shutdown-initiated" (PTrigger r None)) (trace w').
Proof.
  intros reason w r w'.
  destruct (shutdownInitiated (this w)) eqn:Hi.
  - unfold shutdown. cbv zeta.
    erewrite bind_normal by (apply log_logs; reflexivity).
    rewrite handleSignal_ignored by exact Hi.
    rewrite log_logs by reflexivity. cbn. rewrite <- app_assoc. reflexivity.
  - unfold w', shutdown. cbv zeta.
    erewrite bind_normal by (apply log_logs; reflexivity).
    set (w1 := set_trace _ w).
    assert (Hl : In (ELog "info" "Programmatic shutdown requested" (state (this w)))
                   (trace w1)).
    { cbn. apply in_or_app. right. left. reflexivity. }
    split.
    + assert (Hp : preserves (fun x => In (ELog "info" "Programmatic shutdown requested"
                                             (state (this w))) (trace x))
                     (handleSignal (or_default reason "PROGRAMMATIC") None))
        by (preserves_with known_none leaf_in_trace).
      apply Hp, Hl.
    + apply (handleSignal_triggers (or_default reason "PROGRAMMATIC") None w1 Hi).
Qed.

(** ** The listeners on the process *)

Lemma count_of_app s a b : count_of s (a ++ b) = (count_of s a + count_of s b)%nat.
Proof. unfold count_of. rewrite filter_app, length_app. reflexivity. Qed.

Lemma count_of_remove_first_other s s' l :
  streq s' s = false -> count_of s' (remove_first s l) = count_of s' l.
Proof.
  intros Hs. induction l as [| x r IH]; [reflexivity |].
  cbn [remove_first]. destruct (streq s x) eqn:E.
  - apply String.eqb_eq in E. subst x. unfold count_of. cbn. rewrite Hs. reflexivity.
  - unfold count_of in *. cbn. destruct (streq s' x); cbn; rewrite IH; reflexivity.
Qed.

Lemma count_of_remove_first_same s l :
  count_of s (remove_first s l) = pred (count_of s l).
Proof.
  induction l as [| x r IH]; [reflexivity |].
  cbn [remove_first]. destruct (streq s x) eqn:E.
  - unfold count_of. cbn. rewrite E. reflexivity.
  - unfold count_of in *. cbn. rewrite E. exact IH.
Qed.

Ltac leaf_process :=
  idtac; unfold process_signals in *; cbn in *;
  repeat match goal with
         | |- context [if ?b then _ else _] => destruct b
         end;
  cbn in *; intuition auto.

Lemma process_on_result pl sh ev :
  finishes (process_signals pl sh) (process_on ev) (process_signals (pl ++ [ev]) sh).
Proof.
  unfold process_on.
  apply (finishes_bind _ _ _ (process_signals (pl ++ [ev]) sh)).
  - apply finishes_modify. intros w [Hp Hs]. split; cbn; [rewrite Hp; reflexivity | exact Hs].
  - intros _. settles_by leaf_process.
Qed.

Lemma signal_handler_result pl sh signal message :
  finishes (process_signals pl sh)
    (upd (fun c => set_signalHandlers (JsMap.set streq signal signal (signalHandlers c)) c) ;;
     process_on signal ;;
     log "debug" message)
    (process_signals (pl ++ [signal]) (JsMap.set streq signal signal sh)).
Proof.
  apply (finishes_bind _ _ _ (process_signals pl (JsMap.set streq signal signal sh))).
  - apply finishes_modify. intros w [Hp Hs]. split; cbn; [exact Hp | rewrite Hs; reflexivity].
  - intros _.
    apply (finishes_bind _ _ _ (process_signals (pl ++ [signal])
                                  (JsMap.set streq signal signal sh)));
      [apply process_on_result | intros _; settles_by leaf_process].
Qed.

Lemma setupSignalHandlers_result w :
  signalHandlers (this w) = [] ->
  let w1 := fst (setupSignalHandlers w) in
  snd (setupSignalHandlers w) = Normal tt
  /\ processListeners w1
     = processListeners w
       ++ ["SIGTERM"; "SIGINT"; "SIGUSR2"; "uncaughtException"; "unhandledRejection"]
  /\ signalHandlers (this w1)
     = [("SIGTERM", "SIGTERM"); ("SIGINT", "SIGINT"); ("SIGUSR2", "SIGUSR2")].
Proof.
  intros Hs.
  assert (H : finishes (process_signals (processListeners w) [])
                setupSignalHandlers
                (process_signals
                   (((((processListeners w ++ ["SIGTERM"]) ++ ["SIGINT"]) ++ ["SIGUSR2"])
                       ++ ["uncaughtException"]) ++ ["unhandledRejection"])
                   (JsMap.set streq "SIGUSR2" "SIGUSR2"
                      (JsMap.set streq "SIGINT" "SIGINT"
                         (JsMap.set streq "SIGTERM" "SIGTERM" []))))).
  { unfold setupSignalHandlers. cbn [forEach].
    eapply finishes_bind.
    - eapply finishes_bind; [apply signal_handler_result | intros _].
      eapply finishes_bind; [apply signal_handler_result | intros _].
      eapply finishes_bind; [apply signal_handler_result | intros _].
      apply finishes_ret.
    - intros _. eapply finishes_bind; [apply process_on_result | intros _].
      apply process_on_result. }
  destruct (H w (conj eq_refl Hs)) as [[[] Hn] [Hp Hh]].
  cbv zeta. split; [exact Hn |]. split.
  - rewrite Hp. rewrite <- !app_assoc. reflexivity.
  - rewrite Hh. reflexivity.
Qed.

Lemma remove_signal_handlers hs :
  forall w,
    exists x,
      forEach
        (fun entry : string * string =>
           try_catch (process_removeListener (fst entry))
             (fun _ => log "warn" "Error removing signal handler")) hs w
      = (x, Normal tt)
      /\ processListeners x
         = fold_left (fun l entry => remove_first (fst entry) l) hs (processListeners w)
      /\ signalHandlers (this x) = signalHandlers (this w).
Proof.
  induction hs as [| [s h] r IH]; intros w.
  - exists w. repeat split.
  - cbn [forEach fold_left fst].
    erewrite bind_normal by reflexivity.
    match goal with
    | |- exists x, forEach _ r ?y = _ /\ _ => destruct (IH y) as (x & E & Hp & Hs)
    end.
    exists x. split; [exact E |]. split; [exact Hp | exact Hs].
Qed.

Lemma cleanup_process_listeners ch w :
  processListeners (fst (performResourceCleanup ch w))
  = fold_left (fun l entry => remove_first (fst entry) l) (signalHandlers (this w))
      (processListeners w)
  /\ signalHandlers (this (fst (performResourceCleanup ch w))) = [].
Proof.
  set (PL := processListeners w). set (SH := signalHandlers (this w)).
  set (K := process_signals PL SH).
  set (Q := process_signals (fold_left (fun l entry => remove_first (fst entry) l) SH PL) []).
  enough (H : finishes K (performResourceCleanup ch) Q)
    by (destruct (H w (conj eq_refl eq_refl)) as [_ HQ]; exact HQ).
  unfold performResourceCleanup.
  apply (finishes_bind _ _ _ K); [unfold K; settles_by leaf_process | intros _].
  apply finishes_try_normal.
  apply (finishes_bind _ _ _ K); [unfold K; settles_by leaf_process | intros ts].
  apply (finishes_bind _ _ _ K); [unfold K; settles_by leaf_process | intros _].
  apply (finishes_bind _ _ _ K); [unfold K; settles_by leaf_process | intros _].
  apply (finishes_bind _ _ _ K); [unfold K; settles_by leaf_process | intros ivs].
  apply (finishes_bind _ _ _ K); [unfold K; settles_by leaf_process | intros _].
  apply (finishes_bind _ _ _ K); [unfold K; settles_by leaf_process | intros _].
  apply (finishes_bind _ _ _ K); [unfold K; settles_by leaf_process | intros ls].
  apply (finishes_bind _ _ _ K); [unfold K; settles_by leaf_process | intros _].
  apply (finishes_bind _ _ _ K); [unfold K; settles_by leaf_process | intros _].
  intros x [Hpl Hsh].
  erewrite bind_normal by reflexivity. rewrite Hsh.
  destruct (remove_signal_handlers SH x) as (x2 & E & Hp & Hs).
  erewrite bind_normal by exact E.
  erewrite bind_normal by reflexivity.
  match goal with
  | |- (exists a, snd (?m ?y) = _) /\ _ =>
      assert (HQ : finishes Q m Q) by (unfold Q; settles_by leaf_process);
      apply (HQ y)
  end.
  split; cbn; [rewrite Hp, Hpl; reflexivity | reflexivity].
Qed.

(** X10.  [setupSignalHandlers] puts five listeners on the process; the
    resource cleanup takes the three signal listeners off again and forgets
    them, and leaves the listeners for 'uncaughtException' and
    'unhandledRejection' on the process. *)
Theorem X10_signal_handlers_removed_by_cleanup :
  forall (ch : Chain) (w : World),
    signalHandlers (this w) = [] ->
    let w1 := fst (setupSignalHandlers w) in
    let w2 := fst (performResourceCleanup ch w1) in
    processListeners w1
    = processListeners w
      ++ ["SIGTERM"; "SIGINT"; "SIGUSR2"; "uncaughtException"; "unhandledRejection"]
    /\ signalHandlers (this w2) = []
    /\ count_of "SIGTERM" (processListeners w2) = count_of "SIGTERM" (processListeners w)
    /\ count_of "SIGINT" (processListeners w2) = count_of "SIGINT" (processListeners w)
    /\ count_of "SIGUSR2" (processListeners w2) = count_of "SIGUSR2" (processListeners w)
    /\ count_of "uncaughtException" (processListeners w2)
       = S (count_of "uncaughtException" (processListeners w))
    /\ count_of "unhandledRejection" (processListeners w2)
       = S (count_of "unhandledRejection" (processListeners w)).
Proof.
  intros ch w Hs w1 w2.
  destruct (setupSignalHandlers_result w Hs) as (_ & Hp & Hh).
  destruct (cleanup_process_listeners ch w1) as [Hc Hc2].
  fold w1 in Hp, Hh. fold w2 in Hc, Hc2.
  split; [exact Hp |]. split; [exact Hc2 |].
  rewrite Hc, Hh, Hp. cbn [fold_left fst].
  repeat split;
    repeat first
      [ rewrite count_of_remove_first_same
      | rewrite count_of_remove_first_other by reflexivity ];
    rewrite count_of_app; cbn; lia.
Qed.

Lemma X10_witness :
  signalHandlers (this (new_ShutdownCoordinator 0 quiet no_options)) = []
  /\ count_of "SIGTERM"
       (processListeners
          (fst (performResourceCleanup Transition
                  (fst (setupSignalHandlers (new_ShutdownCoordinator 0 quiet no_options))))))
     = count_of "SIGTERM" (processListeners (new_ShutdownCoordinator 0 quiet no_options)).
Proof.
  assert (H : signalHandlers (this (new_ShutdownCoordinator 0 quiet no_options)) = [])
    by reflexivity.
  split; [exact H |].
  destruct (X10_signal_handlers_removed_by_cleanup Transition
              (new_ShutdownCoordinator 0 quiet no_options) H) as (_ & _ & Hc & _).
  exact Hc.
Defined.

(** ** Registration of callbacks *)

Lemma onShutdown_registers cb w :
  let w1 := fst (onShutdown (Some cb) w) in
  snd (onShutdown (Some cb) w) = Normal tt
  /\ shutdownCallbacks (this w1) = shutdownCallbacks (this w) ++ [cb]
  /\ callbacks_called (trace w1) = callbacks_called (trace w).
Proof.
  unfold onShutdown, log, upd, effect, modify, bind, gets, ret. cbn.
  destruct (negb (streq (logLevel (config (this w))) "debug")); cbn;
    rewrite ?callbacks_called_app, ?callbacks_called_single, ?app_nil_r; repeat split.
Qed.

Lemma onResourceCleanup_registers cb w :
  let w1 := fst (onResourceCleanup (Some cb) w) in
  snd (onResourceCleanup (Some cb) w) = Normal tt
  /\ resourceCleanupCallbacks (this w1) = resourceCleanupCallbacks (this w) ++ [cb]
  /\ callbacks_called (trace w1) = callbacks_called (trace w).
Proof.
  unfold onResourceCleanup, log, upd, effect, modify, bind, gets, ret. cbn.
  destruct (negb (streq (logLevel (config (this w))) "debug")); cbn;
    rewrite ?callbacks_called_app, ?callbacks_called_single, ?app_nil_r; repeat split.
Qed.

Lemma onShutdown_all cbs w :
  let w1 := fold_left (fun x cb => fst (onShutdown (Some cb) x)) cbs w in
  shutdownCallbacks (this w1) = shutdownCallbacks (this w) ++ cbs
  /\ callbacks_called (trace w1) = callbacks_called (trace w).
Proof.
  revert w. induction cbs as [| cb r IH]; intros w; cbn [fold_left].
  - rewrite app_nil_r. split; reflexivity.
  - destruct (onShutdown_registers cb w) as (_ & Hs & Hc).
    destruct (IH (fst (onShutdown (Some cb) w))) as [Hs1 Hc1].
    cbv zeta. rewrite Hs1, Hc1, Hs, Hc, <- app_assoc. split; reflexivity.
Qed.

Lemma onResourceCleanup_all cbs w :
  let w1 := fold_left (fun x cb => fst (onResourceCleanup (Some cb) x)) cbs w in
  resourceCleanupCallbacks (this w1) = resourceCleanupCallbacks (this w) ++ cbs
  /\ callbacks_called (trace w1) = callbacks_called (trace w).
Proof.
  revert w. induction cbs as [| cb r IH]; intros w; cbn [fold_left].
  - rewrite app_nil_r. split; reflexivity.
  - destruct (onResourceCleanup_registers cb w) as (_ & Hs & Hc).
    destruct (IH (fst (onResourceCleanup (Some cb) w))) as [Hs1 Hc1].
    cbv zeta. rewrite Hs1, Hc1, Hs, Hc, <- app_assoc. split; reflexivity.
Qed.

(** X23.  [onShutdown] and [onResourceCleanup] refuse an argument that is no
    function and register nothing; callbacks given one after the other are
    appended to those already registered, and the shutdown calls them in
    that order. *)
Theorem X23_callbacks_run_in_registration_order :
  forall (cbs : list Callback) (ch : Chain) (w : World),
    let w1 := fold_left (fun x cb => fst (onShutdown (Some cb) x)) cbs w in
    let w2 := fold_left (fun x cb => fst (onResourceCleanup (Some cb) x)) cbs w in
    onShutdown None w = (w, Throw (mkError "Shutdown callback must be a function"))
    /\ onResourceCleanup None w
       = (w, Throw (mkError "Resource cleanup callback must be a function"))
    /\ shutdownCallbacks (this w1) = shutdownCallbacks (this w) ++ cbs
    /\ resourceCleanupCallbacks (this w2) = resourceCleanupCallbacks (this w) ++ cbs
    /\ callbacks_called (trace (fst (executeShutdownCallbacks ch w1)))
       = callbacks_called (trace w) ++ map cb_id (shutdownCallbacks (this w) ++ cbs)
    /\ callbacks_called (trace (fst (performResourceCleanup ch w2)))
       = callbacks_called (trace w)
         ++ map cb_id (resourceCleanupCallbacks (this w) ++ cbs).
Proof.
  intros cbs ch w w1 w2.
  destruct (onShutdown_all cbs w) as [Hs Hc].
  destruct (onResourceCleanup_all cbs w) as [Hr Hc2].
  fold w1 in Hs, Hc. fold w2 in Hr, Hc2.
  split; [reflexivity |]. split; [reflexivity |].
  split; [exact Hs |]. split; [exact Hr |]. split.
  - destruct (executeShutdownCallbacks_result ch w1) as (x & Ex & H1 & _).
    rewrite Ex. cbn [fst]. rewrite H1, Hc, Hs. reflexivity.
  - assert (H0 : callbacks_pending w2 w2) by (repeat split).
    destruct (cleanup_callbacks ch w2 w2 H0) as (_ & H1 & _).
    rewrite H1, Hc2, Hr. reflexivity.
Qed.

(** ** The limit outside ACTIVE *)

(** X7.  The limit is enforced in [ACTIVE] only.  In every run, once the state
    has left [ACTIVE], a connection that arrives is tracked whatever the
    size of the registry: the registry grows by one, and the record holds
    the socket and a new idle timer. *)
Theorem X7_limit_not_enforced_during_shutdown :
  forall (t0 : Z) (listeners : string -> option JsError) (options : Options)
         (fuel : nat) (evs : list (Z * Event)) (s : Socket),
    let w := run fuel evs (new_ShutdownCoordinator t0 listeners options) in
    state (this w) <> ACTIVE ->
    let id := (now w, S (connectionCounter (this w))) in
    let w1 := fst (onConnection s w) in
    connectionCount w1 = S (connectionCount w)
    /\ exists info,
         JsMap.get connid_eqb id (activeConnections (this w1)) = Some info
         /\ ci_socket info = s
         /\ ci_timeout info = Some (nextTimer w).
Proof.
  intros t0 listeners options fuel evs s w Hs id w1.
  assert (Hgen : ids_generated (core w)) by apply ids_generated_run.
  assert (Hfresh : JsMap.get connid_eqb id (activeConnections (this w)) = None).
  { destruct (JsMap.get connid_eqb id (activeConnections (this w))) as [i |] eqn:E;
      [| reflexivity].
    apply Hgen in E. cbn in E. lia. }
  assert (E : activeConnections (this w1)
              = JsMap.set connid_eqb id
                  (with_timeout (nextTimer w) (new_connectionInfo id s (now w)))
                  (JsMap.set connid_eqb id (new_connectionInfo id s (now w))
                     (activeConnections (this w)))).
  { unfold w1. rewrite onConnection_unfold. cbv zeta.
    set (w0 := set_this _ w).
    pose proof (frame_eq w0 (frame_checkConnectionLimits s)) as Hf.
    assert (Ha : snd (checkConnectionLimits s w0) = Normal false)
      by (apply checkConnectionLimits_admits; right; exact Hs).
    assert (Hk : preserves (fun x => nextTimer x = nextTimer w /\ now x = now w)
                   (checkConnectionLimits s))
      by (preserves_with known_none ltac:(idtac; cbn in *; intuition auto)).
    specialize (Hk w0 (conj eq_refl eq_refl)).
    destruct (checkConnectionLimits s w0) as [w2 r]. cbn in Ha, Hf, Hk. subst r.
    rewrite trackConnection_connections.
    destruct Hk as [-> ->].
    replace (activeConnections (this w2)) with (c_connections (core w2)) by reflexivity.
    rewrite Hf. reflexivity. }
  split.
  - unfold connectionCount. rewrite E.
    rewrite JsMap_set_size_present, JsMap_set_size_absent; auto.
    rewrite JsMap_get_set_same. discriminate.
  - rewrite E. rewrite JsMap_get_set_same. eexists. split; [reflexivity |].
    split; reflexivity.
Qed.

Lemma X7_witness :
  let w := run 64 full_at_shutdown (new_ShutdownCoordinator 0 quiet (at_most 1)) in
  state (this w) = SHUTDOWN_PENDING
  /\ Z.of_nat (connectionCount w) = maxConnections (config (this w))
  /\ connectionCount (fst (onConnection (socket 2) w)) = S (connectionCount w).
Proof.
  intros w.
  assert (Hs : state (this w) = SHUTDOWN_PENDING) by (vm_compute; reflexivity).
  split; [exact Hs |]. split; [vm_compute; reflexivity |].
  assert (Hn : state (this w) <> ACTIVE) by (rewrite Hs; discriminate).
  exact (proj1 (X7_limit_not_enforced_during_shutdown 0 quiet (at_most 1) 64
                  full_at_shutdown (socket 2) Hn)).
Defined.

(** ** The warning at the limit *)

Lemma logged_app m a b : logged m (a ++ b) = (logged m a + logged m b)%nat.
Proof. unfold logged. rewrite filter_app, length_app. reflexivity. Qed.

Lemma rest_keeps_flag info b :
  preserves (fun w => maxConnectionsReached (this w) = b) (removeConnection_rest info).
Proof. unfold removeConnection_rest. preserves_with known_none leaf_simple. Qed.

(** X8.  'Maximum connections reached' is logged once per excursion to the
    limit: at the limit [maxConnectionsReached] is set, and the warning is
    written only if the flag was not set; below the limit the check does
    nothing.  [removeConnection] clears the flag exactly when the registry
    has fallen below four fifths of the maximum. *)
Theorem X8_limit_warning_once_until_below_threshold :
  forall (s : Socket) (w : World),
    (let w' := fst (checkConnectionLimits s w) in
     if maxConnections (config (this w)) <=? Z.of_nat (connectionCount w) then
       maxConnectionsReached (this w') = true
       /\ logged "Maximum connections reached" (trace w')
          = (logged "Maximum connections reached" (trace w)
             + if maxConnectionsReached (this w) then 0 else 1)%nat
     else checkConnectionLimits s w = (w, Normal false))
    /\ forall (id : ConnId) (info : ConnectionInfo),
         JsMap.get connid_eqb id (activeConnections (this w)) = Some info ->
         let w1 := fst (removeConnection id w) in
         maxConnectionsReached (this w1)
         = if 5 * Z.of_nat (connectionCount w1) <? 4 * maxConnections (config (this w))
           then false else maxConnectionsReached (this w).
Proof.
  intros s w. split.
  - unfold checkConnectionLimits, destroy, log, upd, effect, modify, when, bind, gets,
      throw, ret. cbn.
    destruct (maxConnections (config (this w)) <=? Z.of_nat (connectionCount w));
      [| reflexivity].
    destruct (maxConnectionsReached (this w)) eqn:Ef; cbn;
      destruct (state_eqb (state (this w)) ACTIVE); cbn;
      destruct (sock_destroy_fault s); cbn;
      rewrite ?Ef; (split; [reflexivity |]);
      unfold logged; rewrite ?filter_app, ?length_app; cbn; lia.
  - intros id info Hget w1.
    assert (Hc : connectionCount w1
                 = JsMap.size (JsMap.delete connid_eqb id (activeConnections (this w)))).
    { unfold connectionCount, w1. rewrite removeConnection_deletes. reflexivity. }
    rewrite Hc. unfold w1. rewrite (removeConnection_present _ _ _ Hget).
    apply rest_keeps_flag.
    unfold after_delete, below_threshold.
    set (b := 5 * Z.of_nat (JsMap.size (JsMap.delete connid_eqb id
                                          (activeConnections (this w))))
              <? 4 * maxConnections (config (this w))).
    destruct (ci_timeout info); cbn [set_trace set_pendingTimers this set_this
                                       activeConnections set_activeConnections config];
      fold b; destruct b; reflexivity.
Qed.

(** ** Draining *)

(** X17.  [checkConnections], the listener that the drain puts on
    'connection-removed'.  As long as connections are open it does nothing;
    with the registry empty it clears the grace timer, untracks it, logs,
    and resolves the drain, which queues the next phase the first time
    only. *)
Theorem X17_natural_drain_resolves_once :
  forall (d : nat) (p : DrainPromise) (w : World),
    nth_error (drains w) d = Some p ->
    let w' := fst (checkConnections d w) in
    if Nat.eqb (connectionCount w) 0 then
      snd (checkConnections d w) = Normal tt
      /\ In (EClearTimeout (dp_timer p)) (trace w')
      /\ timer_gone (dp_timer p) w'
      /\ ~ In (dp_timer p) (timers (this w'))
      /\ In (ELog "info" "All connections drained naturally" (state (this w))) (trace w')
      /\ (exists p', nth_error (drains w') d = Some p' /\ dp_resolved p' = true)
      /\ jobs w' = jobs w ++ (if dp_resolved p then [] else [JTick 0 (JAfterDrain (dp_ctx p))])
    else checkConnections d w = (w, Normal tt).
Proof.
  intros d p w Hp w'.
  destruct (Nat.eqb (connectionCount w) 0) eqn:Ez.
  - assert (E : exists x,
               checkConnections d w = (x, Normal tt)
               /\ In (EClearTimeout (dp_timer p)) (trace x)
               /\ timer_gone (dp_timer p) x
               /\ ~ In (dp_timer p) (timers (this x))
               /\ In (ELog "info" "All connections drained naturally" (state (this w)))
                    (trace x)
               /\ (exists p', nth_error (drains x) d = Some p' /\ dp_resolved p' = true)
               /\ jobs x = jobs w ++ (if dp_resolved p then []
                                      else [JTick 0 (JAfterDrain (dp_ctx p))])).
    { unfold checkConnections.
      erewrite bind_normal by reflexivity.
      erewrite bind_normal by reflexivity.
      rewrite Hp, Ez. cbn [when].
      unfold clearTimeout. rewrite bind_assoc.
      erewrite bind_normal by reflexivity.
      erewrite bind_normal by reflexivity.
      erewrite bind_normal by reflexivity.
      erewrite bind_normal by (apply log_logs; reflexivity).
      unfold resolve_drain.
      erewrite bind_normal by reflexivity.
      cbn [drains set_trace set_this set_pendingTimers]. rewrite Hp.
      assert (Hgone : forall l, ~ In (dp_timer p) (JsSet.delete (dp_timer p) l)).
      { intros l Hin. unfold JsSet.delete in Hin. apply filter_In in Hin.
        destruct Hin as [_ Hin]. rewrite Nat.eqb_refl in Hin. discriminate. }
      destruct (dp_resolved p) eqn:Er.
      - eexists. split; [reflexivity |]. cbn.
        split; [apply in_or_app; left; apply in_or_app; right; left; reflexivity |].
        split; [intros q Hq; cbn in Hq; apply cancel_gone in Hq; exact Hq |].
        split; [apply Hgone |].
        split; [apply in_or_app; right; left; reflexivity |].
        split; [exists p; split; [exact Hp | exact Er] | rewrite app_nil_r; reflexivity].
      - erewrite bind_normal by reflexivity.
        eexists. split; [reflexivity |]. cbn.
        split; [apply in_or_app; left; apply in_or_app; right; left; reflexivity |].
        split; [intros q Hq; cbn in Hq; apply cancel_gone in Hq; exact Hq |].
        split; [apply Hgone |].
        split; [apply in_or_app; right; left; reflexivity |].
        split; [| reflexivity].
        exists (mark_resolved p). split; [apply update_nth_nth, Hp | reflexivity]. }
    destruct E as (x & Ex & E). unfold w'. rewrite Ex. cbn [fst snd].
    split; [reflexivity | exact E].
  - unfold checkConnections.
    erewrite bind_normal by reflexivity.
    erewrite bind_normal by reflexivity.
    rewrite Hp, Ez. reflexivity.
Qed.

Lemma X17_witness :
  nth_error (drains drained) 0 = Some first_drain
  /\ connectionCount drained = 0%nat
  /\ jobs (fst (checkConnections 0 drained))
     = jobs drained ++ [JTick 0 (JAfterDrain sigterm)].
Proof.
  assert (H : nth_error (drains drained) 0 = Some first_drain) by (vm_compute; reflexivity).
  split; [exact H |]. split; [vm_compute; reflexivity |].
  pose proof (X17_natural_drain_resolves_once 0 first_drain drained H) as T.
  cbv zeta in T.
  change (Nat.eqb (connectionCount drained) 0) with true in T.
  destruct T as (_ & _ & _ & _ & _ & _ & Hj). exact Hj.
Defined.

(** X16.  With connections open, [drainConnections] enters [DRAINING], emits
    'draining-started' with their number, starts the grace timer
    ([gracePeriodMs] from now), tracks it in [this.timers], and waits: the
    registry is untouched and no job is queued.  When a listener of
    'draining-started' throws, the state is [DRAINING] already but no timer
    was started. *)
Theorem X16_drain_starts_grace_timer :
  forall (ctx : Ctx) (w : World),
    connectionCount w <> 0%nat ->
    let w' := fst (drainConnections ctx w) in
    state (this w') = DRAINING
    /\ In (ELog "info" "Starting connection draining" (state (this w))) (trace w')
    /\ In (EEmit "draining-started" (PCount (connectionCount w))) (trace w')
    /\ activeConnections (this w') = activeConnections (this w)
    /\ match userListeners w "draining-started" with
       | None =>
           snd (drainConnections ctx w) = Normal tt
           /\ pendingTimers w'
              = pendingTimers w
                ++ [{| pt_id := nextTimer w;
                       pt_deadline := now w + gracePeriodMs (config (this w));
                       pt_action := TGrace (List.length (drains w)) |}]
           /\ timers (this w') = JsSet.add (nextTimer w) (timers (this w))
           /\ drains w'
              = drains w ++ [{| dp_timer := nextTimer w; dp_ctx := ctx;
                                dp_resolved := false |}]
           /\ jobs w' = jobs w
       | Some e =>
           snd (drainConnections ctx w) = Throw e
           /\ pendingTimers w' = pendingTimers w
           /\ drains w' = drains w
           /\ jobs w' = jobs w
       end.
Proof.
  intros ctx w Hsz.
  assert (Ez : Nat.eqb (connectionCount w) 0 = false) by (apply Nat.eqb_neq; exact Hsz).
  assert (E : exists x r,
             drainConnections ctx w = (x, r)
             /\ state (this x) = DRAINING
             /\ In (ELog "info" "Starting connection draining" (state (this w))) (trace x)
             /\ In (EEmit "draining-started" (PCount (connectionCount w))) (trace x)
             /\ activeConnections (this x) = activeConnections (this w)
             /\ match userListeners w "draining-started" with
                | None =>
                    r = Normal tt
                    /\ pendingTimers x
                       = pendingTimers w
                         ++ [{| pt_id := nextTimer w;
                                pt_deadline := now w + gracePeriodMs (config (this w));
                                pt_action := TGrace (List.length (drains w)) |}]
                    /\ timers (this x) = JsSet.add (nextTimer w) (timers (this w))
                    /\ drains x
                       = drains w ++ [{| dp_timer := nextTimer w; dp_ctx := ctx;
                                         dp_resolved := false |}]
                    /\ jobs x = jobs w
                | Some e =>
                    r = Throw e
                    /\ pendingTimers x = pendingTimers w
                    /\ drains x = drains w
                    /\ jobs x = jobs w
                end).
  { unfold drainConnections.
    erewrite bind_normal by reflexivity. rewrite Ez.
    erewrite bind_normal by (apply log_logs; reflexivity).
    erewrite bind_normal by reflexivity.
    unfold bind at 1. rewrite emit_result by reflexivity.
    cbn [userListeners set_this set_trace].
    destruct (userListeners w "draining-started") as [e |].
    - do 2 eexists. split; [reflexivity |]. cbn.
      split; [reflexivity |].
      split; [apply in_or_app; left; apply in_or_app; right; left; reflexivity |].
      split; [apply in_or_app; right; left; reflexivity |].
      repeat split.
    - erewrite bind_normal by reflexivity.
      erewrite bind_normal by reflexivity.
      unfold setTimeout.
      rewrite !bind_assoc.
      erewrite bind_normal by reflexivity.
      rewrite !bind_assoc.
      erewrite bind_normal by reflexivity.
      rewrite !bind_assoc.
      erewrite bind_normal by reflexivity.
      rewrite !bind_assoc.
      erewrite bind_normal by reflexivity.
      rewrite !bind_assoc.
      erewrite bind_normal by reflexivity.
      erewrite bind_normal by reflexivity.
      erewrite bind_normal by reflexivity.
      erewrite bind_normal by reflexivity.
      unfold checkConnections.
      erewrite bind_normal by reflexivity.
      erewrite bind_normal by reflexivity.
      cbn [drains set_drains set_this set_trace set_pendingTimers set_nextTimer
             nextTimer].
      rewrite nth_error_last.
      match goal with
      | |- context [Nat.eqb (connectionCount ?y) 0] =>
          change (connectionCount y) with (connectionCount w)
      end.
      rewrite Ez. cbn [when ret].
      do 2 eexists. split; [reflexivity |]. cbn.
      split; [reflexivity |].
      split; [apply in_or_app; left; apply in_or_app; left; apply in_or_app; right;
              left; reflexivity |].
      split; [apply in_or_app; left; apply in_or_app; right; left; reflexivity |].
      repeat split. }
  destruct E as (x & r & Ex & E). cbv zeta. rewrite Ex. cbn [fst snd].
  exact E.
Qed.

Lemma X16_witness :
  connectionCount one_connection <> 0%nat
  /\ state (this (fst (drainConnections sigterm one_connection))) = DRAINING.
Proof.
  assert (H : connectionCount one_connection <> 0%nat) by (vm_compute; discriminate).
  split; [exact H |].
  destruct (X16_drain_starts_grace_timer sigterm one_connection H) as (Hs & _).
  exact Hs.
Defined.

Ltac leaf_drain_frame :=
  idtac; unfold drain_frame in *; cbn in *;
  repeat match goal with
         | |- context [if ?b then _ else _] => destruct b
         end;
  cbn in *; intuition auto.

Lemma forceCloseConnections_frame w0 : preserves (drain_frame w0) forceCloseConnections.
Proof. preserves_with known_none leaf_drain_frame. Qed.

Lemma forceCloseConnections_completion w :
  snd (forceCloseConnections w)
  = match userListeners w "connections-force-closed" with
    | Some e => Throw e
    | None => Normal tt
    end.
Proof.
  unfold forceCloseConnections.
  erewrite bind_normal by reflexivity.
  erewrite bind_normal by (apply log_logs; reflexivity).
  set (l := JsMap.values (activeConnections (this w))).
  set (w1 := set_trace _ w).
  change (forEach _ l) with (forEach forceClose_one l).
  destruct (forceClose_all l w1) as [Hn _].
  assert (Hu : userListeners (fst (forEach forceClose_one l w1)) = userListeners w).
  { assert (Hp : preserves (fun x => userListeners x = userListeners w)
                   (forEach forceClose_one l))
      by (unfold forceClose_one; preserves_with known_none leaf_simple).
    apply Hp. reflexivity. }
  assert (E2 : forEach forceClose_one l w1
               = (fst (forEach forceClose_one l w1), Normal tt))
    by (destruct (forEach forceClose_one l w1) as [w2 r2]; cbn in Hn; subst r2;
        reflexivity).
  erewrite bind_normal by exact E2.
  erewrite bind_normal by reflexivity.
  rewrite emit_result by reflexivity. cbn [snd userListeners set_this].
  rewrite Hu. reflexivity.
Qed.

(** X18.  When the grace timer fires, every connection still tracked is
    destroyed and the registry emptied, then the drain resolves (once).
    The timer stays in [this.timers] and the state stays as it was.  When a
    listener of 'connections-force-closed' throws, the callback throws
    before it resolves the drain: nothing is queued and the drain promise
    stays pending. *)
Theorem X18_grace_timer_forces_drain :
  forall (d : nat) (p : DrainPromise) (w : World),
    nth_error (drains w) d = Some p ->
    let w' := fst (onGraceTimeout d w) in
    In (ELog "warn" "Grace period expired, forcing connection termination"
          (state (this w))) (trace w')
    /\ activeConnections (this w') = []
    /\ (forall ci, In ci (JsMap.values (activeConnections (this w))) ->
                   In (EDestroy (ci_socket ci)) (trace w'))
    /\ timers (this w') = timers (this w)
    /\ state (this w') = state (this w)
    /\ match userListeners w "connections-force-closed" with
       | None =>
           snd (onGraceTimeout d w) = Normal tt
           /\ jobs w' = jobs w ++ (if dp_resolved p then []
                                   else [JTick 0 (JAfterDrain (dp_ctx p))])
       | Some e =>
           snd (onGraceTimeout d w) = Throw e
           /\ jobs w' = jobs w
           /\ drains w' = drains w
       end.
Proof.
  intros d p w Hp.
  assert (E : exists x r,
             onGraceTimeout d w = (x, r)
             /\ In (ELog "warn" "Grace period expired, forcing connection termination"
                      (state (this w))) (trace x)
             /\ activeConnections (this x) = []
             /\ (forall ci, In ci (JsMap.values (activeConnections (this w))) ->
                            In (EDestroy (ci_socket ci)) (trace x))
             /\ timers (this x) = timers (this w)
             /\ state (this x) = state (this w)
             /\ match userListeners w "connections-force-closed" with
                | None =>
                    r = Normal tt
                    /\ jobs x = jobs w ++ (if dp_resolved p then []
                                           else [JTick 0 (JAfterDrain (dp_ctx p))])
                | Some e => r = Throw e /\ jobs x = jobs w /\ drains x = drains w
                end).
  { unfold onGraceTimeout.
    erewrite bind_normal by (apply log_logs; reflexivity).
    set (w1 := set_trace _ w).
    assert (Hl : In (ELog "warn" "Grace period expired, forcing connection termination"
                       (state (this w))) (trace w1))
      by (cbn; apply in_or_app; right; left; reflexivity).
    destruct (forceCloseConnections_spec w1) as [Hc Hd].
    pose proof (forceCloseConnections_completion w1) as Hr.
    pose proof (forceCloseConnections_frame w1 w1
                  (conj eq_refl (conj eq_refl (conj eq_refl (conj eq_refl eq_refl)))))
      as (Fj & Fd & Ft & Fs & Fu).
    pose proof (forceCloseConnections_keeps_trace _ w1 Hl) as Hl2.
    cbn [userListeners w1 set_trace] in Hr.
    unfold bind.
    destruct (forceCloseConnections w1) as [w2 r2]. cbn [fst snd] in *.
    destruct (userListeners w "connections-force-closed") as [e |]; subst r2.
    - do 2 eexists. split; [reflexivity |].
      split; [exact Hl2 |]. split; [exact Hc |]. split; [exact Hd |].
      split; [exact Ft |]. split; [exact Fs |]. split; [reflexivity |].
      split; [exact Fj | exact Fd].
    - unfold resolve_drain, bind, gets. cbn [fst snd].
      change (drains w1) with (drains w) in Fd. rewrite Fd, Hp.
      destruct (dp_resolved p).
      + do 2 eexists. split; [reflexivity |].
        split; [exact Hl2 |]. split; [exact Hc |]. split; [exact Hd |].
        split; [exact Ft |]. split; [exact Fs |]. split; [reflexivity |].
        rewrite app_nil_r. exact Fj.
      + do 2 eexists. split; [reflexivity |]. cbn.
        split; [exact Hl2 |]. split; [exact Hc |]. split; [exact Hd |].
        split; [exact Ft |]. split; [exact Fs |]. split; [reflexivity |].
        rewrite Fj. reflexivity. }
  destruct E as (x & r & Ex & E). cbv zeta. rewrite Ex. cbn [fst snd]. exact E.
Qed.

Lemma X18_witness :
  nth_error (drains draining) 0 = Some first_drain
  /\ activeConnections (this (fst (onGraceTimeout 0 draining))) = [].
Proof.
  assert (H : nth_error (drains draining) 0 = Some first_drain) by (vm_compute; reflexivity).
  split; [exact H |].
  destruct (X18_grace_timer_forces_drain 0 first_drain draining H) as (_ & Hc & _).
  exact Hc.
Defined.

(** ** Identifiers *)

(** X4.  In every run, [generateConnectionId] returns the clock and the
    incremented counter, an identifier under which nothing is tracked; the
    next call returns another one. *)
Theorem X4_generated_ids_are_fresh :
  forall (t0 : Z) (listeners : string -> option JsError) (options : Options)
         (fuel : nat) (evs : list (Z * Event)),
    let w := run fuel evs (new_ShutdownCoordinator t0 listeners options) in
    let id := (now w, S (connectionCounter (this w))) in
    let w1 := fst (generateConnectionId w) in
    snd (generateConnectionId w) = Normal id
    /\ connectionCounter (this w1) = S (connectionCounter (this w))
    /\ JsMap.get connid_eqb id (activeConnections (this w)) = None
    /\ (forall id2, snd (generateConnectionId w1) = Normal id2 -> id2 <> id).
Proof.
  intros t0 listeners options fuel evs w id w1.
  split; [reflexivity |]. split; [reflexivity |]. split.
  - pose proof (ids_generated_run t0 listeners options fuel evs) as Hgen.
    fold w in Hgen.
    destruct (JsMap.get connid_eqb id (activeConnections (this w))) as [i |] eqn:E;
      [| reflexivity].
    apply Hgen in E. cbn in E. lia.
  - intros id2 H. cbn in H. inversion H. unfold id. intros Heq. inversion Heq. lia.
Qed.

(** ** Faults as triggers *)

Lemma detached_normal (m : M unit) w : snd (detached m w) = Normal tt \/ snd (m w) = Halt.
Proof.
  unfold detached, try_catch, reject_unhandled, modify.
  destruct (m w) as [w' [[] | e | ]]; cbn; auto.
Qed.

(** X11.  The listeners for 'uncaughtException' and 'unhandledRejection' log
    the fault and pass it to [handleSignal] as the trigger
    UNCAUGHT_EXCEPTION or UNHANDLED_REJECTION.  Before a shutdown this
    starts the sequence, the fault being the [error] of
    'shutdown-initiated'; during one, all they do is write two log
    entries. *)
Theorem X11_faults_of_the_process_trigger_shutdown :
  forall (error : JsError) (w : World),
    let w1 := fst (onUncaughtException error w) in
    let w2 := fst (onUnhandledRejection error w) in
    if shutdownInitiated (this w) then
      onUncaughtException error w
      = (set_trace
           (trace w ++
            [ELog "error" "Uncaught exception, initiating emergency shutdown"
               (state (this w));
             ELog "warn" "Received UNCAUGHT_EXCEPTION signal during shutdown, ignoring"
               (state (this w))]) w,
         Normal tt)
      /\ onUnhandledRejection error w
         = (set_trace
              (trace w ++
               [ELog "error" "Unhandled promise rejection, initiating emergency shutdown"
                  (state (this w));
                ELog "warn" "Received UNHANDLED_REJECTION signal during shutdown, ignoring"
                  (state (this w))]) w,
            Normal tt)
    else
      shutdownInitiated (this w1) = true
      /\ state (this w1) = SHUTDOWN_PENDING
      /\ shutdownStartTime (this w1) = Some (now w)
      /\ In (EEmit "shutdown-initiated" (PTrigger "UNCAUGHT_EXCEPTION" (Some error)))
           (trace w1)
      /\ shutdownInitiated (this w2) = true
      /\ state (this w2) = SHUTDOWN_PENDING
      /\ shutdownStartTime (this w2) = Some (now w)
      /\ In (EEmit "shutdown-initiated" (PTrigger "UNHANDLED_REJECTION" (Some error)))
           (trace w2).
Proof.
  intros error w w1 w2.
  destruct (shutdownInitiated (this w)) eqn:Hi.
  - unfold onUncaughtException, onUnhandledRejection, detached, try_catch.
    erewrite !bind_normal by (apply log_logs; reflexivity).
    rewrite !handleSignal_ignored by exact Hi.
    rewrite !log_logs by reflexivity. cbn. rewrite <- !app_assoc. split; reflexivity.
  - assert (H1 : triggered "UNCAUGHT_EXCEPTION" (Some error) (now w) w1).
    { unfold w1, onUncaughtException.
      erewrite bind_normal by (apply log_logs; reflexivity).
      apply detached_post; [| intros x l H; exact H].
      match goal with
      | |- triggered _ _ _ (fst (handleSignal _ _ ?y)) =>
          apply (handleSignal_triggers "UNCAUGHT_EXCEPTION" (Some error) y Hi)
      end. }
    assert (H2 : triggered "UNHANDLED_REJECTION" (Some error) (now w) w2).
    { unfold w2, onUnhandledRejection.
      erewrite bind_normal by (apply log_logs; reflexivity).
      apply detached_post; [| intros x l H; exact H].
      match goal with
      | |- triggered _ _ _ (fst (handleSignal _ _ ?y)) =>
          apply (handleSignal_triggers "UNHANDLED_REJECTION" (Some error) y Hi)
      end. }
    destruct H1 as (A1 & A2 & A3 & A4). destruct H2 as (B1 & B2 & B3 & B4).
    repeat split; assumption.
Qed.

(** ** A fault in the chain of transitionToCleanup *)

(** X20.  A fault in the chain of [transitionToCleanup] reaches its [.catch]:
    the job that throws queues it.  The [.catch] logs the fault and calls
    [forceShutdown] with status 2: every tracked socket is destroyed, the
    registry emptied, and, no listener of the forced path throwing,
    'force-shutdown' goes out and the exit with status 2 is set 100 ms
    ahead.  Unlike the [catch] of [handleSignal] it does not record the
    fault: [shutdownErrors] gains the faults of [destroy] only. *)
Theorem X20_transition_fault_goes_to_forced_shutdown :
  forall (j : Job) (e : JsError) (w w1 : World),
    job_chain j = Transition ->
    is_catch j = false ->
    job_body j w = (w1, Throw e) ->
    run_job j w = later (catch_after j) (JCatch Transition e) w1
    /\ forall w2,
         let w3 := fst (run_job (JCatch Transition e) w2) in
         In (ELog "error" "Error during cleanup phase" (state (this w2))) (trace w3)
         /\ activeConnections (this w3) = []
         /\ (forall ci, In ci (JsMap.values (activeConnections (this w2))) ->
                        In (EDestroy (ci_socket ci)) (trace w3))
         /\ shutdownErrors (this w3)
            = shutdownErrors (this w2)
              ++ destroy_faults (JsMap.values (activeConnections (this w2)))
         /\ (quiet_forced w2 ->
             In (EEmit "force-shutdown" (PExitCode EXIT_CODES.RESOURCE_CLEANUP_FAILED))
               (trace w3)
             /\ exists t,
                  In {| pt_id := t; pt_deadline := now w2 + 100;
                        pt_action := TForceExit EXIT_CODES.RESOURCE_CLEANUP_FAILED |}
                    (pendingTimers w3)).
Proof.
  intros j e w w1 Hch Hnc Hb. split.
  - destruct j; try discriminate Hnc;
      try solve [unfold run_job, try_catch; rewrite Hb; rewrite Hch; reflexivity].
    match goal with
    | H : job_body (JWrapperCatch ?c ?m ?x) _ = _ |- _ =>
        pose proof (wrapper_catch_normal c m x w) as Hn
    end.
    unfold run_job in Hn. rewrite Hb in Hn. discriminate Hn.
  - intros w2. cbv zeta. cbn [run_job job_body].
    set (P := fun x : World =>
                In (ELog "error" "Error during cleanup phase" (state (this w2))) (trace x)
                /\ activeConnections (this x) = []
                /\ (forall ci, In ci (JsMap.values (activeConnections (this w2))) ->
                               In (EDestroy (ci_socket ci)) (trace x))
                /\ shutdownErrors (this x)
                   = shutdownErrors (this w2)
                     ++ destroy_faults (JsMap.values (activeConnections (this w2)))
                /\ (quiet_forced w2 ->
                    In (EEmit "force-shutdown"
                          (PExitCode EXIT_CODES.RESOURCE_CLEANUP_FAILED)) (trace x)
                    /\ exists t,
                         In {| pt_id := t; pt_deadline := now w2 + 100;
                               pt_action := TForceExit EXIT_CODES.RESOURCE_CLEANUP_FAILED |}
                           (pendingTimers x))).
    change (P (fst (detached (transition_catch e) w2))).
    apply detached_post; [| intros x l H; exact H].
    unfold transition_catch.
    erewrite bind_normal by (apply log_logs; reflexivity).
    set (w0 := set_trace _ w2).
    destruct (forceShutdown_forces EXIT_CODES.RESOURCE_CLEANUP_FAILED w0) as (Hc & Hd & _).
    unfold P. split.
    { assert (Hp : preserves (fun x => In (ELog "error" "Error during cleanup phase"
                                             (state (this w2))) (trace x))
                     (forceShutdown EXIT_CODES.RESOURCE_CLEANUP_FAILED))
        by (preserves_with known_none leaf_in_trace).
      apply Hp. cbn. apply in_or_app. right. left. reflexivity. }
    split; [exact Hc |]. split; [exact Hd |]. split.
    { unfold forceShutdown.
      erewrite bind_normal by (apply log_logs; reflexivity).
      match goal with
      | |- shutdownErrors (this (fst (bind forceCloseConnections ?k ?y))) = ?rhs =>
          apply (bind_post forceCloseConnections k
                   (fun x => shutdownErrors (this x) = rhs) y);
          [ destruct (forceCloseConnections_errors y) as [He _]; exact He
          | intros a; preserves_with known_none leaf_simple ]
      end. }
    intros Hq.
    destruct (forceShutdown_completes EXIT_CODES.RESOURCE_CLEANUP_FAILED w0 Hq)
      as (_ & _ & _ & Hm & Ht).
    split; [exact Hm | exact Ht].
Qed.

Lemma X20_witness :
  let w := new_ShutdownCoordinator 0 cleanup_fault no_options in
  job_body (JCleanupResume Transition) w
  = (fst (job_body (JCleanupResume Transition) w), Throw (mkError "listener failed"))
  /\ run_job (JCleanupResume Transition) w
     = later 2 (JCatch Transition (mkError "listener failed"))
         (fst (job_body (JCleanupResume Transition) w)).
Proof.
  intros w.
  assert (H : job_body (JCleanupResume Transition) w
              = (fst (job_body (JCleanupResume Transition) w),
                 Throw (mkError "listener failed")))
    by (vm_compute; reflexivity).
  split; [exact H |].
  destruct (X20_transition_fault_goes_to_forced_shutdown (JCleanupResume Transition)
              (mkError "listener failed") w _ eq_refl eq_refl H) as (Hq & _).
  exact Hq.
Defined.

(** ** Registering a server *)

Ltac leaf_registration :=
  idtac; unfold registration_frame in *; cbn in *;
  repeat match goal with
         | |- context [if ?b then _ else _] => destruct b
         end;
  cbn in *; intuition auto.

Lemma setupSignalHandlers_frame w0 : preserves (registration_frame w0) setupSignalHandlers.
Proof. preserves_with known_none leaf_registration. Qed.

(** X3.  What a first [registerServer] with a valid server installs: the server
    is kept, its 'connection' event is listened to, the process gets
    listeners for SIGTERM, SIGINT, SIGUSR2, 'uncaughtException' and
    'unhandledRejection', and 'server-registered' goes out last.  When a
    listener of that event throws, [registerServer] throws too, but the
    registration stays: the next call is refused as already registered. *)
Theorem X3_register_server_installs_listeners :
  forall (srv : ServerObj) (w : World),
    srv_close_is_function srv = true ->
    server (this w) = None ->
    signalHandlers (this w) = [] ->
    let w' := fst (registerServer (ArgObject srv) w) in
    server (this w') = Some srv
    /\ connectionListeners w' = connectionListeners w ++ [srv_id srv]
    /\ processListeners w'
       = processListeners w
         ++ ["SIGTERM"; "SIGINT"; "SIGUSR2"; "uncaughtException"; "unhandledRejection"]
    /\ In (EServerOn (srv_id srv)) (trace w')
    /\ In (EEmit "server-registered" (PServer (srv_id srv))) (trace w')
    /\ snd (registerServer (ArgObject srv) w)
       = match userListeners w "server-registered" with
         | None => Normal tt
         | Some e => Throw e
         end
    /\ registerServer (ArgObject srv) w'
       = (w', Throw (mkError "Server already registered with shutdown coordinator")).
Proof.
  intros srv w Hf Hs Hh.
  assert (E : exists x r,
             registerServer (ArgObject srv) w = (x, r)
             /\ server (this x) = Some srv
             /\ connectionListeners x = connectionListeners w ++ [srv_id srv]
             /\ processListeners x
                = processListeners w
                  ++ ["SIGTERM"; "SIGINT"; "SIGUSR2"; "uncaughtException";
                      "unhandledRejection"]
             /\ In (EServerOn (srv_id srv)) (trace x)
             /\ In (EEmit "server-registered" (PServer (srv_id srv))) (trace x)
             /\ r = match userListeners w "server-registered" with
                    | None => Normal tt
                    | Some e => Throw e
                    end).
  { unfold registerServer. rewrite Hf. cbn [negb].
    erewrite bind_normal by reflexivity. rewrite Hs.
    erewrite bind_normal by reflexivity.
    unfold setupConnectionTracking. rewrite bind_assoc.
    erewrite bind_normal by reflexivity.
    erewrite bind_normal by reflexivity.
    set (w1 := set_trace _ _).
    assert (Hh1 : signalHandlers (this w1) = []) by exact Hh.
    destruct (setupSignalHandlers_result w1 Hh1) as (Hn & Hp & _).
    pose proof (setupSignalHandlers_frame w1 w1 (conj eq_refl (conj eq_refl eq_refl)))
      as (Fs & Fc & Fu).
    assert (Ft : In (EServerOn (srv_id srv)) (trace (fst (setupSignalHandlers w1)))).
    { assert (Hk : preserves (fun x => In (EServerOn (srv_id srv)) (trace x))
                     setupSignalHandlers)
        by (preserves_with known_none leaf_in_trace).
      apply Hk. cbn. apply in_or_app. right. left. reflexivity. }
    assert (E2 : setupSignalHandlers w1 = (fst (setupSignalHandlers w1), Normal tt))
      by (destruct (setupSignalHandlers w1) as [w2 r2]; cbn in Hn; subst r2; reflexivity).
    erewrite bind_normal by exact E2.
    remember (fst (setupSignalHandlers w1)) as w2 eqn:Ew2. clear Ew2 E2.
    erewrite bind_normal by (apply log_logs; reflexivity).
    rewrite emit_result by reflexivity.
    do 2 eexists. split; [reflexivity |]. cbn.
    split; [exact Fs |]. split; [exact Fc |]. split; [exact Hp |].
    split; [apply in_or_app; left; apply in_or_app; left; exact Ft |].
    split; [apply in_or_app; right; left; reflexivity |].
    rewrite Fu. reflexivity. }
  destruct E as (x & r & Ex & H1 & H2 & H3 & H4 & H5 & H6).
  cbv zeta. rewrite Ex. cbn [fst snd].
  repeat (split; [assumption |]).
  unfold registerServer. rewrite Hf. cbn [negb].
  erewrite bind_normal by reflexivity. rewrite H1. reflexivity.
Qed.

Lemma X3_witness :
  let w := new_ShutdownCoordinator 0 quiet no_options in
  server (this (fst (registerServer (ArgObject http_server) w))) = Some http_server.
Proof.
  intros w.
  destruct (X3_register_server_installs_listeners http_server w eq_refl eq_refl eq_refl)
    as (H & _).
  exact H.
Defined.
